(* ===================================================================== *)
(*  PhoneQA database importer (JSON_DB_Importer.py): a shallow embedding *)
(*  of the batch driver, the reference resolvers and the per-document    *)
(*  import transaction, with the properties of the written specification *)
(*  checked against it.                                                  *)
(*                                                                       *)
(*  Modelling conventions                                                *)
(*  - Python str is modelled by Rocq's string; case conversion and       *)
(*    whitespace are those of the ASCII range.                           *)
(*  - A Python dict with string keys is a gmap string _; a Python set is *)
(*    a duplicate-free list in first-insertion order.                    *)
(*  - Code that touches the store, the file system or may raise lives in *)
(*    a state-and-exception monad over a World record; the state         *)
(*    survives a raised exception, as it does in Python.                 *)
(*  - JSON numbers are integers; paths use the POSIX separator.          *)
(*  - The store is seen through one connection: the rows it committed,   *)
(*    the rows of its open transaction, and the reference rows that      *)
(*    concurrent runs commit meanwhile.  A schedule says what meets each *)
(*    call on the connection: nothing, a failing statement, the loss of  *)
(*    the link, or such a concurrent commit.  Keys come from one         *)
(*    sequence and are never reused.                                     *)
(* ===================================================================== *)

From Stdlib Require Import ZArith Ascii String List Bool Lia.
From stdpp Require Import base option list strings gmap.

Local Open Scope Z_scope.

(* --------------------------------------------------------------------- *)
(*  Python string methods                                                *)
(* --------------------------------------------------------------------- *)
Module PyStr.

(* str.isspace on one ASCII character: TAB LF VT FF CR, FS GS RS US, SP *)
Definition is_space (c : ascii) : bool :=
  let n := nat_of_ascii c in
  ((9 <=? n)%nat && (n <=? 13)%nat) || ((28 <=? n)%nat && (n <=? 32)%nat).

Definition is_digit (c : ascii) : bool :=
  let n := nat_of_ascii c in (48 <=? n)%nat && (n <=? 57)%nat.

Definition is_lower (c : ascii) : bool :=
  let n := nat_of_ascii c in (97 <=? n)%nat && (n <=? 122)%nat.

Definition upper_char (c : ascii) : ascii :=
  if is_lower c then ascii_of_nat (nat_of_ascii c - 32) else c.

(* str.upper *)
Fixpoint upper (s : string) : string :=
  match s with
  | EmptyString => EmptyString
  | String c s' => String (upper_char c) (upper s')
  end.

(* str.startswith(p) *)
Fixpoint startswith (s p : string) : bool :=
  match p, s with
  | EmptyString, _ => true
  | String _ _, EmptyString => false
  | String a p', String b s' => if Ascii.eqb a b then startswith s' p' else false
  end.

(* str.endswith(suf): some tail of s is suf *)
Fixpoint endswith (s suf : string) : bool :=
  if String.eqb s suf then true
  else match s with
       | EmptyString => false
       | String _ s' => endswith s' suf
       end.

(* sub in s *)
Fixpoint contains (s sub : string) : bool :=
  if startswith s sub then true
  else match s with
       | EmptyString => false
       | String _ s' => contains s' sub
       end.

Fixpoint lstrip (s : string) : string :=
  match s with
  | EmptyString => EmptyString
  | String c s' => if is_space c then lstrip s' else s
  end.

Fixpoint rstrip (s : string) : string :=
  match s with
  | EmptyString => EmptyString
  | String c s' =>
      match rstrip s' with
      | EmptyString => if is_space c then EmptyString else String c EmptyString
      | r => String c r
      end
  end.

(* str.strip() *)
Definition strip (s : string) : string := rstrip (lstrip s).

(* bool(s) *)
Definition nonempty (s : string) : bool :=
  match s with EmptyString => false | _ => true end.

(* str.replace(old, new) for a non-empty old: leftmost, non-overlapping
   occurrences; [skip] counts the characters of a matched occurrence
   that are still to be passed over. *)
Fixpoint replace_from (skip : nat) (s old new : string) : string :=
  match s with
  | EmptyString => EmptyString
  | String c s' =>
      match skip with
      | S k => replace_from k s' old new
      | O =>
          if startswith s old
          then String.append new (replace_from (String.length old - 1) s' old new)
          else String c (replace_from O s' old new)
      end
  end.

Definition replace (s old new : string) : string := replace_from O s old new.

End PyStr.


(* --------------------------------------------------------------------- *)
(*  Python values as json.load produces them                             *)
(* --------------------------------------------------------------------- *)

(* Exceptions, named as Python and pyodbc name them. *)
Inductive exn : Type :=
| AttributeError      (* a method missing on the receiver: None.get, 5.strip *)
| TypeError           (* not iterable, not hashable *)
| ValueError
| JSONDecodeError     (* open / json.load on an unreadable or malformed file *)
| FileNotFoundError   (* shutil.move of a missing source *)
| IntegrityError      (* a uniqueness constraint of the store *)
| OperationalError.   (* the statement or the link to the store failed *)

Inductive Res (A : Type) : Type :=
| Ok (a : A)
| Raise (e : exn).
Arguments Ok {A} a.
Arguments Raise {A} e.

#[local] Set Warnings "-register-all".
Inductive json : Type :=
| JNull
| JBool (b : bool)
| JNum (n : Z)
| JStr (s : string)
| JArr (items : list json)
| JObj (fields : list (string * json)).

Module Py.

(* bool(v) *)
Definition truthy (v : json) : bool :=
  match v with
  | JNull => false
  | JBool b => b
  | JNum n => negb (n =? 0)
  | JStr s => PyStr.nonempty s
  | JArr l => match l with [] => false | _ => true end
  | JObj l => match l with [] => false | _ => true end
  end.

Fixpoint assoc (k : string) (l : list (string * json)) : option json :=
  match l with
  | [] => None
  | (k', v) :: l' => if String.eqb k k' then Some v else assoc k l'
  end.

(* d.get(k, dflt): only a dict has the method *)
Definition get (d : json) (k : string) (dflt : json) : Res json :=
  match d with
  | JObj l => Ok (match assoc k l with Some v => v | None => dflt end)
  | _ => Raise AttributeError
  end.

Fixpoint chars (s : string) : list json :=
  match s with
  | EmptyString => []
  | String c s' => JStr (String c EmptyString) :: chars s'
  end.

(* for x in v: a list yields its items, a dict its keys, a str its
   characters; nothing else is iterable *)
Definition iter (v : json) : Res (list json) :=
  match v with
  | JArr l => Ok l
  | JObj l => Ok (map (fun kv => JStr (fst kv)) l)
  | JStr s => Ok (chars s)
  | _ => Raise TypeError
  end.

(* v.strip(): only a str has the method *)
Definition strip (v : json) : Res string :=
  match v with
  | JStr s => Ok (PyStr.strip s)
  | _ => Raise AttributeError
  end.

End Py.

(* The hashable values a set can hold.  True and False hash and compare
   as 1 and 0. *)
Inductive key : Type :=
| KNone
| KNum (n : Z)
| KStr (s : string).

Global Instance key_eq_dec : EqDecision key.
Proof. solve_decision. Defined.

Definition to_key (v : json) : Res key :=
  match v with
  | JNull => Ok KNone
  | JBool b => Ok (KNum (if b then 1 else 0))
  | JNum n => Ok (KNum n)
  | JStr s => Ok (KStr s)
  | JArr _ | JObj _ => Raise TypeError
  end.

Definition key_truthy (k : key) : bool :=
  match k with
  | KNone => false
  | KNum n => negb (n =? 0)
  | KStr s => PyStr.nonempty s
  end.

Definition key_strip (k : key) : Res string :=
  match k with
  | KStr s => Ok (PyStr.strip s)
  | _ => Raise AttributeError
  end.

(* s.add(x) on a set kept as a duplicate-free list *)
Definition set_add {A} `{EqDecision A} (x : A) (s : list A) : list A :=
  if decide (x ∈ s) then s else s ++ [x].

(* --------------------------------------------------------------------- *)
(*  Paths (POSIX separator) and the two regular expressions              *)
(* --------------------------------------------------------------------- *)
Module Path.

Definition sep : ascii := "/"%char.

Definition ends_with_sep (a : string) : bool := PyStr.endswith a "/".

(* os.path.join(a, b) for a relative b *)
Definition join (a b : string) : string :=
  match a with
  | EmptyString => b
  | _ => if ends_with_sep a then String.append a b
         else String.append a (String sep b)
  end.

Fixpoint has_sep (s : string) : bool :=
  match s with
  | EmptyString => false
  | String c s' => Ascii.eqb c sep || has_sep s'
  end.

(* os.path.basename: what follows the last separator *)
Fixpoint basename (p : string) : string :=
  match p with
  | EmptyString => EmptyString
  | String c p' => if has_sep p then basename p' else p
  end.

(* what precedes (and includes) the last separator *)
Fixpoint head_with_sep (p : string) : string :=
  match p with
  | EmptyString => EmptyString
  | String c p' => if has_sep p then String c (head_with_sep p') else EmptyString
  end.

Fixpoint all_sep (s : string) : bool :=
  match s with
  | EmptyString => true
  | String c s' => Ascii.eqb c sep && all_sep s'
  end.

Fixpoint rstrip_sep (s : string) : string :=
  match s with
  | EmptyString => EmptyString
  | String c s' =>
      match rstrip_sep s' with
      | EmptyString => if Ascii.eqb c sep then EmptyString else String c EmptyString
      | r => String c r
      end
  end.

(* os.path.dirname: the head, without its trailing separators unless it
   is all separators *)
Definition dirname (p : string) : string :=
  let h := head_with_sep p in
  if all_sep h then h else rstrip_sep h.

End Path.

Module Regex.

(* One position of a pattern without repetition or alternation. *)
Inductive cls : Type :=
| Lit (c : ascii)     (* the character itself *)
| Digit               (* \d *)
| Slash.              (* [\\/] *)

Definition cls_ok (k : cls) (c : ascii) : bool :=
  match k with
  | Lit a => Ascii.eqb a c
  | Digit => PyStr.is_digit c
  | Slash => Ascii.eqb c "/"%char || Ascii.eqb c "\"%char
  end.

Fixpoint match_here (pat : list cls) (s : string) : bool :=
  match pat, s with
  | [], _ => true
  | _ :: _, EmptyString => false
  | k :: pat', String c s' => cls_ok k c && match_here pat' s'
  end.

(* re.search: the text from the leftmost match on *)
Fixpoint search (pat : list cls) (s : string) : option string :=
  if match_here pat s then Some s
  else match s with
       | EmptyString => None
       | String _ s' => search pat s'
       end.

Fixpoint lits (s : string) : list cls :=
  match s with
  | EmptyString => []
  | String c s' => Lit c :: lits s'
  end.

(* \d{4}-\d{2}-\d{2} *)
Definition date_pat : list cls :=
  [Digit; Digit; Digit; Digit; Lit "-"%char; Digit; Digit; Lit "-"%char; Digit; Digit].

(* Week of (\d{4}-\d{2}-\d{2}) *)
Definition week_pat : list cls := lits "Week of " ++ date_pat.

(* Week of \d{4}-\d{2}-\d{2}[\\/](\d{4}) *)
Definition ext_pat : list cls :=
  week_pat ++ [Slash; Digit; Digit; Digit; Digit].

End Regex.


(* --------------------------------------------------------------------- *)
(*  Calendar dates: datetime.strptime(text, '%Y-%m-%d').date()           *)
(* --------------------------------------------------------------------- *)
Module Date.

Record date : Type := mk { year : Z; month : Z; day : Z }.

Definition digit_val (c : ascii) : Z := Z.of_nat (nat_of_ascii c) - 48.

Fixpoint digits_val (acc : Z) (s : string) : Z :=
  match s with
  | EmptyString => acc
  | String c s' => digits_val (10 * acc + digit_val c) s'
  end.

Definition is_leap (y : Z) : bool :=
  (y mod 4 =? 0) && (negb (y mod 100 =? 0) || (y mod 400 =? 0)).

Definition days_in_month (y m : Z) : Z :=
  if m =? 2 then (if is_leap y then 29 else 28)
  else if (m =? 4) || (m =? 6) || (m =? 9) || (m =? 11) then 30
  else 31.

(* strptime on a text of the shape \d{4}-\d{2}-\d{2} (the only texts the
   importer passes); None stands for ValueError: year 0000, month or day
   00, or a day the month does not have. *)
Definition strptime_ymd (text : string) : option date :=
  let y := digits_val 0 (substring 0 4 text) in
  let m := digits_val 0 (substring 5 2 text) in
  let d := digits_val 0 (substring 8 2 text) in
  if (1 <=? y) && (1 <=? m) && (m <=? 12) && (1 <=? d) && (d <=? days_in_month y m)
  then Some (mk y m d) else None.

(* date.__lt__ *)
Definition ltb (a b : date) : bool :=
  (year a <? year b)
  || ((year a =? year b)
      && ((month a <? month b) || ((month a =? month b) && (day a <? day b)))).

Definition leb (a b : date) : bool := negb (ltb b a).

End Date.

(* --------------------------------------------------------------------- *)
(*  find_latest_week_folder                                              *)
(* --------------------------------------------------------------------- *)

(* One name of os.listdir(root_dir), with what os.path.isdir says of it. *)
Record DirEntry : Type := { entry_name : string; entry_is_dir : bool }.

(* date_pattern.search(item) followed by strptime on group(1):
   None when the pattern does not occur, Some None when it occurs with an
   invalid date (the warning branch), Some (Some d) otherwise. *)
Definition folder_date (item : string) : option (option Date.date) :=
  match Regex.search Regex.week_pat item with
  | None => None
  | Some from_match => Some (Date.strptime_ymd (substring 8 10 from_match))
  end.

(* the loop that fills week_folders *)
Fixpoint scan_week_folders (root_dir : string) (items : list DirEntry)
  : list (Date.date * string) :=
  match items with
  | [] => []
  | item :: rest =>
      let full_path := Path.join root_dir (entry_name item) in
      (if entry_is_dir item then
         match folder_date (entry_name item) with
         | Some (Some folder_date) => [(folder_date, full_path)]
         | _ => []
         end
       else [])
      ++ scan_week_folders root_dir rest
  end.

(* sorted(l, key=lambda x: x[0], reverse=True): stable, so of two entries
   with the same date the one listed first stays first. *)
Fixpoint insert_desc (x : Date.date * string) (l : list (Date.date * string))
  : list (Date.date * string) :=
  match l with
  | [] => [x]
  | y :: l' => if Date.leb (fst y) (fst x) then x :: l else y :: insert_desc x l'
  end.

Fixpoint sorted_desc (l : list (Date.date * string)) : list (Date.date * string) :=
  match l with
  | [] => []
  | x :: l' => insert_desc x (sorted_desc l')
  end.

(* [listing] is os.listdir(root_dir); None when it raises. *)
Definition find_latest_week_folder (root_dir : string) (listing : option (list DirEntry))
  : option string :=
  match listing with
  | None => None
  | Some items =>
      let week_folders := scan_week_folders root_dir items in
      match week_folders with
      | [] => None
      | _ =>
          match sorted_desc week_folders with
          | latest_folder :: _ => Some (snd latest_folder)
          | [] => None
          end
      end
  end.

(* extract_extension_from_path: group(1) of the leftmost match *)
Definition extract_extension_from_path (file_path : string) : option string :=
  match Regex.search Regex.ext_pat file_path with
  | Some from_match => Some (substring 19 4 from_match)
  | None => None
  end.


(* --------------------------------------------------------------------- *)
(*  The store, the file system and the clock                             *)
(* --------------------------------------------------------------------- *)

(* A row of one of the tables the importer writes.  Scalar columns that
   come straight from the document are kept as the JSON values bound to
   the statement's parameters. *)
Inductive Row : Type :=
| RAgent (agent_id : Z) (agent_name : string) (email_address : option string)
         (ext : string)
| RQualityPoint (quality_point_id : Z) (quality_point_text : string) (is_bonus : Z)
| RIndividual (analysis_id agent_id : Z) (audio_file_name : string)
              (summary_columns : list json) (processing_date_time : Z)
| REvaluationItem (analysis_id quality_point_id : Z) (finding explanation : json)
| RCombined (combined_id agent_id : Z) (aggregate_columns : list json)
            (processing_date_time : Z)
| RStrength (combined_id : Z) (strength_text : json)
| RDevelopmentArea (combined_id : Z) (development_area_text : json)
| RCoachingFocus (focus_id combined_id : Z) (area_text : json)
| RCoachingAction (focus_id : Z) (action_text : json)
| RQualityPointDetail (combined_id quality_point_id : Z)
                      (positive negative neutral trend : json).

(* What may happen at the store while one call of this run is in flight. *)
Inductive Interference : Type :=
| Quiet
| StatementFails        (* this call raises; the connection stays usable *)
| ConnectionLost        (* the link dies: this and every later call raise,
                           and the server aborts the open transaction *)
| OtherRunAgent (agent_name : string) (email_address : option string) (ext : string)
| OtherRunQualityPoint (quality_point_text : string) (is_bonus : Z).
                        (* a concurrent run commits a reference row *)

(* The calls made on the connection and its cursor, in order. *)
Inductive Stmt : Type :=
| SelectAgent (ext : string)
| InsertAgent (ext : string)
| SelectQualityPoints (texts : list string)
| InsertQualityPoints (texts : list string)
| InsertInto (table : string)
| Commit
| Rollback.

Global Instance Stmt_eq_dec : EqDecision Stmt.
Proof. solve_decision. Defined.

(* A file: the directory os.walk reports it under, its name, and what
   json.load makes of it (None: unreadable or not JSON). *)
Record File : Type := { f_dir : string; f_name : string; f_data : option json }.

Record World : Type := mkWorld {
  committed : list Row;          (* rows this connection has committed *)
  foreign : list Row;            (* rows committed by concurrent runs *)
  pending : list Row;            (* rows of the open transaction *)
  autocommit : bool;             (* conn.autocommit *)
  alive : bool;                  (* the link to the store is up *)
  next_id : Z;                   (* next surrogate key the store issues *)
  schedule : list Interference;  (* one entry per call still to come *)
  trace : list Stmt;             (* calls made so far *)
  clock : Z;                     (* what datetime.now() would read *)
  files : list File              (* files, in os.walk order *)
}.

Definition set_committed (x : list Row) (w : World) : World :=
  mkWorld x (foreign w) (pending w) (autocommit w) (alive w) (next_id w)
          (schedule w) (trace w) (clock w) (files w).
Definition set_foreign (x : list Row) (w : World) : World :=
  mkWorld (committed w) x (pending w) (autocommit w) (alive w) (next_id w)
          (schedule w) (trace w) (clock w) (files w).
Definition set_pending (x : list Row) (w : World) : World :=
  mkWorld (committed w) (foreign w) x (autocommit w) (alive w) (next_id w)
          (schedule w) (trace w) (clock w) (files w).
Definition set_autocommit (x : bool) (w : World) : World :=
  mkWorld (committed w) (foreign w) (pending w) x (alive w) (next_id w)
          (schedule w) (trace w) (clock w) (files w).
Definition set_alive (x : bool) (w : World) : World :=
  mkWorld (committed w) (foreign w) (pending w) (autocommit w) x (next_id w)
          (schedule w) (trace w) (clock w) (files w).
Definition set_next_id (x : Z) (w : World) : World :=
  mkWorld (committed w) (foreign w) (pending w) (autocommit w) (alive w) x
          (schedule w) (trace w) (clock w) (files w).
Definition set_schedule (x : list Interference) (w : World) : World :=
  mkWorld (committed w) (foreign w) (pending w) (autocommit w) (alive w) (next_id w)
          x (trace w) (clock w) (files w).
Definition set_trace (x : list Stmt) (w : World) : World :=
  mkWorld (committed w) (foreign w) (pending w) (autocommit w) (alive w) (next_id w)
          (schedule w) x (clock w) (files w).
Definition set_clock (x : Z) (w : World) : World :=
  mkWorld (committed w) (foreign w) (pending w) (autocommit w) (alive w) (next_id w)
          (schedule w) (trace w) x (files w).
Definition set_files (x : list File) (w : World) : World :=
  mkWorld (committed w) (foreign w) (pending w) (autocommit w) (alive w) (next_id w)
          (schedule w) (trace w) (clock w) x.

(* --------------------------------------------------------------------- *)
(*  State and exceptions                                                 *)
(* --------------------------------------------------------------------- *)

Definition M (A : Type) : Type := World -> Res A * World.

Definition ret {A} (a : A) : M A := fun w => (Ok a, w).

Definition raise {A} (e : exn) : M A := fun w => (Raise e, w).

Definition bind {A B} (m : M A) (k : A -> M B) : M B :=
  fun w => match m w with
           | (Ok a, w') => k a w'
           | (Raise e, w') => (Raise e, w')
           end.

(* try: m  except Exception as e: h e *)
Definition try_catch {A} (m : M A) (h : exn -> M A) : M A :=
  fun w => match m w with
           | (Ok a, w') => (Ok a, w')
           | (Raise e, w') => h e w'
           end.

Definition get_world : M World := fun w => (Ok w, w).

Definition modify (f : World -> World) : M unit := fun w => (Ok tt, f w).

Definition lift {A} (r : Res A) : M A := fun w => (r, w).

Declare Scope py_scope.
Delimit Scope py_scope with py.
Notation "x <- m ;; k" := (bind m (fun x => k))
  (at level 100, m at next level, right associativity) : py_scope.
Notation "m ;; k" := (bind m (fun _ => k))
  (at level 100, right associativity) : py_scope.
Local Open Scope py_scope.

(* [f x for x in l], f possibly raising *)
Fixpoint for_each {A B} (f : A -> M B) (l : list A) : M (list B) :=
  match l with
  | [] => ret []
  | x :: l' => y <- f x ;; ys <- for_each f l' ;; ret (y :: ys)
  end.

(* --------------------------------------------------------------------- *)
(*  The connection and its cursor                                        *)
(* --------------------------------------------------------------------- *)

(* What a statement of this connection sees. *)
Definition view (w : World) : list Row := committed w ++ foreign w ++ pending w.

Fixpoint find_agent (ext : string) (rows : list Row) : option Z :=
  match rows with
  | [] => None
  | RAgent id _ _ e :: rows' =>
      if String.eqb e ext then Some id else find_agent ext rows'
  | _ :: rows' => find_agent ext rows'
  end.

Fixpoint find_quality_point (text : string) (rows : list Row) : option Z :=
  match rows with
  | [] => None
  | RQualityPoint id t _ :: rows' =>
      if String.eqb t text then Some id else find_quality_point text rows'
  | _ :: rows' => find_quality_point text rows'
  end.

(* rows of QualityPointsMaster whose text is IN (texts), as (text, id) *)
Fixpoint quality_points_in (texts : list string) (rows : list Row)
  : list (string * Z) :=
  match rows with
  | [] => []
  | RQualityPoint id t _ :: rows' =>
      if decide (t ∈ texts) then (t, id) :: quality_points_in texts rows'
      else quality_points_in texts rows'
  | _ :: rows' => quality_points_in texts rows'
  end.

Definition store_rows (rows : list Row) (w : World) : World :=
  if autocommit w then set_committed (committed w ++ rows) w
  else set_pending (pending w ++ rows) w.

(* A reference row committed by a concurrent run; the uniqueness
   constraints hold for that run too. *)
Definition interfere (i : Interference) (w : World) : Res unit * World :=
  match i with
  | Quiet => (Ok tt, w)
  | StatementFails => (Raise OperationalError, w)
  | ConnectionLost => (Raise OperationalError, set_alive false (set_pending [] w))
  | OtherRunAgent n e x =>
      match find_agent x (view w) with
      | Some _ => (Ok tt, w)
      | None => (Ok tt, set_next_id (next_id w + 1)
                          (set_foreign (foreign w ++ [RAgent (next_id w) n e x]) w))
      end
  | OtherRunQualityPoint t b =>
      match find_quality_point t (view w) with
      | Some _ => (Ok tt, w)
      | None => (Ok tt, set_next_id (next_id w + 1)
                          (set_foreign (foreign w ++ [RQualityPoint (next_id w) t b]) w))
      end
  end.

(* One call on the connection: recorded, timed, and subject to the next
   entry of the schedule. *)
Definition round_trip (s : Stmt) : M unit :=
  fun w =>
    let w1 := set_clock (clock w + 1) (set_trace (trace w ++ [s]) w) in
    if alive w1 then
      match schedule w1 with
      | [] => (Ok tt, w1)
      | i :: rest => interfere i (set_schedule rest w1)
      end
    else (Raise OperationalError, w1).

(* the key the store issues for an inserted row *)
Definition fresh_id : M Z :=
  fun w => (Ok (next_id w), set_next_id (next_id w + 1) w).

(* SELECT AgentID FROM Agents WHERE Extension = ?  ... fetchone() *)
Definition select_agent (extension : string) : M (option Z) :=
  round_trip (SelectAgent extension) ;;
  w <- get_world ;;
  ret (find_agent extension (view w)).

(* INSERT INTO Agents ... OUTPUT INSERTED.AgentID ... fetchval() *)
Definition insert_agent (agent_name : string) (email : option string)
  (extension : string) : M Z :=
  round_trip (InsertAgent extension) ;;
  w <- get_world ;;
  match find_agent extension (view w) with
  | Some _ => raise IntegrityError
  | None =>
      id <- fresh_id ;;
      modify (store_rows [RAgent id agent_name email extension]) ;;
      ret id
  end.

(* SELECT QualityPointText, QualityPointID ... WHERE QualityPointText IN (...)
   ... fetchall() *)
Definition select_quality_points (texts : list string) : M (list (string * Z)) :=
  round_trip (SelectQualityPoints texts) ;;
  w <- get_world ;;
  ret (quality_points_in texts (view w)).

Definition insert_quality_point (param : string * Z) : M unit :=
  id <- fresh_id ;;
  modify (store_rows [RQualityPoint id (fst param) (snd param)]).

(* executemany(INSERT INTO QualityPointsMaster ...): one call; a text that
   is already there violates the uniqueness constraint. *)
Definition insert_quality_points (params : list (string * Z)) : M unit :=
  round_trip (InsertQualityPoints (map fst params)) ;;
  w <- get_world ;;
  if forallb (fun p => negb (bool_decide (is_Some (find_quality_point (fst p) (view w)))))
             params
  then for_each insert_quality_point params ;; ret tt
  else raise IntegrityError.

(* INSERT ... OUTPUT INSERTED.<key> ... fetchval() *)
Definition insert_returning (table : string) (mk_row : Z -> Row) : M Z :=
  round_trip (InsertInto table) ;;
  id <- fresh_id ;;
  modify (store_rows [mk_row id]) ;;
  ret id.

(* executemany(INSERT ...) into a table without a uniqueness constraint:
   one row per parameter tuple, built as the statement's columns say *)
Definition insert_many {T} (table : string) (mk_row : T -> Row) (params : list T)
  : M unit :=
  round_trip (InsertInto table) ;;
  modify (store_rows (map mk_row params)).

(* conn.commit() *)
Definition commit : M unit :=
  round_trip Commit ;;
  modify (fun w => set_pending [] (set_committed (committed w ++ pending w) w)).

(* conn.rollback() *)
Definition rollback : M unit :=
  round_trip Rollback ;;
  modify (set_pending []).

(* conn.close(): what was not committed is lost *)
Definition close : M unit :=
  modify (fun w => set_alive false (set_pending [] w)).

(* datetime.datetime.now() *)
Definition now : M Z := w <- get_world ;; ret (clock w).


(* --------------------------------------------------------------------- *)
(*  Static configuration                                                 *)
(* --------------------------------------------------------------------- *)

Definition PROCESSED_PREFIX : string := "Stored-".
Definition FAILED_PREFIX : string := "BadData-".
Definition COMBINED_REPORT_FILENAME : string := "Combined_Analysis_Report.json".
Definition BONUS_TOKEN : string := "[BONUS]".

(* --------------------------------------------------------------------- *)
(*  Reference resolvers                                                  *)
(* --------------------------------------------------------------------- *)

(* One value of the dict parse_extlist_data builds, or the dict
   process_folder makes up for an extension that is not in it. *)
Record AgentDetails : Type := {
  full_name : string;
  email : option string;
  extension : string
}.

Definition get_or_create_agent (agent_details : AgentDetails) : M (option Z) :=
  let agent_name := full_name agent_details in
  let extension := extension agent_details in
  if negb (PyStr.nonempty agent_name) || negb (PyStr.nonempty extension)
  then ret None
  else
    try_catch
      (row <- select_agent extension ;;
       match row with
       | Some agent_id => ret (Some agent_id)
       | None =>
           agent_id <- insert_agent agent_name (email agent_details) extension ;;
           ret (Some agent_id)
       end)
      (fun e => raise e).

(* {text.strip() for text in qp_texts if text} *)
Fixpoint sanitize_into (acc : list string) (qp_texts : list key) : M (list string) :=
  match qp_texts with
  | [] => ret acc
  | text :: rest =>
      if key_truthy text
      then stripped <- lift (key_strip text) ;; sanitize_into (set_add stripped acc) rest
      else sanitize_into acc rest
  end.

(* for row in cursor.fetchall(): qp_map[row.QualityPointText] = row.QualityPointID *)
Fixpoint fill_map (rows : list (string * Z)) (qp_map : gmap string Z) : gmap string Z :=
  match rows with
  | [] => qp_map
  | (text, id) :: rows' => fill_map rows' (<[text := id]> qp_map)
  end.

(* 1 if "[BONUS]" in text.upper() else 0 *)
Definition bonus_flag (text : string) : Z :=
  if PyStr.contains (PyStr.upper text) BONUS_TOKEN then 1 else 0.

(* {orig_text: qp_map.get(orig_text.strip()) for orig_text in qp_texts
    if orig_text.strip() in qp_map} *)
Fixpoint by_original (qp_map : gmap string Z) (acc : gmap string Z) (qp_texts : list key)
  : M (gmap string Z) :=
  match qp_texts with
  | [] => ret acc
  | orig_text :: rest =>
      stripped <- lift (key_strip orig_text) ;;
      match qp_map !! stripped, orig_text with
      | Some id, KStr orig => by_original qp_map (<[orig := id]> acc) rest
      | _, _ => by_original qp_map acc rest
      end
  end.

Definition get_or_create_quality_points (qp_texts : list key) : M (gmap string Z) :=
  sanitized_qp_texts <- sanitize_into [] qp_texts ;;
  match sanitized_qp_texts with
  | [] => ret ∅
  | _ =>
      try_catch
        (rows <- select_quality_points sanitized_qp_texts ;;
         let qp_map := fill_map rows ∅ in
         let new_qps :=
           filter (fun text => qp_map !! text = None) sanitized_qp_texts in
         qp_map <-
           match new_qps with
           | [] => ret qp_map
           | _ =>
               let params := map (fun text => (text, bonus_flag text)) new_qps in
               insert_quality_points params ;;
               rows <- select_quality_points sanitized_qp_texts ;;
               ret (fill_map rows qp_map)
           end ;;
         by_original qp_map ∅ qp_texts)
        (fun e => raise e)
  end.

(* --------------------------------------------------------------------- *)
(*  The two document shapes                                              *)
(* --------------------------------------------------------------------- *)

Definition py_get (d : json) (k : string) (dflt : json) : M json :=
  lift (Py.get d k dflt).

Definition py_iter (v : json) : M (list json) := lift (Py.iter v).

(* qp_map.get(item.get('quality_point', '').strip()), kept when truthy *)
Definition resolved_id (qp_map : gmap string Z) (item : json) : M (option Z) :=
  label <- py_get item "quality_point" (JStr "") ;;
  stripped <- lift (Py.strip label) ;;
  match qp_map !! stripped with
  | Some id => if id =? 0 then ret None else ret (Some id)
  | None => ret None
  end.

Definition eval_param (analysis_id : Z) (qp_map : gmap string Z) (item : json)
  : M (list (Z * Z * json * json)) :=
  qp_id <- resolved_id qp_map item ;;
  match qp_id with
  | None => ret []
  | Some id =>
      finding <- py_get item "finding" JNull ;;
      explanation <- py_get item "explanation_snippets" JNull ;;
      ret [(analysis_id, id, finding, explanation)]
  end.

Definition process_individual_json (json_data : json) (file_path : string)
  (agent_id : Z) (qp_map : gmap string Z) (ts : Z) : M unit :=
  summary <- py_get json_data "call_summary" (JObj []) ;;
  remarks <- py_get json_data "concluding_remarks" (JObj []) ;;
  name_raw <- py_get summary "tech_dispatcher_name" JNull ;;
  let audio :=
    PyStr.replace (Path.basename file_path) "_analysis.json" ".wav" in
  summary_cols <-
    for_each (fun k => py_get summary k JNull)
      ["call_duration"; "client_name"; "client_facility_company"; "ticket_number";
       "client_callback_number"; "ticket_status_type"; "call_subject_summary"]%string ;;
  remark_cols <-
    for_each (fun k => py_get remarks k JNull)
      ["summary_positive_findings"; "summary_negative_findings";
       "coaching_plan_for_growth"]%string ;;
  analysis_id <-
    insert_returning "IndividualCallAnalyses"
      (fun id => RIndividual id agent_id audio
                   (name_raw :: summary_cols ++ remark_cols) ts) ;;
  detailed <- py_get json_data "detailed_evaluation" (JArr []) ;;
  items <- py_iter detailed ;;
  rows <- for_each (eval_param analysis_id qp_map) items ;;
  let eval_params := concat rows in
  match eval_params with
  | [] => ret tt
  | _ =>
      insert_many "IndividualEvaluationItems"
        (fun '(analysis_id, qp_id, finding, explanation) =>
           REvaluationItem analysis_id qp_id finding explanation)
        eval_params
  end.

Definition coaching_focus (combined_id : Z) (focus_item : json) : M unit :=
  area_text <- py_get focus_item "area" JNull ;;
  if Py.truthy area_text then
    focus_id <-
      insert_returning "CombinedAnalysisCoachingFocus"
        (fun id => RCoachingFocus id combined_id area_text) ;;
    actions <- py_get focus_item "specific_actions" (JArr []) ;;
    if Py.truthy actions then
      l <- py_iter actions ;;
      insert_many "CombinedAnalysisCoachingActions"
        (fun '(focus_id, a) => RCoachingAction focus_id a)
        (map (fun a => (focus_id, a)) l)
    else ret tt
  else ret tt.

Definition qp_param (combined_id : Z) (qp_map : gmap string Z) (item : json)
  : M (list (Z * Z * json * json * json * json)) :=
  qp_id <- resolved_id qp_map item ;;
  match qp_id with
  | None => ret []
  | Some id =>
      fs1 <- py_get item "findings_summary" (JObj []) ;;
      positive <- py_get fs1 "positive_count" JNull ;;
      fs2 <- py_get item "findings_summary" (JObj []) ;;
      negative <- py_get fs2 "negative_count" JNull ;;
      fs3 <- py_get item "findings_summary" (JObj []) ;;
      neutral <- py_get fs3 "neutral_count" JNull ;;
      trend <- py_get item "trend_observation" JNull ;;
      ret [(combined_id, id, positive, negative, neutral, trend)]
  end.

Definition process_combined_json (json_data : json) (agent_id : Z)
  (qp_map : gmap string Z) (ts : Z) : M unit :=
  header <- py_get json_data "report_header" (JObj []) ;;
  snapshot <- py_get json_data "overall_performance_snapshot" (JObj []) ;;
  counts <- py_get snapshot "aggregate_findings_counts" (JObj []) ;;
  header_cols <-
    for_each (fun k => py_get header k JNull)
      ["analysis_period_note"; "number_of_reports_provided";
       "number_of_reports_successfully_analyzed"]%string ;;
  total <- py_get snapshot "total_calls_contributing_to_aggregates" JNull ;;
  count_cols <-
    for_each (fun k => py_get counts k JNull)
      ["positive_count"; "negative_count"; "neutral_count"]%string ;;
  combined_id <-
    insert_returning "CombinedAnalyses"
      (fun id => RCombined id agent_id (header_cols ++ total :: count_cols) ts) ;;
  qual_summary <- py_get json_data "qualitative_summary_and_coaching_plan" (JObj []) ;;
  strengths <- py_get qual_summary "overall_strengths_observed" (JArr []) ;;
  (if Py.truthy strengths then
     l <- py_iter strengths ;;
     insert_many "CombinedAnalysisStrengths"
       (fun '(combined_id, s) => RStrength combined_id s)
       (map (fun s => (combined_id, s)) l)
   else ret tt) ;;
  dev_areas <- py_get qual_summary "overall_areas_for_development" (JArr []) ;;
  (if Py.truthy dev_areas then
     l <- py_iter dev_areas ;;
     insert_many "CombinedAnalysisDevelopmentAreas"
       (fun '(combined_id, d) => RDevelopmentArea combined_id d)
       (map (fun d => (combined_id, d)) l)
   else ret tt) ;;
  focus <- py_get qual_summary "consolidated_coaching_focus" (JArr []) ;;
  focus_items <- py_iter focus ;;
  for_each (coaching_focus combined_id) focus_items ;;
  detailed <- py_get json_data "detailed_quality_point_analysis" (JArr []) ;;
  items <- py_iter detailed ;;
  rows <- for_each (qp_param combined_id qp_map) items ;;
  let qp_params := concat rows in
  match qp_params with
  | [] => ret tt
  | _ =>
      insert_many "CombinedAnalysisQualityPointDetails"
        (fun '(combined_id, qp_id, positive, negative, neutral, trend) =>
           RQualityPointDetail combined_id qp_id positive negative neutral trend)
        qp_params
  end.


(* --------------------------------------------------------------------- *)
(*  Files                                                                *)
(* --------------------------------------------------------------------- *)

Definition path_of (f : File) : string := Path.join (f_dir f) (f_name f).

Fixpoint find_file (path : string) (fs : list File) : option File :=
  match fs with
  | [] => None
  | f :: fs' => if String.eqb (path_of f) path then Some f else find_file path fs'
  end.

(* with open(file_path) as f: json.load(f) *)
Definition read_json (file_path : string) : M json :=
  w <- get_world ;;
  match find_file file_path (files w) with
  | None => raise FileNotFoundError
  | Some f =>
      match f_data f with
      | Some json_data => ret json_data
      | None => raise JSONDecodeError
      end
  end.

(* the file at src now answers to dst; a file that was at dst is replaced *)
Fixpoint move_file (src dst : string) (fs : list File) : list File :=
  match fs with
  | [] => []
  | f :: fs' =>
      if String.eqb (path_of f) src
      then {| f_dir := Path.dirname dst; f_name := Path.basename dst;
              f_data := f_data f |}
           :: filter (fun g => path_of g ≠ dst) fs'
      else if String.eqb (path_of f) dst then move_file src dst fs'
      else f :: move_file src dst fs'
  end.

(* shutil.move(src, dst) *)
Definition move (src dst : string) : M unit :=
  w <- get_world ;;
  match find_file src (files w) with
  | None => raise FileNotFoundError
  | Some _ => modify (set_files (move_file src dst (files w)))
  end.

(* r is target_folder or lies below it *)
Definition below (target_folder r : string) : bool :=
  String.eqb r target_folder
  || PyStr.startswith r (String.append target_folder "/").

(* (f.endswith('_analysis.json') or COMBINED_REPORT_FILENAME in f)
   and not f.startswith((PROCESSED_PREFIX, FAILED_PREFIX)) *)
Definition is_candidate (f : string) : bool :=
  (PyStr.endswith f "_analysis.json" || PyStr.contains f COMBINED_REPORT_FILENAME)
  && negb (PyStr.startswith f PROCESSED_PREFIX || PyStr.startswith f FAILED_PREFIX).

(* [os.path.join(r, f) for r, _, f_list in os.walk(target_folder)
    for f in f_list if <is_candidate f>] *)
Fixpoint discover (target_folder : string) (fs : list File) : list string :=
  match fs with
  | [] => []
  | f :: fs' =>
      if below target_folder (f_dir f) && is_candidate (f_name f)
      then path_of f :: discover target_folder fs'
      else discover target_folder fs'
  end.

(* document discovery as the run performs it: it reads the tree and
   leaves everything as it was *)
Definition discovery (target_folder : string) : M (list string) :=
  w <- get_world ;;
  ret (discover target_folder (files w)).

(* --------------------------------------------------------------------- *)
(*  process_folder                                                       *)
(* --------------------------------------------------------------------- *)

(* What became of one file of files_to_process. *)
Inductive Outcome : Type :=
| Skipped                               (* no extension in the path: continue *)
| Stored                                (* committed and renamed Stored-... *)
| BadData (e : exn) (renamed : bool).   (* e was caught; renamed tells whether
                                           the BadData-... rename went through *)

(* ext_map.get(extension, {...}) *)
Definition agent_details_for (ext_map : gmap string AgentDetails) (extension : string)
  : AgentDetails :=
  match ext_map !! extension with
  | Some agent_details => agent_details
  | None =>
      {| full_name := String.append "Un-rostered Agent - " extension;
         email := None;
         extension := extension |}
  end.

(* {item.get('quality_point') for item in json_data.get(k, [])
    if item.get('quality_point')}, added to acc *)
Fixpoint collect_into (acc : list key) (items : list json) : M (list key) :=
  match items with
  | [] => ret acc
  | item :: rest =>
      label <- py_get item "quality_point" JNull ;;
      if Py.truthy label
      then k <- lift (to_key label) ;; collect_into (set_add k acc) rest
      else collect_into acc rest
  end.

Definition collect_quality_points (json_data : json) : M (list key) :=
  detailed <- py_get json_data "detailed_evaluation" (JArr []) ;;
  items <- py_iter detailed ;;
  all_qps <- collect_into [] items ;;
  detailed <- py_get json_data "detailed_quality_point_analysis" (JArr []) ;;
  items <- py_iter detailed ;;
  collect_into all_qps items.

(* the statements of the loop body from conn.autocommit = False to
   conn.commit() *)
Definition import_document (json_data : json) (file_path : string)
  (agent_details : AgentDetails) (ts : Z) : M unit :=
  let base_name := Path.basename file_path in
  modify (set_autocommit false) ;;
  agent_id <- get_or_create_agent agent_details ;;
  match agent_id with
  | None => raise ValueError
  | Some agent_id =>
      if agent_id =? 0 then raise ValueError
      else
        all_qps <- collect_quality_points json_data ;;
        qp_map <- get_or_create_quality_points all_qps ;;
        (if PyStr.contains base_name COMBINED_REPORT_FILENAME
         then process_combined_json json_data agent_id qp_map ts
         else process_individual_json json_data file_path agent_id qp_map ts) ;;
        commit
  end.

Definition marked (prefix file_path : string) : string :=
  Path.join (Path.dirname file_path)
            (String.append prefix (Path.basename file_path)).

(* except Exception as e: ... *)
Definition on_failure (file_path : string) (e : exn) : M Outcome :=
  w <- get_world ;;
  (if negb (autocommit w) then rollback else ret tt) ;;
  renamed <-
    try_catch (move file_path (marked FAILED_PREFIX file_path) ;; ret true)
              (fun _ => ret false) ;;
  ret (BadData e renamed).

(* the body of: for file_path in files_to_process *)
Definition process_file (ext_map : gmap string AgentDetails) (ts : Z)
  (file_path : string) : M Outcome :=
  try_catch
    (match extract_extension_from_path file_path with
     | None => ret Skipped
     | Some extension =>
         let agent_details := agent_details_for ext_map extension in
         json_data <- read_json file_path ;;
         import_document json_data file_path agent_details ts ;;
         move file_path (marked PROCESSED_PREFIX file_path) ;;
         ret Stored
     end)
    (on_failure file_path).

(* get_db_connection: pyodbc.connect raises when the store is unreachable *)
Definition connect : M unit :=
  w <- get_world ;;
  if alive w then ret tt else raise OperationalError.

(* finally: f *)
Definition finally {A} (m : M A) (f : M unit) : M A :=
  fun w => match m w with
           | (r, w') => (r, snd (f w'))
           end.

(* process_folder.  ext_map is what parse_extlist_data returned.  The
   result is the fate of each file, in order; None when an exception
   reached the outer handler (the Python function returns nothing and
   writes these to its log). *)
Definition process_folder (target_folder : string)
  (ext_map : gmap string AgentDetails) : M (option (list (string * Outcome))) :=
  files_to_process <- discovery target_folder ;;
  match files_to_process with
  | [] => ret (Some [])
  | _ =>
      connected <- try_catch (connect ;; ret true) (fun _ => ret false) ;;
      if connected then
        finally
          (try_catch
             (ts <- now ;;
              outcomes <-
                for_each (fun file_path =>
                            o <- process_file ext_map ts file_path ;;
                            ret (file_path, o))
                         files_to_process ;;
              ret (Some outcomes))
             (fun _ => ret None))
          close
      else ret None
  end.


(* --------------------------------------------------------------------- *)
(*  Vocabulary of the specification                                      *)
(* --------------------------------------------------------------------- *)

(* "the label contains the token, matched case-insensitively": some
   substring of the label equals the token once both are upper-cased *)
Definition contains_ignoring_case (label token : string) : Prop :=
  exists pre mid post,
    label = pre +:+ mid +:+ post /\ PyStr.upper mid = PyStr.upper token.

(* a is an earlier day than b *)
Definition date_lt (a b : Date.date) : Prop :=
  Date.year a < Date.year b
  \/ (Date.year a = Date.year b
      /\ (Date.month a < Date.month b
          \/ (Date.month a = Date.month b /\ Date.day a < Date.day b))).

(* the dated-folder naming convention, as find_latest_week_folder reads
   it: a directory whose name holds "Week of " and a calendar date *)
Definition is_week_folder (root_dir : string) (item : DirEntry)
  (d : Date.date) (full_path : string) : Prop :=
  entry_is_dir item = true
  /\ folder_date (entry_name item) = Some (Some d)
  /\ full_path = Path.join root_dir (entry_name item).

(* If m starts where Pre holds, Post holds where it returns and Exc
   where it raises. *)
Definition hoare {A} (Pre : World -> Prop) (m : M A) (Post Exc : World -> Prop) : Prop :=
  forall w r w', m w = (r, w') -> Pre w ->
    match r with Ok _ => Post w' | Raise _ => Exc w' end.

(* J holds after m, however m ends, if it held before. *)
Definition preserves {A} (J : World -> Prop) (m : M A) : Prop := hoare J m J J.

(* What the importer itself writes during a run stamped ts: every
   analysis carries ts, every master row the flag computed from its
   text. *)
Definition written (ts : Z) (row : Row) : Prop :=
  match row with
  | RQualityPoint _ text flag => flag = bonus_flag text
  | RIndividual _ _ _ _ t => t = ts
  | RCombined _ _ _ t => t = ts
  | _ => True
  end.

(* the rows committed since the store held C0, and the rows of the open
   transaction, all satisfy P *)
Definition rows_inv (P : Row -> Prop) (C0 : list Row) (w : World) : Prop :=
  (exists new, committed w = C0 ++ new /\ Forall P new) /\ Forall P (pending w).

(* nothing committed since C0, inside a transaction, files as in F0 *)
Definition in_transaction (C0 : list Row) (F0 : list File) (w : World) : Prop :=
  committed w = C0 /\ autocommit w = false /\ files w = F0.

(* ProcessingDateTime of an analysis row *)
Definition processing_timestamp (row : Row) : option Z :=
  match row with
  | RIndividual _ _ _ _ t => Some t
  | RCombined _ _ _ t => Some t
  | _ => None
  end.

(* the loop of process_folder *)
Definition run_loop (ext_map : gmap string AgentDetails) (ts : Z)
  (files_to_process : list string) : M (list (string * Outcome)) :=
  for_each (fun file_path =>
              o <- process_file ext_map ts file_path ;; ret (file_path, o))
           files_to_process.

(* number of lookups of an agent by extension among the calls made *)
Definition agent_lookups (ext : string) (calls : list Stmt) : nat :=
  length (filter (fun s => s = SelectAgent ext) calls).

(* "the caller retries the lookup once": the first lookup and one more *)
Definition lookup_retried_once (ext : string) (calls : list Stmt) : Prop :=
  agent_lookups ext calls = 2%nat.

(* the next n calls on the connection meet no interference *)
Definition quiet_for (n : nat) (w : World) : Prop :=
  alive w = true /\ Forall (fun i => i = Quiet) (take n (schedule w)).

(* the world after a call that met no interference *)
Definition tick (s : Stmt) (w : World) : World :=
  set_schedule (tail (schedule w))
    (set_clock (clock w + 1) (set_trace (trace w ++ [s]) w)).

(* process_folder's fallback for an extension that is not in ext_map *)
Definition unrostered (extension : string) : AgentDetails :=
  {| full_name := "Un-rostered Agent - " +:+ extension;
     email := None;
     extension := extension |}.

(* the outcome Skipped is that of the files without an extension, and of
   no other *)
Definition skipped_iff_unlinked (po : string * Outcome) : Prop :=
  snd po = Skipped <-> extract_extension_from_path (fst po) = None.

(* the file is one discovery picks for target_folder *)
Definition selected (target_folder : string) (f : File) : bool :=
  below target_folder (f_dir f) && is_candidate (f_name f).

(* the file's name bears one of the two markers *)
Definition bears_marker (f : string) : Prop :=
  PyStr.startswith f PROCESSED_PREFIX = true
  \/ PyStr.startswith f FAILED_PREFIX = true.

(* --------------------------------------------------------------------- *)
(*  Sample batches                                                       *)
(* --------------------------------------------------------------------- *)
Module Sample.

Definition week : string := "in/Week of 2024-06-09".
Definition agent_dir : string := "in/Week of 2024-06-09/1001".

(* a connection as pyodbc.connect returns it, on an empty store *)
Definition fresh (fs : list File) (sched : list Interference) : World :=
  mkWorld [] [] [] false true 1 sched [] 100 fs.

Definition item (label finding : string) : json :=
  JObj [("quality_point", JStr label); ("finding", JStr finding);
        ("explanation_snippets", JStr "...")].

Definition individual (items : list json) : json :=
  JObj [("call_summary", JObj [("client_name", JStr "Acme")]);
        ("detailed_evaluation", JArr items)].

Definition call1 : json :=
  individual [item "Tone" "Positive"; item "[Bonus] Upsell Attempt" "Neutral"].

(* an item whose label is null: it is met after the analysis row *)
Definition call_null_label : json :=
  individual [JObj [("quality_point", JNull); ("finding", JStr "Positive")]].

(* a label with blanks around it, and a label of blanks only *)
Definition call_padded : json := individual [item " Tone " "Positive"].
Definition call_blank : json := individual [item " " "Positive"].

Definition combined : json :=
  JObj [("report_header", JObj [("analysis_period_note", JStr "week 23")]);
        ("qualitative_summary_and_coaching_plan",
          JObj [("overall_strengths_observed", JArr [JStr "clear"]);
                ("consolidated_coaching_focus",
                  JArr [JObj [("area", JStr "pace");
                              ("specific_actions", JArr [JStr "slow down"])]])]);
        ("detailed_quality_point_analysis",
          JArr [JObj [("quality_point", JStr "Tone");
                      ("findings_summary", JObj [("positive_count", JNum 2)]);
                      ("trend_observation", JStr "steady")]])].

Definition file (dir name : string) (data : json) : File :=
  {| f_dir := dir; f_name := name; f_data := Some data |}.

Definition path1 : string := "in/Week of 2024-06-09/1001/call1_analysis.json".

Definition rivera : gmap string AgentDetails :=
  {[ "1001"%string :=
       {| full_name := "J. Rivera"; email := Some "jr@example.org"%string;
          extension := "1001" |} ]}.

(* three documents, the second malformed *)
Definition three : list File :=
  [ file agent_dir "call1_analysis.json" call1;
    file agent_dir "call2_analysis.json" call_null_label;
    file agent_dir "call3_analysis.json" call1 ].

(* the scenario of the specification *)
Definition scenario : list File :=
  [ file agent_dir "call1_analysis.json" call1;
    file agent_dir "Combined_Analysis_Report.json" combined ].

(* a document that lies in the week folder itself *)
Definition stray : list File := [ file week "call1_analysis.json" call1 ].

End Sample.


(* --------------------------------------------------------------------- *)
(*  parse_extlist_data and main                                          *)
(* --------------------------------------------------------------------- *)

Definition TAB : ascii := ascii_of_nat 9.

(* str.split(sep) for a one-character separator *)
Fixpoint split_on (sep : ascii) (s : string) : list string :=
  match s with
  | EmptyString => [EmptyString]
  | String c s' =>
      if Ascii.eqb c sep then EmptyString :: split_on sep s'
      else match split_on sep s' with
           | part :: parts => String c part :: parts
           | [] => [String c EmptyString]
           end
  end.

(* the body of `for line in f`: the entry the line puts into
   members_by_ext, if any *)
Definition parse_line (line : string) : option (string * AgentDetails) :=
  let s_line := PyStr.strip line in
  if negb (PyStr.nonempty s_line) || PyStr.startswith s_line "#" then None
  else
    match split_on TAB s_line with
    | part0 :: part1 :: part2 :: _ =>
        let ext := PyStr.strip part0 in
        if PyStr.nonempty ext
        then Some (ext, {| full_name := PyStr.strip part1;
                           email := Some (PyStr.strip part2);
                           extension := ext |})
        else None
    | _ => None
    end.

Fixpoint parse_lines (members_by_ext : gmap string AgentDetails) (lines : list string)
  : gmap string AgentDetails :=
  match lines with
  | [] => members_by_ext
  | line :: rest =>
      match parse_line line with
      | Some (ext, agent_details) =>
          parse_lines (<[ext := agent_details]> members_by_ext) rest
      | None => parse_lines members_by_ext rest
      end
  end.

(* parse_extlist_data.  [content] is the lines of ExtList.data, None when
   the file does not exist or reading it raises. *)
Definition parse_extlist_data (content : option (list string))
  : gmap string AgentDetails :=
  match content with
  | None => ∅
  | Some lines => parse_lines ∅ lines
  end.

(* main.  [source_root] is the ImporterSourceRoot setting, None when the
   configuration file or the setting is missing; [listing] is
   os.listdir of that root; [extlist] the lines of ExtList.data.  The
   result is that of process_folder, None when main returns before. *)
Definition main (source_root : option string) (listing : option (list DirEntry))
  (extlist : option (list string)) : M (option (list (string * Outcome))) :=
  match source_root with
  | None => ret None
  | Some source_root =>
      match find_latest_week_folder source_root listing with
      | None => ret None
      | Some target_folder =>
          if PyStr.nonempty target_folder
          then process_folder target_folder (parse_extlist_data extlist)
          else ret None
      end
  end.

(* the entry a line gives to extension ext *)
Definition entry_for (ext : string) (line : string) : option AgentDetails :=
  match parse_line line with
  | Some (e, agent_details) => if String.eqb e ext then Some agent_details else None
  | None => None
  end.

(* every character of s is a decimal digit *)
Fixpoint all_digits (s : string) : bool :=
  match s with
  | EmptyString => true
  | String c s' => PyStr.is_digit c && all_digits s'
  end.

(* the top level of the document is a JSON object *)
Definition is_object (v : json) : bool :=
  match v with JObj _ => true | _ => false end.

(* the label is a non-empty string *)
Definition is_label (k : key) : Prop :=
  exists s, k = KStr s /\ PyStr.nonempty s = true.

(* one line of ExtList.data *)
Definition roster_line (ext name mail : string) : string :=
  ext +:+ String TAB (name +:+ String TAB mail).

(* w' is w with rows added to the open transaction, and nothing
   committed *)
Definition adds_to_transaction (rows : list Row) (w w' : World) : Prop :=
  pending w' = pending w ++ rows
  /\ committed w' = committed w
  /\ autocommit w' = false.

(* a key that qp_map holds for some label; 0 counts as no key *)
Definition resolved_key (qp_map : gmap string Z) (qp_id : Z) : Prop :=
  qp_id <> 0 /\ exists label, qp_map !! label = Some qp_id.

(* row is an evaluation item of the analysis row analysis_id *)
Definition item_of (analysis_id : Z) (qp_map : gmap string Z) (row : Row) : Prop :=
  match row with
  | REvaluationItem a q _ _ => a = analysis_id /\ resolved_key qp_map q
  | _ => False
  end.

(* row hangs off the combined analysis combined_id: directly, or as an
   action of a coaching focus that is among siblings and hangs off it *)
Definition part_of (combined_id : Z) (qp_map : gmap string Z)
  (siblings : list Row) (row : Row) : Prop :=
  match row with
  | RStrength c _ => c = combined_id
  | RDevelopmentArea c _ => c = combined_id
  | RCoachingFocus _ c _ => c = combined_id
  | RCoachingAction f _ =>
      exists area_text, In (RCoachingFocus f combined_id area_text) siblings
  | RQualityPointDetail c q _ _ _ _ => c = combined_id /\ resolved_key qp_map q
  | _ => False
  end.



(* k is the label of an item of the list json_data holds under
   items_key, and the label is truthy *)
Definition labelled (items_key : string) (json_data : json) (k : key) : Prop :=
  exists detailed items item label,
    Py.get json_data items_key (JArr []) = Ok detailed
    /\ Py.iter detailed = Ok items
    /\ In item items
    /\ Py.get item "quality_point" JNull = Ok label
    /\ Py.truthy label = true
    /\ to_key label = Ok k.


(* ===================================================================== *)
(*  Properties                                                           *)
(* ===================================================================== *)

Example strip_ex1 : PyStr.strip "  Tone  " = "Tone"%string.
Proof. reflexivity. Qed.
Example strip_ex2 : PyStr.strip "   " = ""%string.
Proof. reflexivity. Qed.
Example upper_ex : PyStr.upper "[Bonus] Upsell" = "[BONUS] UPSELL"%string.
Proof. reflexivity. Qed.
Example endswith_ex : PyStr.endswith "call1_analysis.json" "_analysis.json" = true.
Proof. reflexivity. Qed.
Example replace_ex :
  PyStr.replace "call1_analysis.json" "_analysis.json" ".wav" = "call1.wav"%string.
Proof. reflexivity. Qed.

Example basename_ex : Path.basename "a/Week of 2024-06-09/1001/call1_analysis.json" = "call1_analysis.json"%string.
Proof. reflexivity. Qed.
Example dirname_ex : Path.dirname "a/Week of 2024-06-09/1001/call1_analysis.json" = "a/Week of 2024-06-09/1001"%string.
Proof. reflexivity. Qed.
Example join_ex : Path.join "a/b" "c.json" = "a/b/c.json"%string.
Proof. reflexivity. Qed.

Example folder_date_ex1 : folder_date "Week of 2024-06-09" = Some (Some (Date.mk 2024 6 9)).
Proof. reflexivity. Qed.
Example folder_date_ex2 : folder_date "Week of 2023-02-29" = Some None.
Proof. reflexivity. Qed.
Example folder_date_ex3 : folder_date "Weekly 2023-02-28" = None.
Proof. reflexivity. Qed.
Example extract_ex1 :
  extract_extension_from_path "in/Week of 2024-06-09/1001/call1_analysis.json" = Some "1001"%string.
Proof. reflexivity. Qed.
Example extract_ex2 :
  extract_extension_from_path "in/Week of 2024-06-09/call1_analysis.json" = None.
Proof. reflexivity. Qed.
Example latest_ex :
  find_latest_week_folder "in"
    (Some [ {| entry_name := "Week of 2024-06-02"; entry_is_dir := true |};
            {| entry_name := "Week of 2024-06-09"; entry_is_dir := true |};
            {| entry_name := "Week of 2024-06-16"; entry_is_dir := false |};
            {| entry_name := "Week of 2024-13-01"; entry_is_dir := true |};
            {| entry_name := "notes"; entry_is_dir := true |} ])
  = Some "in/Week of 2024-06-09"%string.
Proof. reflexivity. Qed.

(* --------------------------------------------------------------------- *)
(*  Facts about the string methods                                       *)
(* --------------------------------------------------------------------- *)
Section StringFacts.

Lemma startswith_app (p t : string) : PyStr.startswith (p +:+ t) p = true.
Proof.
  induction p as [|a p IH].
  - destruct t; reflexivity.
  - simpl. rewrite Ascii.eqb_refl. exact IH.
Qed.

Lemma startswith_inv (s p : string) :
  PyStr.startswith s p = true -> exists t, s = p +:+ t.
Proof.
  revert s. induction p as [|a p IH]; intros s H.
  - exists s. reflexivity.
  - destruct s as [|b s]; simpl in H; [discriminate|].
    destruct (Ascii.eqb a b) eqn:E; [|discriminate].
    apply Ascii.eqb_eq in E. subst b.
    destruct (IH _ H) as [t ->]. exists t. reflexivity.
Qed.

Lemma contains_nil (sub : string) :
  PyStr.contains "" sub = if PyStr.startswith "" sub then true else false.
Proof. reflexivity. Qed.

Lemma contains_cons (c : ascii) (s sub : string) :
  PyStr.contains (String c s) sub
  = if PyStr.startswith (String c s) sub then true else PyStr.contains s sub.
Proof. reflexivity. Qed.

Lemma contains_of_startswith (s sub : string) :
  PyStr.startswith s sub = true -> PyStr.contains s sub = true.
Proof.
  intros H. destruct s; [rewrite contains_nil|rewrite contains_cons];
    rewrite H; reflexivity.
Qed.

Lemma contains_intro (pre sub post : string) :
  PyStr.contains (pre +:+ sub +:+ post) sub = true.
Proof.
  induction pre as [|c pre IH].
  - apply contains_of_startswith. exact (startswith_app sub post).
  - change (String c pre +:+ sub +:+ post) with (String c (pre +:+ sub +:+ post)).
    rewrite contains_cons, IH.
    destruct (PyStr.startswith _ sub); reflexivity.
Qed.

Lemma contains_inv (s sub : string) :
  PyStr.contains s sub = true -> exists pre post, s = pre +:+ sub +:+ post.
Proof.
  induction s as [|c s IH].
  - rewrite contains_nil.
    destruct (PyStr.startswith "" sub) eqn:E; [|discriminate].
    intros _. destruct (startswith_inv _ _ E) as [t Ht].
    exists ""%string, t. exact Ht.
  - rewrite contains_cons.
    destruct (PyStr.startswith (String c s) sub) eqn:E.
    + intros _. destruct (startswith_inv _ _ E) as [t Ht].
      exists ""%string, t. exact Ht.
    + intros H. destruct (IH H) as (pre & post & ->).
      exists (String c pre), post. reflexivity.
Qed.

Lemma upper_app (a b : string) :
  PyStr.upper (a +:+ b) = PyStr.upper a +:+ PyStr.upper b.
Proof. induction a as [|c a IH]; simpl; [reflexivity|]. rewrite IH. reflexivity. Qed.

Lemma upper_split (s a b : string) :
  PyStr.upper s = a +:+ b ->
  exists s1 s2, s = s1 +:+ s2 /\ PyStr.upper s1 = a /\ PyStr.upper s2 = b.
Proof.
  revert s. induction a as [|c a IH]; intros s H.
  - exists ""%string, s. repeat split. exact H.
  - destruct s as [|d s]; simpl in H; [discriminate|].
    injection H as Hc Hs.
    destruct (IH _ Hs) as (s1 & s2 & -> & H1 & H2).
    exists (String d s1), s2. repeat split; simpl; congruence.
Qed.

Lemma endswith_nil (suf : string) :
  PyStr.endswith "" suf = if String.eqb "" suf then true else false.
Proof. reflexivity. Qed.

Lemma endswith_cons (c : ascii) (s suf : string) :
  PyStr.endswith (String c s) suf
  = if String.eqb (String c s) suf then true else PyStr.endswith s suf.
Proof. reflexivity. Qed.

Lemma endswith_inv (s suf : string) :
  PyStr.endswith s suf = true -> exists pre, s = pre +:+ suf.
Proof.
  induction s as [|c s IH].
  - rewrite endswith_nil. destruct (String.eqb "" suf) eqn:E; [|discriminate].
    apply String.eqb_eq in E. subst suf. exists ""%string. reflexivity.
  - rewrite endswith_cons. destruct (String.eqb (String c s) suf) eqn:E.
    + apply String.eqb_eq in E. subst suf. exists ""%string. reflexivity.
    + intros H. destruct (IH H) as [pre ->]. exists (String c pre). reflexivity.
Qed.

End StringFacts.

Lemma bonus_flag_spec (text : string) :
  (bonus_flag text = 1 <-> contains_ignoring_case text BONUS_TOKEN)
  /\ (bonus_flag text = 0 \/ bonus_flag text = 1).
Proof.
  unfold bonus_flag, contains_ignoring_case.
  destruct (PyStr.contains (PyStr.upper text) BONUS_TOKEN) eqn:E.
  - split; [|right; reflexivity]. split; [intros _|reflexivity].
    destruct (contains_inv _ _ E) as (pre & post & H).
    destruct (upper_split _ _ _ H) as (s1 & s23 & -> & H1 & H23).
    destruct (upper_split _ _ _ H23) as (s2 & s3 & -> & H2 & H3).
    exists s1, s2, s3. split; [reflexivity|]. exact H2.
  - split; [|left; reflexivity]. split; [discriminate|].
    intros (pre & mid & post & -> & Hm). exfalso.
    rewrite !upper_app, Hm in E.
    change (PyStr.upper BONUS_TOKEN) with BONUS_TOKEN in E.
    rewrite contains_intro in E. discriminate.
Qed.

(* --------------------------------------------------------------------- *)
(*  The order on dates and the descending stable sort                    *)
(* --------------------------------------------------------------------- *)
Section DateOrder.

Lemma ltb_iff (a b : Date.date) : Date.ltb a b = true <-> date_lt a b.
Proof.
  unfold Date.ltb, date_lt.
  rewrite !orb_true_iff, !andb_true_iff, !orb_true_iff, !andb_true_iff,
    !Z.ltb_lt, !Z.eqb_eq.
  reflexivity.
Qed.

Lemma leb_iff (a b : Date.date) : Date.leb a b = true <-> ~ date_lt b a.
Proof.
  unfold Date.leb. rewrite negb_true_iff, <- ltb_iff.
  destruct (Date.ltb b a); split; intros; congruence.
Qed.

Lemma leb_refl (a : Date.date) : Date.leb a a = true.
Proof. apply leb_iff. unfold date_lt. lia. Qed.

Lemma leb_trans (a b c : Date.date) :
  Date.leb a b = true -> Date.leb b c = true -> Date.leb a c = true.
Proof. rewrite !leb_iff. unfold date_lt. lia. Qed.

Lemma leb_false_lt (a b : Date.date) : Date.leb a b = false -> Date.ltb b a = true.
Proof. unfold Date.leb. destruct (Date.ltb b a); [reflexivity|discriminate]. Qed.

Lemma ltb_leb (a b : Date.date) : Date.ltb a b = true -> Date.leb a b = true.
Proof. rewrite ltb_iff, leb_iff. unfold date_lt. lia. Qed.

Lemma insert_desc_not_nil x l : insert_desc x l <> [].
Proof. destruct l as [|y l]; simpl; [|destruct (Date.leb _ _)]; discriminate. Qed.

Lemma sorted_desc_nil l : sorted_desc l = [] -> l = [].
Proof.
  destruct l as [|x l]; [reflexivity|]. simpl. intros H.
  exfalso. exact (insert_desc_not_nil _ _ H).
Qed.

(* The head of the sorted list is an entry of the input, no entry has a
   later date, and the entries listed before it are strictly older. *)
Lemma sorted_desc_head l x t :
  sorted_desc l = x :: t ->
  exists l1 l2,
    l = l1 ++ x :: l2
    /\ (forall y, In y l1 -> Date.ltb (fst y) (fst x) = true)
    /\ (forall y, In y l -> Date.leb (fst y) (fst x) = true).
Proof.
  revert x t. induction l as [|a l IH]; intros x t H; [discriminate|].
  simpl in H. destruct (sorted_desc l) as [|y t'] eqn:E.
  - apply sorted_desc_nil in E. subst l. simpl in H. injection H as <- _.
    exists [], []. split; [reflexivity|]. split; [intros ? []|].
    intros y [<-|[]]. apply leb_refl.
  - destruct (IH _ _ eq_refl) as (l1 & l2 & -> & Hlt & Hle).
    simpl in H. destruct (Date.leb (fst y) (fst a)) eqn:Hya.
    + injection H as <- _. exists [], (l1 ++ y :: l2).
      split; [reflexivity|]. split; [intros ? []|].
      intros z [<-|Hz]; [apply leb_refl|].
      eapply leb_trans; [apply Hle, Hz|exact Hya].
    + injection H as <- _. apply leb_false_lt in Hya.
      exists (a :: l1), l2. split; [reflexivity|]. split.
      * intros z [<-|Hz]; [exact Hya|apply Hlt, Hz].
      * intros z [<-|Hz]; [apply ltb_leb, Hya|apply Hle, Hz].
Qed.

End DateOrder.

Lemma scan_week_folders_spec root_dir items d p :
  In (d, p) (scan_week_folders root_dir items)
  <-> exists item, In item items /\ is_week_folder root_dir item d p.
Proof.
  unfold is_week_folder. induction items as [|item items IH]; simpl.
  - split; [intros []|intros (? & [] & _)].
  - rewrite in_app_iff, IH. split.
    + intros [H|(it & Hin & H)].
      * exists item. split; [left; reflexivity|].
        destruct (entry_is_dir item); [|destruct H].
        destruct (folder_date (entry_name item)) as [[d0|]|]; try destruct H.
        -- injection H as <- <-. repeat split.
        -- destruct H.
      * exists it. split; [right; exact Hin|exact H].
    + intros (it & [<-|Hin] & Hd & Hf & ->).
      * left. rewrite Hd, Hf. left. reflexivity.
      * right. exists it. repeat split; assumption.
Qed.

(** C9.  find_latest_week_folder returns, among the subdirectories of
    the source root whose name follows the dated-folder convention, one
    whose embedded date is the most recent (no such subdirectory has a
    later date, which makes it the first in descending date order), and
    it returns no directory when no subdirectory follows the convention
    or the root cannot be listed. *)
Theorem find_latest_week_folder_most_recent (root_dir : string) (items : list DirEntry) :
  match find_latest_week_folder root_dir (Some items) with
  | Some latest =>
      exists item d,
        In item items /\ is_week_folder root_dir item d latest
        /\ forall item' d' p',
             In item' items -> is_week_folder root_dir item' d' p' ->
             Date.leb d' d = true
  | None =>
      forall item d p, In item items -> ~ is_week_folder root_dir item d p
  end
  /\ find_latest_week_folder root_dir None = None.
Proof.
  split; [|reflexivity].
  unfold find_latest_week_folder.
  destruct (scan_week_folders root_dir items) as [|c cs] eqn:E.
  - intros item d p Hin Hw.
    assert (In (d, p) (scan_week_folders root_dir items)) as H
      by (apply scan_week_folders_spec; eauto).
    rewrite E in H. destruct H.
  - destruct (sorted_desc (c :: cs)) as [|[d p] t] eqn:Es.
    + apply sorted_desc_nil in Es. discriminate.
    + destruct (sorted_desc_head _ _ _ Es) as (l1 & l2 & Hl & _ & Hle).
      assert (In (d, p) (scan_week_folders root_dir items)) as Hin.
      { rewrite E, Hl. apply in_app_iff. right. left. reflexivity. }
      apply scan_week_folders_spec in Hin. destruct Hin as (item & Hin & Hw).
      exists item, d. split; [exact Hin|]. split; [exact Hw|].
      intros item' d' p' Hin' Hw'.
      assert (In (d', p') (c :: cs)) as H.
      { rewrite <- E. apply scan_week_folders_spec. eauto. }
      exact (Hle _ H).
Qed.

(* --------------------------------------------------------------------- *)
(*  Reasoning about code in M                                            *)
(* --------------------------------------------------------------------- *)

Lemma hoare_ret {A : Type} (Pre Post Exc : World -> Prop) (a : A) :
  (forall w, Pre w -> Post w) -> hoare Pre (ret a) Post Exc.
Proof. intros H w r w' E Hw. injection E as <- <-. auto. Qed.

Lemma hoare_raise {A : Type} (Pre Post Exc : World -> Prop) (e : exn) :
  (forall w, Pre w -> Exc w) -> hoare Pre (@raise A e) Post Exc.
Proof. intros H w r w' E Hw. injection E as <- <-. auto. Qed.

Lemma hoare_lift {A : Type} (Pre : World -> Prop) (x : Res A) : hoare Pre (lift x) Pre Pre.
Proof. intros w r w' E Hw. injection E as <- <-. destruct x; exact Hw. Qed.

Lemma hoare_bind {A B : Type} (Pre Mid Post Exc : World -> Prop) (m : M A) (k : A -> M B) :
  hoare Pre m Mid Exc -> (forall a, hoare Mid (k a) Post Exc) ->
  hoare Pre (bind m k) Post Exc.
Proof.
  intros Hm Hk w r w' E Hw. unfold bind in E.
  destruct (m w) as [[a|e] w1] eqn:E1.
  - exact (Hk a _ _ _ E (Hm _ _ _ E1 Hw)).
  - injection E as <- <-. exact (Hm _ _ _ E1 Hw).
Qed.

Lemma hoare_try {A : Type} (Pre Post Exc Exc1 : World -> Prop) (m : M A) (h : exn -> M A) :
  hoare Pre m Post Exc1 -> (forall e, hoare Exc1 (h e) Post Exc) ->
  hoare Pre (try_catch m h) Post Exc.
Proof.
  intros Hm Hh w r w' E Hw. unfold try_catch in E.
  destruct (m w) as [[a|e] w1] eqn:E1.
  - injection E as <- <-. exact (Hm _ _ _ E1 Hw).
  - exact (Hh e _ _ _ E (Hm _ _ _ E1 Hw)).
Qed.

Lemma hoare_weaken {A : Type} (Pre Post Exc Post' Exc' : World -> Prop) (m : M A) :
  hoare Pre m Post Exc ->
  (forall w, Post w -> Post' w) -> (forall w, Exc w -> Exc' w) ->
  hoare Pre m Post' Exc'.
Proof.
  intros Hm HP HE w r w' E Hw. specialize (Hm _ _ _ E Hw).
  destruct r; auto.
Qed.

Lemma preserves_ret {A : Type} (J : World -> Prop) (a : A) : preserves J (ret a).
Proof. apply hoare_ret. auto. Qed.

Lemma preserves_raise {A : Type} (J : World -> Prop) (e : exn) : preserves J (@raise A e).
Proof. apply hoare_raise. auto. Qed.

Lemma preserves_lift {A : Type} (J : World -> Prop) (x : Res A) : preserves J (lift x).
Proof. apply hoare_lift. Qed.

Lemma preserves_bind {A B : Type} (J : World -> Prop) (m : M A) (k : A -> M B) :
  preserves J m -> (forall a, preserves J (k a)) -> preserves J (bind m k).
Proof. apply hoare_bind. Qed.

Lemma preserves_try {A : Type} (J : World -> Prop) (m : M A) (h : exn -> M A) :
  preserves J m -> (forall e, preserves J (h e)) -> preserves J (try_catch m h).
Proof. apply hoare_try. Qed.

(* code that ends in a call taking J to Post, everything before it
   keeping J *)
Lemma guards_bind {A B : Type} (J Post : World -> Prop) (m : M A) (k : A -> M B) :
  preserves J m -> (forall a, hoare J (k a) Post J) -> hoare J (bind m k) Post J.
Proof. apply hoare_bind. Qed.

Lemma preserves_for_each {A B : Type} (J : World -> Prop) (f : A -> M B) (l : list A) :
  (forall x, preserves J (f x)) -> preserves J (for_each f l).
Proof.
  intros Hf. induction l as [|x l IH]; simpl.
  - apply hoare_ret. auto.
  - apply hoare_bind with (Mid := J); [apply Hf|]. intros y.
    apply hoare_bind with (Mid := J); [exact IH|]. intros ys.
    apply hoare_ret. auto.
Qed.



Lemma preserves_get_world J : preserves J get_world.
Proof. intros w r w' E Hw. injection E as <- <-. exact Hw. Qed.

Lemma preserves_modify J (f : World -> World) :
  (forall w, J w -> J (f w)) -> preserves J (modify f).
Proof. intros H w r w' E Hw. injection E as <- <-. auto. Qed.

Lemma preserves_finally {A} J (m : M A) (f : M unit) :
  preserves J m -> preserves J f -> preserves J (finally m f).
Proof.
  intros Hm Hf w r w' E Hw. unfold finally in E.
  destruct (m w) as [r1 w1] eqn:E1. injection E as <- <-.
  specialize (Hm _ _ _ E1 Hw).
  destruct (f w1) as [r2 w2] eqn:E2. specialize (Hf _ _ _ E2).
  simpl. destruct r1, r2; auto.
Qed.

Create HintDb pres.
#[local] Hint Resolve preserves_get_world : pres.

(* Peel the monadic structure off a goal about preserves or about code
   that keeps J up to its last call. *)
Ltac pres_step :=
  match goal with
  | |- preserves _ (ret _) => apply preserves_ret
  | |- preserves _ (raise _) => apply preserves_raise
  | |- preserves _ (lift _) => apply preserves_lift
  | |- preserves _ (bind _ _) => apply preserves_bind; [|intros ?]
  | |- preserves _ (try_catch _ _) => apply preserves_try; [|intros ?]
  | |- preserves _ (for_each _ _) => apply preserves_for_each; intros ?
  | |- hoare ?J (raise _) _ ?J => apply hoare_raise; auto
  | |- hoare ?J (bind _ _) _ ?J => apply guards_bind; [|intros ?]
  | |- hoare _ (match ?x with _ => _ end) _ _ => destruct x
  | |- preserves _ (match ?x with _ => _ end) => destruct x
  | |- preserves _ _ => solve [eauto with pres]
  end.
Ltac pres := repeat pres_step.

Lemma preserves_for_each_in {A B : Type} (J : World -> Prop) (f : A -> M B) (l : list A) :
  Forall (fun x => preserves J (f x)) l -> preserves J (for_each f l).
Proof.
  induction 1 as [|x l Hx _ IH]; simpl.
  - apply preserves_ret.
  - apply preserves_bind; [exact Hx|]. intros y.
    apply preserves_bind; [exact IH|]. intros ys. apply preserves_ret.
Qed.

(* --------------------------------------------------------------------- *)
(*  What the import steps keep                                           *)
(*                                                                       *)
(*  J is kept by a call on the connection, by the issue of a key and by  *)
(*  storing rows that satisfy P; P holds of every row the importer       *)
(*  builds.  Then every step of the import up to the commit keeps J.     *)
(* --------------------------------------------------------------------- *)
Section Stable.

Variables (J : World -> Prop) (P : Row -> Prop) (ts : Z).
Hypothesis HP : forall row, written ts row -> P row.
Hypothesis J_round_trip : forall s, preserves J (round_trip s).
Hypothesis J_fresh : preserves J fresh_id.
Hypothesis J_store :
  forall rows, Forall P rows -> preserves J (modify (store_rows rows)).

#[local] Hint Resolve J_round_trip J_fresh : pres.

Lemma J_store_one row : written ts row -> preserves J (modify (store_rows [row])).
Proof. intros H. apply J_store. constructor; [apply HP, H|constructor]. Qed.

Lemma J_store_map {T} (mk_row : T -> Row) (params : list T) :
  (forall t, written ts (mk_row t)) ->
  preserves J (modify (store_rows (map mk_row params))).
Proof.
  intros H. apply J_store. apply List.Forall_forall. intros row Hin.
  apply List.in_map_iff in Hin. destruct Hin as (t & <- & _). apply HP, H.
Qed.

Lemma keeps_select_agent ext : preserves J (select_agent ext).
Proof. unfold select_agent. pres. Qed.

Lemma keeps_insert_agent n e x : preserves J (insert_agent n e x).
Proof. unfold insert_agent. pres. all: apply J_store_one; exact I. Qed.

Lemma keeps_select_quality_points texts : preserves J (select_quality_points texts).
Proof. unfold select_quality_points. pres. Qed.

Lemma keeps_insert_quality_point param :
  snd param = bonus_flag (fst param) -> preserves J (insert_quality_point param).
Proof. intros H. unfold insert_quality_point. pres. Qed.

Lemma keeps_insert_quality_points params :
  Forall (fun p => snd p = bonus_flag (fst p)) params ->
  preserves J (insert_quality_points params).
Proof.
  intros H. unfold insert_quality_points.
  apply preserves_bind; [apply J_round_trip|]. intros _.
  apply preserves_bind; [apply preserves_get_world|]. intros w.
  destruct (forallb _ params); [|apply preserves_raise].
  apply preserves_bind; [|intros; apply preserves_ret].
  apply preserves_for_each_in.
  eapply List.Forall_impl; [|exact H]. intros p. apply keeps_insert_quality_point.
Qed.

Lemma keeps_insert_returning table mk_row :
  (forall id, written ts (mk_row id)) -> preserves J (insert_returning table mk_row).
Proof. intros H. unfold insert_returning. pres. all: apply J_store_one, H. Qed.

Lemma keeps_insert_many {T} table (mk_row : T -> Row) params :
  (forall t, written ts (mk_row t)) -> preserves J (insert_many table mk_row params).
Proof. intros H. unfold insert_many. pres. all: apply J_store_map, H. Qed.

#[local] Hint Resolve keeps_select_agent keeps_insert_agent
  keeps_select_quality_points : pres.

Lemma keeps_get_or_create_agent d : preserves J (get_or_create_agent d).
Proof. unfold get_or_create_agent. pres. Qed.

Lemma keeps_sanitize_into acc l : preserves J (sanitize_into acc l).
Proof. revert acc. induction l as [|k l IH]; intros acc; simpl; pres; apply IH. Qed.

Lemma keeps_by_original m acc l : preserves J (by_original m acc l).
Proof. revert acc. induction l as [|k l IH]; intros acc; simpl; pres; apply IH. Qed.

#[local] Hint Resolve keeps_sanitize_into keeps_by_original : pres.

Lemma keeps_get_or_create_quality_points l :
  preserves J (get_or_create_quality_points l).
Proof.
  unfold get_or_create_quality_points. pres.
  apply keeps_insert_quality_points.
  apply List.Forall_forall. intros p Hin.
  apply List.in_map_iff in Hin. destruct Hin as (t & <- & _). reflexivity.
Qed.

Lemma keeps_py_get d k dflt : preserves J (py_get d k dflt).
Proof. unfold py_get. pres. Qed.

Lemma keeps_py_iter v : preserves J (py_iter v).
Proof. unfold py_iter. pres. Qed.

#[local] Hint Resolve keeps_py_get keeps_py_iter : pres.

Lemma keeps_resolved_id m item : preserves J (resolved_id m item).
Proof. unfold resolved_id. pres. Qed.

#[local] Hint Resolve keeps_resolved_id : pres.

Lemma keeps_eval_param a m item : preserves J (eval_param a m item).
Proof. unfold eval_param. pres. Qed.

Lemma keeps_qp_param c m item : preserves J (qp_param c m item).
Proof. unfold qp_param. pres. Qed.

Lemma keeps_coaching_focus c item : preserves J (coaching_focus c item).
Proof.
  unfold coaching_focus. pres.
  - apply keeps_insert_returning. intros id. exact I.
  - apply keeps_insert_many. intros [? ?]. exact I.
Qed.

#[local] Hint Resolve keeps_eval_param keeps_qp_param keeps_coaching_focus : pres.

Lemma keeps_process_individual_json json_data file_path agent_id m :
  preserves J (process_individual_json json_data file_path agent_id m ts).
Proof.
  unfold process_individual_json. pres.
  - apply keeps_insert_returning. intros id. reflexivity.
  - apply keeps_insert_many. intros [[[? ?] ?] ?]. exact I.
Qed.

Lemma keeps_process_combined_json json_data agent_id m :
  preserves J (process_combined_json json_data agent_id m ts).
Proof.
  unfold process_combined_json. pres.
  - apply keeps_insert_returning. intros id. reflexivity.
  - apply keeps_insert_many. intros [? ?]. exact I.
  - apply keeps_insert_many. intros [? ?]. exact I.
  - apply keeps_insert_many. intros [[[[[? ?] ?] ?] ?] ?]. exact I.
Qed.

Lemma keeps_collect_into acc l : preserves J (collect_into acc l).
Proof. revert acc. induction l as [|k l IH]; intros acc; simpl; pres; apply IH. Qed.

#[local] Hint Resolve keeps_collect_into : pres.

Lemma keeps_collect_quality_points json_data :
  preserves J (collect_quality_points json_data).
Proof. unfold collect_quality_points. pres. Qed.

#[local] Hint Resolve keeps_get_or_create_agent keeps_get_or_create_quality_points
  keeps_process_individual_json keeps_process_combined_json
  keeps_collect_quality_points : pres.

(* import_document: entered where Pre holds, it keeps J up to the commit *)
Variables (Pre Post : World -> Prop).
Hypothesis J_enter : hoare Pre (modify (set_autocommit false)) J J.
Hypothesis J_commit : hoare J commit Post J.

Lemma import_document_hoare json_data file_path agent_details :
  hoare Pre (import_document json_data file_path agent_details ts) Post J.
Proof.
  unfold import_document.
  eapply hoare_bind; [exact J_enter|]. intros _.
  pres. exact J_commit.
Qed.

End Stable.

(* --------------------------------------------------------------------- *)
(*  The two invariants                                                   *)
(* --------------------------------------------------------------------- *)
Section RowsInv.

Variables (P : Row -> Prop) (C0 : list Row).

Lemma rows_inv_interfere i w r w' :
  interfere i w = (r, w') -> rows_inv P C0 w -> rows_inv P C0 w'.
Proof.
  unfold rows_inv. intros E [Hc Hp].
  destruct i; simpl in E;
    repeat match type of E with
           | context [match ?x with _ => _ end] => destruct x
           end;
    injection E as <- <-; simpl; auto.
Qed.

Lemma rows_inv_round_trip s : preserves (rows_inv P C0) (round_trip s).
Proof.
  intros w r w' E Hw. unfold round_trip in E. simpl in E.
  destruct (alive w).
  - destruct (schedule w) as [|i rest].
    + injection E as <- <-. exact Hw.
    + eapply rows_inv_interfere in E; [destruct r; exact E|exact Hw].
  - injection E as <- <-. exact Hw.
Qed.

Lemma rows_inv_fresh : preserves (rows_inv P C0) fresh_id.
Proof. intros w r w' E Hw. injection E as <- <-. exact Hw. Qed.

Lemma rows_inv_store rows :
  Forall P rows -> preserves (rows_inv P C0) (modify (store_rows rows)).
Proof.
  intros Hr. apply preserves_modify. intros w [(new & Hc & Hn) Hp].
  unfold store_rows, rows_inv. destruct (autocommit w); simpl.
  - split; [|exact Hp]. exists (new ++ rows).
    rewrite Hc, <- List.app_assoc. split; [reflexivity|].
    apply List.Forall_app. split; assumption.
  - split; [exists new; auto|]. apply List.Forall_app. split; assumption.
Qed.

Lemma rows_inv_commit : preserves (rows_inv P C0) commit.
Proof.
  unfold commit. apply preserves_bind; [apply rows_inv_round_trip|]. intros _.
  apply preserves_modify. intros w [(new & Hc & Hn) Hp].
  unfold rows_inv. simpl. split; [|constructor].
  exists (new ++ pending w). rewrite Hc, <- List.app_assoc.
  split; [reflexivity|]. apply List.Forall_app. split; assumption.
Qed.

Lemma rows_inv_clear : forall w, rows_inv P C0 w -> rows_inv P C0 (set_pending [] w).
Proof. intros w [Hc _]. split; [exact Hc|constructor]. Qed.

Lemma rows_inv_rollback : preserves (rows_inv P C0) rollback.
Proof.
  unfold rollback. apply preserves_bind; [apply rows_inv_round_trip|]. intros _.
  apply preserves_modify. apply rows_inv_clear.
Qed.

Lemma rows_inv_close : preserves (rows_inv P C0) close.
Proof.
  unfold close. apply preserves_modify. intros w Hw.
  apply rows_inv_clear in Hw. exact Hw.
Qed.

Lemma rows_inv_set_autocommit b :
  preserves (rows_inv P C0) (modify (set_autocommit b)).
Proof. apply preserves_modify. intros w Hw. exact Hw. Qed.

Lemma rows_inv_read_json path : preserves (rows_inv P C0) (read_json path).
Proof. unfold read_json. pres. Qed.

Lemma rows_inv_move src dst : preserves (rows_inv P C0) (move src dst).
Proof. unfold move. pres. apply preserves_modify. intros w0 Hw. exact Hw. Qed.

End RowsInv.

Section InTransaction.

Variables (C0 : list Row) (F0 : list File).

Lemma in_transaction_round_trip s : preserves (in_transaction C0 F0) (round_trip s).
Proof.
  intros w r w' E (Hc & Ha & Hf). unfold round_trip in E. simpl in E.
  assert (in_transaction C0 F0 w') as H; [|destruct r; exact H].
  unfold in_transaction.
  destruct (alive w).
  - destruct (schedule w) as [|i rest].
    + injection E as <- <-. auto.
    + destruct i; simpl in E;
        repeat match type of E with
               | context [match ?x with _ => _ end] => destruct x
               end;
        injection E as <- <-; simpl; auto.
  - injection E as <- <-. auto.
Qed.

Lemma in_transaction_fresh : preserves (in_transaction C0 F0) fresh_id.
Proof. intros w r w' E Hw. injection E as <- <-. exact Hw. Qed.

Lemma in_transaction_store rows :
  Forall (fun _ => True) rows ->
  preserves (in_transaction C0 F0) (modify (store_rows rows)).
Proof.
  intros _. apply preserves_modify. intros w (Hc & Ha & Hf).
  unfold store_rows, in_transaction. rewrite Ha. simpl. auto.
Qed.

Lemma in_transaction_enter :
  hoare (fun w => committed w = C0 /\ files w = F0)
        (modify (set_autocommit false))
        (in_transaction C0 F0) (in_transaction C0 F0).
Proof.
  intros w r w' E [Hc Hf]. injection E as <- <-.
  unfold in_transaction. simpl. auto.
Qed.

Lemma in_transaction_commit :
  hoare (in_transaction C0 F0) commit
        (fun w => files w = F0 /\ autocommit w = false) (in_transaction C0 F0).
Proof.
  unfold commit.
  eapply hoare_bind with (Mid := in_transaction C0 F0).
  - apply in_transaction_round_trip.
  - intros _ w r w' E (Hc & Ha & Hf). injection E as <- <-. simpl. auto.
Qed.

(* Step 1 to 5 of one document: when they raise, nothing was committed. *)
Lemma import_document_atomic json_data file_path agent_details ts :
  hoare (fun w => committed w = C0 /\ files w = F0)
        (import_document json_data file_path agent_details ts)
        (fun w => files w = F0 /\ autocommit w = false)
        (in_transaction C0 F0).
Proof.
  apply import_document_hoare with (P := fun _ => True).
  - auto.
  - apply in_transaction_round_trip.
  - apply in_transaction_fresh.
  - apply in_transaction_store.
  - apply in_transaction_enter.
  - apply in_transaction_commit.
Qed.

End InTransaction.

(* --------------------------------------------------------------------- *)
(*  What single calls change                                             *)
(* --------------------------------------------------------------------- *)

Lemma round_trip_frame s w r w' :
  round_trip s w = (r, w') ->
  committed w' = committed w /\ autocommit w' = autocommit w
  /\ files w' = files w /\ trace w' = trace w ++ [s]
  /\ (pending w' = pending w \/ pending w' = []).
Proof.
  unfold round_trip. simpl. intros E.
  destruct (alive w).
  - destruct (schedule w) as [|i rest].
    + injection E as <- <-. simpl. auto 10.
    + destruct i; simpl in E;
        repeat match type of E with
               | context [match ?x with _ => _ end] => destruct x
               end;
        injection E as <- <-; simpl; auto 10.
  - injection E as <- <-. simpl. auto 10.
Qed.

Lemma rollback_spec w r w' :
  rollback w = (r, w') ->
  committed w' = committed w /\ files w' = files w
  /\ trace w' = trace w ++ [Rollback]
  /\ (forall u, r = Ok u -> pending w' = []).
Proof.
  unfold rollback, bind. intros E.
  destruct (round_trip Rollback w) as [[[]|e] w1] eqn:E1;
    apply round_trip_frame in E1; destruct E1 as (Hc & _ & Hf & Ht & _);
    injection E as <- <-; simpl; repeat split; auto; discriminate.
Qed.

Lemma read_json_spec path w r w' :
  read_json path w = (r, w') ->
  w' = w /\ (forall j, r = Ok j -> find_file path (files w) <> None).
Proof.
  unfold read_json, bind, get_world. intros E.
  destruct (find_file path (files w)) as [f|].
  - destruct (f_data f); injection E as <- <-; split; auto; discriminate.
  - injection E as <- <-. split; [reflexivity|discriminate].
Qed.

Lemma move_spec src dst w r w' :
  move src dst w = (r, w') ->
  committed w' = committed w /\ pending w' = pending w
  /\ trace w' = trace w
  /\ (find_file src (files w) <> None -> r = Ok tt)
  /\ (find_file src (files w) = None -> r = Raise FileNotFoundError /\ w' = w).
Proof.
  unfold move, bind, get_world. intros E.
  destruct (find_file src (files w)) as [f|];
    injection E as <- <-; simpl; repeat split; auto; congruence.
Qed.

(* the handler of the loop body: nothing is committed by it, and when it
   returns the open transaction is gone *)
Lemma on_failure_spec file_path e w r w' :
  on_failure file_path e w = (r, w') ->
  committed w' = committed w
  /\ (forall o, r = Ok o ->
        (exists b, o = BadData e b)
        /\ (autocommit w = false \/ pending w = [] -> pending w' = []))
  /\ (forall e', r = Raise e' ->
        autocommit w = false /\ trace w' = trace w ++ [Rollback]).
Proof.
  unfold on_failure.
  unfold bind at 1. unfold get_world at 1. unfold bind at 1.
  intros E.
  assert (forall w1,
    bind (try_catch (bind (move file_path (marked FAILED_PREFIX file_path))
                          (fun _ => ret true))
                    (fun _ => ret false))
         (fun renamed => ret (BadData e renamed)) w1 = (r, w') ->
    committed w' = committed w1 /\ pending w' = pending w1
    /\ exists b, r = Ok (BadData e b)) as Hmove.
  { intros w1. unfold bind, try_catch, ret. intros E1.
    destruct (move file_path (marked FAILED_PREFIX file_path) w1)
      as [[[]|e1] w2] eqn:Em;
      apply move_spec in Em; destruct Em as (Hc & Hp & _);
      injection E1 as <- <-; eauto. }
  destruct (autocommit w) eqn:Ha; simpl in E.
  - apply Hmove in E. destruct E as (Hc & Hp & b & ->).
    split; [exact Hc|]. split; [|discriminate].
    intros o [= <-]. split; [eauto|].
    intros [?|H0]; [discriminate|congruence].
  - destruct (rollback w) as [[[]|e1] w1] eqn:Er;
      apply rollback_spec in Er; destruct Er as (Hc1 & _ & Ht & Hp1).
    + apply Hmove in E. destruct E as (Hc & Hp & b & ->).
      split; [congruence|]. split; [|discriminate].
      intros o [= <-]. split; [eauto|].
      intros _. rewrite Hp. eapply Hp1. reflexivity.
    + injection E as <- <-. split; [exact Hc1|].
      split; [discriminate|]. intros e' _. auto.
Qed.



(** C2.  The document's only evaluation item carries the label " Tone ".
    The resolver, given the document's labels, returns a key for that
    very label, and yet no evaluation item is stored: the item is looked
    up under the trimmed label "Tone", which is not a key of the mapping
    the resolver returned. *)
Theorem padded_label_item_dropped :
  let w := Sample.fresh
             [Sample.file Sample.agent_dir "call1_analysis.json"
                          Sample.call_padded] [] in
  (exists m w', get_or_create_quality_points [KStr " Tone "] w = (Ok m, w')
                /\ m !! " Tone "%string = Some 1
                /\ m !! "Tone"%string = None)
  /\ fst (process_file ∅ 100 Sample.path1 w) = Ok Stored
  /\ committed (snd (process_file ∅ 100 Sample.path1 w))
     = [RAgent 1 "Un-rostered Agent - 1001" None "1001";
        RQualityPoint 2 "Tone" 0;
        RIndividual 3 1 "call1.wav"
          [JNull; JNull; JStr "Acme"; JNull; JNull; JNull; JNull; JNull;
           JNull; JNull; JNull] 100].
Proof.
  intros w. split.
  - destruct (get_or_create_quality_points [KStr " Tone "] w) as [r w'] eqn:E.
    assert (match r with
            | Ok m => m !! " Tone "%string = Some 1 /\ m !! "Tone"%string = None
            | Raise _ => False
            end) as H
      by (replace r with (fst (get_or_create_quality_points [KStr " Tone "] w))
            by (rewrite E; reflexivity); vm_compute; auto).
    destruct r as [m|e]; [|destruct H]. exists m, w'. tauto.
  - split; vm_compute; reflexivity.
Qed.

(** C5.  A label of blanks only is not discarded by the resolver: its
    trimmed form, the empty text, is looked up, inserted as a master row
    and given a key, which the returned mapping records for the label. *)
Theorem whitespace_label_creates_master_row :
  let w := Sample.fresh [] [] in
  exists m w', get_or_create_quality_points [KStr " "] w = (Ok m, w')
               /\ m !! " "%string = Some 1
               /\ pending w' = [RQualityPoint 1 "" 0]
               /\ trace w' = [SelectQualityPoints [""%string];
                              InsertQualityPoints [""%string];
                              SelectQualityPoints [""%string]].
Proof.
  intros w.
  destruct (get_or_create_quality_points [KStr " "] w) as [r w'] eqn:E.
  assert (match r with
          | Ok m => m !! " "%string = Some 1
          | Raise _ => False
          end /\ pending w' = [RQualityPoint 1 "" 0]
          /\ trace w' = [SelectQualityPoints [""%string];
                         InsertQualityPoints [""%string];
                         SelectQualityPoints [""%string]]) as (H & Hp & Ht).
  { replace r with (fst (get_or_create_quality_points [KStr " "] w))
      by (rewrite E; reflexivity).
    replace w' with (snd (get_or_create_quality_points [KStr " "] w))
      by (rewrite E; reflexivity).
    vm_compute. auto. }
  destruct r as [m|e]; [|destruct H]. exists m, w'. auto.
Qed.

(* --------------------------------------------------------------------- *)
(*  A whole run keeps the row invariant                                  *)
(* --------------------------------------------------------------------- *)
Section RunInvariant.

Variables (P : Row -> Prop) (C0 : list Row) (ts : Z).
Hypothesis HP : forall row, written ts row -> P row.

Lemma rows_inv_import_document json_data file_path agent_details :
  preserves (rows_inv P C0) (import_document json_data file_path agent_details ts).
Proof.
  apply import_document_hoare with (P := P).
  - exact HP.
  - apply rows_inv_round_trip.
  - apply rows_inv_fresh.
  - apply rows_inv_store.
  - apply rows_inv_set_autocommit.
  - apply rows_inv_commit.
Qed.

Lemma rows_inv_on_failure file_path e :
  preserves (rows_inv P C0) (on_failure file_path e).
Proof.
  unfold on_failure. pres;
    first [apply rows_inv_rollback | apply rows_inv_move].
Qed.

Lemma rows_inv_process_file ext_map file_path :
  preserves (rows_inv P C0) (process_file ext_map ts file_path).
Proof.
  unfold process_file. pres;
    first [apply rows_inv_read_json | apply rows_inv_import_document
          | apply rows_inv_move | apply rows_inv_on_failure].
Qed.

End RunInvariant.

Lemma bind_now {A} (k : Z -> M A) (w : World) : bind now k w = k (clock w) w.
Proof. reflexivity. Qed.

Lemma bind_discovery {A} target (k : list string -> M A) (w : World) :
  bind (discovery target) k w = k (discover target (files w)) w.
Proof. reflexivity. Qed.

Lemma bind_connect {A} (k : bool -> M A) (w : World) :
  bind (try_catch (bind connect (fun _ => ret true)) (fun _ => ret false)) k w
  = k (alive w) w.
Proof.
  unfold connect, try_catch, bind, get_world. destruct (alive w); reflexivity.
Qed.

(* process_folder, its steps before the loop carried out *)
Lemma process_folder_unfold target ext_map w :
  process_folder target ext_map w
  = match discover target (files w) with
    | [] => (Ok (Some []), w)
    | l =>
        if alive w then
          let rw := run_loop ext_map (clock w) l w in
          (Ok match fst rw with Ok outcomes => Some outcomes | Raise _ => None end,
           set_alive false (set_pending [] (snd rw)))
        else (Ok None, w)
    end.
Proof.
  unfold process_folder. rewrite bind_discovery.
  destruct (discover target (files w)) as [|p l]; [reflexivity|].
  rewrite bind_connect. destruct (alive w); [|reflexivity].
  unfold finally, try_catch. rewrite bind_now.
  unfold bind at 1. fold (run_loop ext_map (clock w) (p :: l)).
  destruct (run_loop ext_map (clock w) (p :: l) w) as [[outs|e] w1]; reflexivity.
Qed.

Lemma rows_inv_process_folder P target ext_map w r w' :
  (forall row, written (clock w) row -> P row) ->
  process_folder target ext_map w = (r, w') ->
  rows_inv P (committed w) w -> rows_inv P (committed w) w'.
Proof.
  intros HP E Hw. rewrite process_folder_unfold in E.
  destruct (discover target (files w)) as [|p l].
  { injection E as <- <-. exact Hw. }
  destruct (alive w).
  2:{ injection E as <- <-. exact Hw. }
  simpl in E. injection E as <- <-.
  apply rows_inv_clear.
  destruct (run_loop ext_map (clock w) (p :: l) w) as [r1 w1] eqn:E1.
  assert (preserves (rows_inv P (committed w))
            (run_loop ext_map (clock w) (p :: l))) as Hl.
  { unfold run_loop. apply preserves_for_each. intros x.
    apply preserves_bind; [|intros; apply preserves_ret].
    apply rows_inv_process_file. exact HP. }
  specialize (Hl _ _ _ E1 Hw). simpl. destruct r1; exact Hl.
Qed.

(** C7.  Every analysis row, individual or combined, that a run of
    process_folder commits carries the same processing timestamp: the
    clock as it stood when the run began, read once before the first
    document, although the clock advances with every call to the store. *)
Theorem shared_processing_timestamp
  (target_folder : string) (ext_map : gmap string AgentDetails)
  (w : World) (r : Res (option (list (string * Outcome)))) (w' : World) :
  pending w = [] ->
  process_folder target_folder ext_map w = (r, w') ->
  exists new,
    committed w' = committed w ++ new
    /\ forall row t, In row new -> processing_timestamp row = Some t -> t = clock w.
Proof.
  intros Hp E.
  destruct (rows_inv_process_folder (written (clock w)) _ _ _ _ _
              (fun _ H => H) E) as [(new & Hc & Hn) _].
  { split; [exists []; rewrite List.app_nil_r; auto|rewrite Hp; constructor]. }
  exists new. split; [exact Hc|].
  intros row t Hin Ht. rewrite List.Forall_forall in Hn.
  specialize (Hn _ Hin). destruct row; simpl in Ht, Hn; congruence.
Qed.

(* The scenario of the specification: one individual and one combined
   document of agent 1001; both analyses are stamped 100, the clock of
   the start, while the clock has moved on to 116. *)
Lemma shared_processing_timestamp_witness :
  let w := Sample.fresh Sample.scenario [] in
  let rw := process_folder Sample.week Sample.rivera w in
  clock w = 100 /\ clock (snd rw) = 116
  /\ exists new,
       committed (snd rw) = committed w ++ new
       /\ (exists a b c d e f g,
             In (RIndividual a b c d 100) new /\ In (RCombined e b f g) new)
       /\ forall row t, In row new -> processing_timestamp row = Some t -> t = 100.
Proof.
  intros w rw. split; [reflexivity|]. split; [vm_compute; reflexivity|].
  destruct (shared_processing_timestamp Sample.week Sample.rivera w (fst rw) (snd rw))
    as (new & Hc & Hn).
  - reflexivity.
  - apply surjective_pairing.
  - exists new. split; [exact Hc|]. split; [|exact Hn].
    assert (new = committed (snd rw)) as -> by (rewrite Hc; reflexivity).
    vm_compute. do 7 eexists.
    split; [do 3 right|do 6 right]; left; reflexivity.
Defined.

(** C8.  Every QualityPointsMaster row that the batched resolver creates
    has its bonus flag set (1) exactly when its text contains the token
    [BONUS] in any mix of upper and lower case, and unset (0) otherwise. *)
Theorem bonus_flag_iff_marker
  (qp_texts : list key) (w : World) (r : Res (gmap string Z)) (w' : World) :
  get_or_create_quality_points qp_texts w = (r, w') ->
  forall id text flag,
    In (RQualityPoint id text flag) (committed w' ++ pending w') ->
    In (RQualityPoint id text flag) (committed w ++ pending w)
    \/ ((flag = 1 <-> contains_ignoring_case text BONUS_TOKEN)
        /\ (flag = 0 \/ flag = 1)).
Proof.
  intros E id text flag Hin.
  set (P := fun row => In row (committed w ++ pending w) \/ written 0 row).
  assert (rows_inv P (committed w) w') as [(new & Hc & Hn) Hp].
  { assert (rows_inv P (committed w) w) as Hw.
    { split; [exists []; rewrite List.app_nil_r; auto|].
      apply List.Forall_forall. intros row H. left.
      apply List.in_or_app. right. exact H. }
    pose proof (keeps_get_or_create_quality_points
                  (rows_inv P (committed w)) P 0
                  (fun row H => or_intror H)
                  (rows_inv_round_trip P (committed w))
                  (rows_inv_fresh P (committed w))
                  (rows_inv_store P (committed w))
                  qp_texts w r w' E Hw) as H.
    destruct r; exact H. }
  assert (P (RQualityPoint id text flag)) as [H|H].
  { rewrite Hc in Hin. rewrite List.Forall_forall in Hn, Hp.
    apply List.in_app_or in Hin. destruct Hin as [Hin|Hin]; [|auto].
    apply List.in_app_or in Hin. destruct Hin as [Hin|Hin]; [|auto].
    left. apply List.in_or_app. left. exact Hin. }
  - left. exact H.
  - right. simpl in H. subst flag. apply bonus_flag_spec.
Qed.

Lemma bonus_flag_iff_marker_witness :
  let w := Sample.fresh [] [] in
  let rw := get_or_create_quality_points
              [KStr "[Bonus] Upsell Attempt"; KStr "Tone"] w in
  pending (snd rw)
  = [RQualityPoint 1 "[Bonus] Upsell Attempt" 1; RQualityPoint 2 "Tone" 0]
  /\ contains_ignoring_case "[Bonus] Upsell Attempt" BONUS_TOKEN
  /\ ~ contains_ignoring_case "Tone" BONUS_TOKEN.
Proof.
  intros w rw.
  assert (pending (snd rw)
          = [RQualityPoint 1 "[Bonus] Upsell Attempt" 1; RQualityPoint 2 "Tone" 0])
    as Hp by (vm_compute; reflexivity).
  assert (committed (snd rw) = []) as Hc by (vm_compute; reflexivity).
  pose proof (bonus_flag_iff_marker _ w (fst rw) (snd rw)
                (surjective_pairing _)) as H.
  rewrite Hc, Hp in H. split; [reflexivity|]. split.
  - destruct (H 1 "[Bonus] Upsell Attempt"%string 1) as [[]|[Hi _]].
    + left. reflexivity.
    + apply Hi. reflexivity.
  - destruct (H 2 "Tone"%string 0) as [[]|[Hi _]].
    + right. left. reflexivity.
    + intros Hk. apply Hi in Hk. discriminate.
Defined.

(* --------------------------------------------------------------------- *)
(*  Paths of marked files                                                *)
(* --------------------------------------------------------------------- *)

Lemma has_sep_basename p : Path.has_sep (Path.basename p) = false.
Proof.
  induction p as [|c p IH]; [reflexivity|].
  change (Path.basename (String c p))
    with (if Path.has_sep (String c p) then Path.basename p else String c p).
  destruct (Path.has_sep (String c p)) eqn:E; [exact IH|exact E].
Qed.

Lemma basename_no_sep n : Path.has_sep n = false -> Path.basename n = n.
Proof.
  intros H. destruct n as [|c n]; [reflexivity|].
  change (Path.basename (String c n))
    with (if Path.has_sep (String c n) then Path.basename n else String c n).
  rewrite H. reflexivity.
Qed.

Lemma has_sep_app_sep s n : Path.has_sep (s +:+ String Path.sep n) = true.
Proof.
  induction s as [|c s IH]; simpl; [reflexivity|].
  rewrite IH. apply orb_true_r.
Qed.

Lemma basename_app_sep s n :
  Path.has_sep n = false -> Path.basename (s +:+ String Path.sep n) = n.
Proof.
  intros H. induction s as [|c s IH].
  - change (Path.basename ("" +:+ String Path.sep n)) with (Path.basename n).
    apply basename_no_sep, H.
  - change (String c s +:+ String Path.sep n)
      with (String c (s +:+ String Path.sep n)).
    change (Path.basename (String c (s +:+ String Path.sep n)))
      with (if Path.has_sep (String c (s +:+ String Path.sep n))
            then Path.basename (s +:+ String Path.sep n)
            else String c (s +:+ String Path.sep n)).
    replace (Path.has_sep (String c (s +:+ String Path.sep n))) with true.
    + exact IH.
    + simpl. rewrite has_sep_app_sep. symmetry. apply orb_true_r.
Qed.

Lemma append_assoc (a b c : string) : (a +:+ b) +:+ c = a +:+ (b +:+ c).
Proof.
  induction a as [|x a IH]; [reflexivity|].
  change (String x ((a +:+ b) +:+ c) = String x (a +:+ (b +:+ c))).
  f_equal. exact IH.
Qed.

Lemma basename_join d n :
  Path.has_sep n = false -> Path.basename (Path.join d n) = n.
Proof.
  intros H. unfold Path.join. destruct d as [|c d]; [apply basename_no_sep, H|].
  destruct (Path.ends_with_sep (String c d)) eqn:E.
  - apply endswith_inv in E. destruct E as [pre ->].
    rewrite append_assoc. apply basename_app_sep, H.
  - apply basename_app_sep, H.
Qed.

Lemma basename_marked prefix file_path :
  Path.has_sep prefix = false ->
  Path.basename (marked prefix file_path) = prefix +:+ Path.basename file_path.
Proof.
  intros H. unfold marked. apply basename_join.
  pose proof (has_sep_basename file_path) as Hb.
  induction prefix as [|c prefix IH]; [exact Hb|].
  simpl in *. apply orb_false_iff in H. destruct H as [-> H].
  simpl. apply IH, H.
Qed.

Lemma is_candidate_marked (f : string) : bears_marker f -> is_candidate f = false.
Proof.
  unfold bears_marker, is_candidate.
  intros [-> | ->]; rewrite ?orb_true_r; simpl; apply andb_false_r.
Qed.

Lemma discover_spec target fs p :
  In p (discover target fs)
  <-> exists f, In f fs /\ selected target f = true /\ p = path_of f.
Proof.
  unfold selected. induction fs as [|f fs IH]; simpl.
  - split; [intros []|intros (? & [] & _)].
  - destruct (below target (f_dir f) && is_candidate (f_name f)) eqn:E; simpl;
      rewrite IH; split.
    + intros [<-|(g & Hg & Hs & ->)]; eauto 6.
    + intros (g & [<-|Hg] & Hs & ->); eauto 6.
    + intros (g & Hg & Hs & ->). eauto 6.
    + intros (g & [<-|Hg] & Hs & ->); [congruence|eauto 6].
Qed.

Lemma move_file_in src dst fs g :
  NoDup (map path_of fs) ->
  In g (move_file src dst fs) ->
  (In g fs /\ path_of g <> src)
  \/ (f_dir g = Path.dirname dst /\ f_name g = Path.basename dst).
Proof.
  induction fs as [|f fs IH]; simpl; [intros _ []|].
  intros Hnd Hin. apply NoDup_cons in Hnd. destruct Hnd as [Hf Hnd].
  destruct (String.eqb (path_of f) src) eqn:Es.
  - apply String.eqb_eq in Es. destruct Hin as [<-|Hin].
    + right. auto.
    + left. apply list_elem_of_In, list_elem_of_filter in Hin.
      destruct Hin as [_ Hin]. apply list_elem_of_In in Hin.
      split; [right; exact Hin|]. intros Hg. apply Hf.
      rewrite Es, <- Hg. apply list_elem_of_In, List.in_map, Hin.
  - apply String.eqb_neq in Es.
    destruct (String.eqb (path_of f) dst).
    + destruct (IH Hnd Hin) as [[H1 H2]|H]; auto.
    + destruct Hin as [<-|Hin]; [auto|].
      destruct (IH Hnd Hin) as [[H1 H2]|H]; auto.
Qed.

(** C6.  Discovery only reads the tree: run twice with nothing in
    between, it returns the same candidates and leaves the world as it
    found it.  Its candidates are the files it selects, and a file whose
    name begins with Stored- or BadData- is never selected, whatever the
    directory and whenever the run.  The rename that marks a document
    gives it such a name, so that once a document is marked its path is
    no longer among the candidates. *)
Theorem discovery_idempotent_and_excludes_marked (target_folder : string) (w : World) :
  (exists l,
     discovery target_folder w = (Ok l, w)
     /\ discovery target_folder (snd (discovery target_folder w)) = (Ok l, w)
     /\ forall p, In p l <->
          exists f, In f (files w) /\ selected target_folder f = true
                    /\ p = path_of f)
  /\ (forall f, bears_marker (f_name f) -> selected target_folder f = false)
  /\ (forall file_path,
        bears_marker (Path.basename (marked PROCESSED_PREFIX file_path))
        /\ bears_marker (Path.basename (marked FAILED_PREFIX file_path)))
  /\ (forall prefix file_path,
        prefix = PROCESSED_PREFIX \/ prefix = FAILED_PREFIX ->
        NoDup (map path_of (files w)) ->
        ~ In file_path
             (discover target_folder
                (move_file file_path (marked prefix file_path) (files w)))).
Proof.
  assert (forall file_path,
            bears_marker (Path.basename (marked PROCESSED_PREFIX file_path))
            /\ bears_marker (Path.basename (marked FAILED_PREFIX file_path)))
    as Hmarked.
  { intros file_path. split.
    - left. rewrite basename_marked by reflexivity. apply startswith_app.
    - right. rewrite basename_marked by reflexivity. apply startswith_app. }
  assert (forall f, bears_marker (f_name f) -> selected target_folder f = false)
    as Hsel.
  { intros f H. unfold selected. rewrite (is_candidate_marked _ H).
    apply andb_false_r. }
  split; [|split; [exact Hsel|split; [exact Hmarked|]]].
  - exists (discover target_folder (files w)).
    split; [reflexivity|]. split; [reflexivity|]. apply discover_spec.
  - intros prefix file_path Hprefix Hnd Hin.
    apply discover_spec in Hin. destruct Hin as (g & Hg & Hs & Hp).
    apply move_file_in in Hg; [|exact Hnd].
    destruct Hg as [[_ Hne]|[_ Hname]]; [congruence|].
    rewrite Hsel in Hs; [discriminate|]. rewrite Hname.
    destruct Hprefix as [-> | ->]; apply Hmarked.
Qed.

(* --------------------------------------------------------------------- *)
(*  Batch isolation                                                      *)
(* --------------------------------------------------------------------- *)

Lemma process_file_outcome ext_map ts file_path w r w' :
  process_file ext_map ts file_path w = (r, w') ->
  (exists o, r = Ok o /\ skipped_iff_unlinked (file_path, o))
  \/ (exists e, r = Raise e /\ last (trace w') = Some Rollback).
Proof.
  unfold process_file, try_catch, skipped_iff_unlinked. simpl.
  destruct (extract_extension_from_path file_path) as [ext|] eqn:Ex.
  2:{ intros E. injection E as <- <-. left. exists Skipped. tauto. }
  match goal with
  | |- (let (r, w') := ?body w in _) = _ -> _ =>
      assert (forall o w1, body w = (Ok o, w1) -> o = Stored) as Hb;
      [|destruct (body w) as [[o|e] w1] eqn:Eb]
  end.
  { intros o w1. unfold bind, ret. intros E.
    repeat match type of E with
           | (let (_, _) := ?m in _) = _ => destruct m as [[?|?] ?]
           end; congruence. }
  - intros E. injection E as <- <-. left. exists o.
    split; [reflexivity|]. rewrite (Hb _ _ eq_refl). split; discriminate.
  - intros E. apply on_failure_spec in E. destruct E as (_ & Hok & Hraise).
    destruct r as [o|e'].
    + left. exists o. split; [reflexivity|].
      destruct (Hok o eq_refl) as [[b ->] _]. split; discriminate.
    + right. exists e'. split; [reflexivity|].
      destruct (Hraise e' eq_refl) as [_ ->]. apply last_snoc.
Qed.

Lemma run_loop_outcome ext_map ts l w r w' :
  run_loop ext_map ts l w = (r, w') ->
  (exists outcomes,
     r = Ok outcomes /\ map fst outcomes = l
     /\ Forall skipped_iff_unlinked outcomes)
  \/ (exists e, r = Raise e /\ last (trace w') = Some Rollback).
Proof.
  unfold run_loop. revert w r w'.
  induction l as [|p l IH]; intros w r w' E; simpl in E.
  - injection E as <- <-. left. exists []. auto.
  - unfold bind at 1 in E. unfold bind at 1 in E.
    destruct (process_file ext_map ts p w) as [[o|e] w1] eqn:E1;
      apply process_file_outcome in E1;
      destruct E1 as [(o' & Ho & Hs)|(e' & He & Hl)]; try discriminate.
    + injection Ho as <-. simpl in E. unfold bind at 1 in E.
      destruct (for_each _ l w1) as [[outs|e] w2] eqn:E2;
        apply IH in E2;
        destruct E2 as [(outs' & Ho & Hm & Hf)|(e' & He & Hl)];
        try discriminate; injection E as <- <-.
      * injection Ho as <-. left. exists ((p, o) :: outs).
        split; [reflexivity|]. split; [simpl; congruence|].
        constructor; assumption.
      * right. eauto.
    + injection E as <- <-. right. eauto.
Qed.




(* --------------------------------------------------------------------- *)
(*  Agent resolution                                                     *)
(* --------------------------------------------------------------------- *)

Lemma find_agent_app ext a b :
  find_agent ext (a ++ b)
  = match find_agent ext a with
    | Some id => Some id
    | None => find_agent ext b
    end.
Proof.
  induction a as [|row a IH]; [reflexivity|].
  destruct row; simpl; try exact IH.
  destruct (String.eqb ext0 ext); [reflexivity|exact IH].
Qed.

Lemma find_agent_in ext rows id :
  find_agent ext rows = Some id ->
  exists name mail, In (RAgent id name mail ext) rows.
Proof.
  induction rows as [|row rows IH]; [discriminate|].
  destruct row; simpl; try (intros H; destruct (IH H) as (n & m & Hin); eauto).
  destruct (String.eqb ext0 ext) eqn:E.
  - apply String.eqb_eq in E. subst ext0. intros [= <-]. eauto.
  - intros H. destruct (IH H) as (n & m & Hin). eauto.
Qed.

Lemma round_trip_quiet s n w :
  quiet_for (S n) w ->
  round_trip s w = (Ok tt, tick s w) /\ quiet_for n (tick s w).
Proof.
  unfold quiet_for, round_trip, tick. intros [Ha Hq]. simpl.
  destruct (schedule w) as [|i rest] eqn:Es.
  - split; [|split; [exact Ha|destruct n; constructor]].
    destruct w; simpl in *. subst. reflexivity.
  - simpl in Hq. apply List.Forall_cons_iff in Hq. destruct Hq as [-> Hq].
    rewrite Ha. simpl. split; [reflexivity|]. split; [reflexivity|exact Hq].
Qed.

Lemma round_trip_other_agent s name mail ext rest w :
  alive w = true ->
  schedule w = OtherRunAgent name mail ext :: rest ->
  find_agent ext (view w) = None ->
  exists w',
    round_trip s w = (Ok tt, w')
    /\ trace w' = trace w ++ [s]
    /\ committed w' = committed w /\ pending w' = pending w
    /\ autocommit w' = autocommit w
    /\ find_agent ext (view w') = Some (next_id w).
Proof.
  intros Ha Hs Hf. unfold round_trip. simpl. rewrite Ha, Hs. simpl.
  change (view (set_schedule rest
                  (set_clock (clock w + 1) (set_trace (trace w ++ [s]) w))))
    with (view w).
  rewrite Hf. eexists. split; [reflexivity|]. simpl.
  repeat split. unfold view in *. simpl.
  rewrite !find_agent_app in *.
  destruct (find_agent ext (committed w)); [discriminate|].
  destruct (find_agent ext (foreign w)); [discriminate|].
  simpl. rewrite String.eqb_refl. reflexivity.
Qed.

Lemma bind_ok {A B} (m : M A) (k : A -> M B) w a w1 :
  m w = (Ok a, w1) -> bind m k w = k a w1.
Proof. intros E. unfold bind. rewrite E. reflexivity. Qed.

Lemma bind_raise {A B} (m : M A) (k : A -> M B) w e w1 :
  m w = (Raise e, w1) -> bind m k w = (Raise e, w1).
Proof. intros E. unfold bind. rewrite E. reflexivity. Qed.

Lemma try_ok {A} (m : M A) (h : exn -> M A) w a w1 :
  m w = (Ok a, w1) -> try_catch m h w = (Ok a, w1).
Proof. intros E. unfold try_catch. rewrite E. reflexivity. Qed.

Lemma try_raise {A} (m : M A) (h : exn -> M A) w e w1 :
  m w = (Raise e, w1) -> try_catch m h w = h e w1.
Proof. intros E. unfold try_catch. rewrite E. reflexivity. Qed.

Lemma select_agent_quiet ext n w :
  quiet_for (S n) w ->
  select_agent ext w = (Ok (find_agent ext (view w)), tick (SelectAgent ext) w).
Proof.
  intros Hq. unfold select_agent.
  erewrite bind_ok by (apply (round_trip_quiet _ n), Hq). reflexivity.
Qed.


(* the insert loses the race against a concurrent run *)
Lemma insert_agent_race name mail ext name' mail' rest w :
  alive w = true ->
  schedule w = OtherRunAgent name' mail' ext :: rest ->
  find_agent ext (view w) = None ->
  exists w',
    insert_agent name mail ext w = (Raise IntegrityError, w')
    /\ trace w' = trace w ++ [InsertAgent ext]
    /\ committed w' = committed w.
Proof.
  intros Ha Hs Hf.
  destruct (round_trip_other_agent (InsertAgent ext) name' mail' ext rest w
              Ha Hs Hf) as (w' & E & Ht & Hc & _ & _ & Hf').
  exists w'. split; [|auto]. unfold insert_agent.
  erewrite bind_ok by exact E. unfold bind at 1, get_world. rewrite Hf'.
  reflexivity.
Qed.

Lemma agent_lookups_race ext calls :
  agent_lookups ext (calls ++ [SelectAgent ext; InsertAgent ext])
  = S (agent_lookups ext calls).
Proof.
  unfold agent_lookups. rewrite filter_app, length_app.
  rewrite filter_cons_True by reflexivity.
  rewrite filter_cons_False by discriminate.
  rewrite filter_nil. simpl. lia.
Qed.

(** C3 (as the code has it).  When a concurrent run commits an Agent row
    for the same extension between this run's lookup and its insert, the
    insert violates the uniqueness constraint: get_or_create_agent raises
    the store's IntegrityError again after logging it, and its caller
    makes no second lookup: the error leaves import_document after
    exactly one SelectAgent and one InsertAgent call, with nothing
    committed. *)
Theorem agent_race_propagates_without_retry
  (json_data : json) (file_path : string) (d : AgentDetails) (ts : Z)
  (w : World) (name : string) (mail : option string) (rest : list Interference) :
  PyStr.nonempty (full_name d) = true ->
  PyStr.nonempty (extension d) = true ->
  alive w = true ->
  find_agent (extension d) (view w) = None ->
  schedule w = Quiet :: OtherRunAgent name mail (extension d) :: rest ->
  exists w',
    import_document json_data file_path d ts w = (Raise IntegrityError, w')
    /\ trace w' = trace w ++ [SelectAgent (extension d); InsertAgent (extension d)]
    /\ agent_lookups (extension d) (trace w')
       = S (agent_lookups (extension d) (trace w))
    /\ committed w' = committed w.
Proof.
  intros Hn He Ha Hf Hs.
  set (w0 := set_autocommit false w).
  assert (quiet_for 1 w0) as Hq.
  { split; [exact Ha|]. simpl. rewrite Hs. simpl. repeat constructor. }
  set (w1 := tick (SelectAgent (extension d)) w0).
  destruct (insert_agent_race (full_name d) (email d) (extension d) name mail
              rest w1) as (w2 & E2 & Ht & Hc).
  { exact Ha. }
  { simpl. rewrite Hs. reflexivity. }
  { exact Hf. }
  assert (get_or_create_agent d w0 = (Raise IntegrityError, w2)) as Eg.
  { unfold get_or_create_agent. rewrite Hn, He. simpl.
    erewrite try_raise; [reflexivity|].
    erewrite bind_ok by (apply (select_agent_quiet _ 0), Hq).
    change (find_agent (extension d) (view w0))
      with (find_agent (extension d) (view w)).
    rewrite Hf. fold w1. erewrite bind_raise by exact E2. reflexivity. }
  exists w2. split.
  - unfold import_document.
    erewrite bind_ok by reflexivity. fold w0.
    erewrite bind_raise by exact Eg. reflexivity.
  - assert (trace w2
            = trace w ++ [SelectAgent (extension d); InsertAgent (extension d)])
      as Ht2.
    { rewrite Ht. simpl. rewrite <- List.app_assoc. reflexivity. }
    split; [exact Ht2|]. split; [|exact Hc].
    rewrite Ht2. apply agent_lookups_race.
Qed.

Lemma agent_race_propagates_without_retry_witness :
  let w := Sample.fresh
             [Sample.file Sample.agent_dir "call1_analysis.json" Sample.call1]
             [Quiet; OtherRunAgent "J. Rivera" None "1001"] in
  exists w',
    import_document Sample.call1 Sample.path1 (unrostered "1001") 100 w
    = (Raise IntegrityError, w')
    /\ trace w' = trace w ++ [SelectAgent "1001"; InsertAgent "1001"]
    /\ agent_lookups "1001" (trace w') = S (agent_lookups "1001" (trace w))
    /\ committed w' = committed w.
Proof.
  intros w.
  apply (agent_race_propagates_without_retry Sample.call1 Sample.path1
           (unrostered "1001") 100 w "J. Rivera" None []);
    reflexivity.
Defined.

(* The same race seen from the loop: the document is marked BadData
   after a single lookup; the lookup was not made a second time. *)
Lemma agent_race_not_retried :
  let w := Sample.fresh
             [Sample.file Sample.agent_dir "call1_analysis.json" Sample.call1]
             [Quiet; OtherRunAgent "J. Rivera" None "1001"] in
  let rw := process_file ∅ 100 Sample.path1 w in
  fst rw = Ok (BadData IntegrityError true)
  /\ trace (snd rw) = [SelectAgent "1001"; InsertAgent "1001"; Rollback]
  /\ ~ lookup_retried_once "1001" (trace (snd rw)).
Proof.
  intros w rw. split; [vm_compute; reflexivity|].
  assert (trace (snd rw) = [SelectAgent "1001"; InsertAgent "1001"; Rollback])
    as Ht by (vm_compute; reflexivity).
  split; [exact Ht|]. rewrite Ht. unfold lookup_retried_once. vm_compute.
  discriminate.
Qed.



(* --------------------------------------------------------------------- *)
(*  The mapping the batched resolver returns                             *)
(* --------------------------------------------------------------------- *)

Lemma by_original_spec qp_map l acc w r w' :
  by_original qp_map acc l w = (r, w') ->
  w' = w
  /\ forall m, r = Ok m ->
       forall s,
         m !! s
         = if decide (KStr s ∈ l)
           then match qp_map !! PyStr.strip s with
                | Some id => Some id
                | None => acc !! s
                end
           else acc !! s.
Proof.
  revert acc r. induction l as [|k l IH]; intros acc r E.
  - injection E as <- <-. split; [reflexivity|]. intros m [= <-] s.
    rewrite decide_False by (apply not_elem_of_nil). reflexivity.
  - simpl in E. unfold bind at 1, lift in E.
    destruct k as [|n|o]; simpl in E;
      try (injection E as <- <-; split; [reflexivity|discriminate]).
    assert (forall acc',
              (forall s, s <> o -> acc' !! s = acc !! s) ->
              acc' !! o = match qp_map !! PyStr.strip o with
                          | Some id => Some id
                          | None => acc !! o
                          end ->
              by_original qp_map acc' l w = (r, w') ->
              w' = w
              /\ forall m, r = Ok m ->
                   forall s,
                     m !! s
                     = if decide (KStr s ∈ KStr o :: l)
                       then match qp_map !! PyStr.strip s with
                            | Some id => Some id
                            | None => acc !! s
                            end
                       else acc !! s) as Hstep.
    { intros acc' Hne Heq E'. destruct (IH _ _ E') as [-> Hm].
      split; [reflexivity|]. intros m Hr s. rewrite (Hm m Hr s).
      destruct (decide (s = o)) as [->|Hso].
      - rewrite (decide_True (P := KStr o ∈ KStr o :: l)) by (left).
        rewrite Heq. destruct (decide (KStr o ∈ l)); [|reflexivity].
        destruct (qp_map !! PyStr.strip o); reflexivity.
      - rewrite (Hne s Hso).
        destruct (decide (KStr s ∈ l)) as [Hin|Hin].
        + rewrite decide_True by (right; exact Hin). reflexivity.
        + rewrite decide_False; [reflexivity|].
          intros H. apply elem_of_cons in H. destruct H as [[= ?]|H]; auto. }
    destruct (qp_map !! PyStr.strip o) as [id|] eqn:Eq.
    + apply (Hstep (<[o := id]> acc)); [| |exact E].
      * intros s Hs. apply lookup_insert_ne. congruence.
      * apply lookup_insert_eq.
    + apply (Hstep acc); auto.
Qed.

Lemma resolver_result l w m w' :
  get_or_create_quality_points l w = (Ok m, w') ->
  m = ∅ \/ exists qp_map w1, by_original qp_map ∅ l w1 = (Ok m, w').
Proof.
  intros E. unfold get_or_create_quality_points in E. unfold bind at 1 in E.
  destruct (sanitize_into [] l w) as [[san|e] w0]; [|discriminate].
  destruct san as [|t san]; [injection E as <- <-; left; reflexivity|].
  unfold try_catch in E.
  match type of E with
  | (let (_, _) := ?body w0 in _) = _ =>
      destruct (body w0) as [[m'|e] w1] eqn:Eb
  end; [|discriminate].
  injection E as <- <-. unfold bind at 1 in Eb.
  destruct (select_quality_points (t :: san) w0) as [[rows|e] w2];
    [|discriminate].
  unfold bind at 1 in Eb.
  match type of Eb with
  | (let (_, _) := ?step w2 in _) = _ =>
      destruct (step w2) as [[qp_map|e] w3]
  end; [|discriminate].
  right. eauto.
Qed.

(** X7.  Whenever the batched resolver returns a mapping, two supplied
    labels that are equal after trimming are mapped alike: both to the
    same key, or neither to any. *)
Lemma trimmed_labels_share_key l w m w' a b :
  get_or_create_quality_points l w = (Ok m, w') ->
  In (KStr a) l -> In (KStr b) l ->
  PyStr.strip a = PyStr.strip b ->
  m !! a = m !! b.
Proof.
  intros E Ha Hb Hs. apply resolver_result in E.
  destruct E as [->|(qp_map & w1 & E)]; [rewrite !lookup_empty; reflexivity|].
  apply by_original_spec in E. destruct E as [_ Hm].
  rewrite !(Hm m eq_refl), !lookup_empty.
  rewrite !decide_True by (apply list_elem_of_In; assumption).
  rewrite Hs. reflexivity.
Qed.

(* The child rows are looked up under the trimmed label: a label that is
   its own trimmed form is kept exactly when the mapping has a key other
   than 0 for it. *)
Lemma resolved_id_trimmed qp_map fields label w :
  Py.assoc "quality_point" fields = Some (JStr label) ->
  PyStr.strip label = label ->
  resolved_id qp_map (JObj fields) w
  = (Ok match qp_map !! label with
        | Some id => if id =? 0 then None else Some id
        | None => None
        end, w).
Proof.
  intros Hl Hs. unfold resolved_id, py_get, lift, bind. simpl.
  rewrite Hl. simpl. rewrite Hs.
  destruct (qp_map !! label) as [id|]; [destruct (id =? 0)|]; reflexivity.
Qed.

(* ===================================================================== *)
(*  Further properties of the importer                                   *)
(* ===================================================================== *)

Lemma lstrip_no_lead s :
  match PyStr.lstrip s with
  | EmptyString => True
  | String c _ => PyStr.is_space c = false
  end.
Proof.
  induction s as [|c s IH]; simpl; [exact I|].
  destruct (PyStr.is_space c) eqn:E; [exact IH|exact E].
Qed.

Lemma rstrip_cons c s :
  PyStr.rstrip (String c s)
  = match PyStr.rstrip s with
    | EmptyString => if PyStr.is_space c then EmptyString else String c EmptyString
    | r => String c r
    end.
Proof. reflexivity. Qed.

Lemma rstrip_idem s : PyStr.rstrip (PyStr.rstrip s) = PyStr.rstrip s.
Proof.
  induction s as [|c s IH]; [reflexivity|].
  rewrite rstrip_cons. destruct (PyStr.rstrip s) as [|d r] eqn:E.
  - destruct (PyStr.is_space c) eqn:Ec; [reflexivity|].
    rewrite rstrip_cons. simpl. rewrite Ec. reflexivity.
  - rewrite rstrip_cons, IH. reflexivity.
Qed.

Lemma lstrip_rstrip s :
  match s with
  | EmptyString => True
  | String c _ => PyStr.is_space c = false
  end ->
  PyStr.lstrip (PyStr.rstrip s) = PyStr.rstrip s.
Proof.
  destruct s as [|c s]; [reflexivity|]. intros Hc.
  rewrite rstrip_cons. destruct (PyStr.rstrip s) as [|d r].
  - rewrite Hc. simpl. rewrite Hc. reflexivity.
  - simpl. rewrite Hc. reflexivity.
Qed.

Lemma strip_idem s : PyStr.strip (PyStr.strip s) = PyStr.strip s.
Proof.
  unfold PyStr.strip.
  rewrite (lstrip_rstrip (PyStr.lstrip s) (lstrip_no_lead s)).
  apply rstrip_idem.
Qed.

Lemma parse_line_fields line ext d :
  parse_line line = Some (ext, d) ->
  extension d = ext
  /\ PyStr.nonempty ext = true
  /\ PyStr.strip ext = ext
  /\ PyStr.strip (full_name d) = full_name d
  /\ exists mail, email d = Some mail /\ PyStr.strip mail = mail.
Proof.
  unfold parse_line.
  destruct (negb (PyStr.nonempty (PyStr.strip line))
            || PyStr.startswith (PyStr.strip line) "#"); [discriminate|].
  destruct (split_on TAB (PyStr.strip line)) as [|p0 [|p1 [|p2 ps]]];
    try discriminate.
  destruct (PyStr.nonempty (PyStr.strip p0)) eqn:En; [|discriminate].
  intros [= <- <-]. simpl. rewrite !strip_idem.
  split; [reflexivity|]. split; [exact En|]. split; [reflexivity|].
  split; [reflexivity|]. eexists. split; [reflexivity|apply strip_idem].
Qed.

Lemma parse_lines_origin lines acc ext d :
  parse_lines acc lines !! ext = Some d ->
  acc !! ext = Some d
  \/ exists line, In line lines /\ parse_line line = Some (ext, d).
Proof.
  revert acc. induction lines as [|line lines IH]; intros acc H; simpl in H.
  - left. exact H.
  - destruct (parse_line line) as [[e a]|] eqn:El.
    + destruct (IH _ H) as [Ha|(l & Hin & Hl)].
      * destruct (decide (e = ext)) as [->|Hne].
        -- rewrite lookup_insert_eq in Ha. injection Ha as ->.
           right. exists line. split; [left; reflexivity|exact El].
        -- rewrite lookup_insert_ne in Ha by exact Hne. left. exact Ha.
      * right. exists l. split; [right; exact Hin|exact Hl].
    + destruct (IH _ H) as [Ha|(l & Hin & Hl)]; [left; exact Ha|].
      right. exists l. split; [right; exact Hin|exact Hl].
Qed.

(** X1.  Every entry of the dictionary parse_extlist_data returns comes
    from a line of the file: it is filed under its own extension, the
    extension is not empty, and extension, name and e-mail address carry
    no leading or trailing whitespace.  A missing or unreadable file
    gives the empty dictionary. *)
Theorem parse_extlist_data_entries
  (content : option (list string)) (ext : string) (d : AgentDetails) :
  parse_extlist_data content !! ext = Some d ->
  (exists lines line,
     content = Some lines /\ In line lines /\ parse_line line = Some (ext, d))
  /\ extension d = ext
  /\ PyStr.nonempty ext = true
  /\ PyStr.strip ext = ext
  /\ PyStr.strip (full_name d) = full_name d
  /\ exists mail, email d = Some mail /\ PyStr.strip mail = mail.
Proof.
  destruct content as [lines|]; simpl; [|rewrite lookup_empty; discriminate].
  intros H. apply parse_lines_origin in H.
  destruct H as [H|(line & Hin & Hl)]; [rewrite lookup_empty in H; discriminate|].
  split; [eauto|]. exact (parse_line_fields _ _ _ Hl).
Qed.

Lemma parse_extlist_data_entries_witness :
  let content := Some [" # roster"%string;
                       roster_line " 1001 " " J. Rivera " "jr@example.org ";
                       roster_line "1002" "no mail" ""] in
  parse_extlist_data content !! "1001"%string
  = Some {| full_name := "J. Rivera"; email := Some "jr@example.org"%string;
            extension := "1001" |}
  /\ parse_extlist_data content !! "1002"%string = None
  /\ PyStr.strip "J. Rivera" = "J. Rivera"%string.
Proof.
  intros content.
  assert (parse_extlist_data content !! "1001"%string
          = Some {| full_name := "J. Rivera"; email := Some "jr@example.org"%string;
                    extension := "1001" |}) as H by (vm_compute; reflexivity).
  split; [exact H|]. split; [vm_compute; reflexivity|].
  destruct (parse_extlist_data_entries content _ _ H) as (_ & _ & _ & _ & Hn & _).
  exact Hn.
Defined.

Lemma parse_lines_last lines acc ext :
  parse_lines acc lines !! ext
  = match last (omap (entry_for ext) lines) with
    | Some d => Some d
    | None => acc !! ext
    end.
Proof.
  revert acc. induction lines as [|line lines IH]; intros acc; [reflexivity|].
  assert (omap (entry_for ext) (line :: lines)
          = match entry_for ext line with
            | Some d => d :: omap (entry_for ext) lines
            | None => omap (entry_for ext) lines
            end) as -> by reflexivity.
  change (parse_lines acc (line :: lines))
    with (match parse_line line with
          | Some (e, a) => parse_lines (<[e := a]> acc) lines
          | None => parse_lines acc lines
          end).
  unfold entry_for at 1.
  destruct (parse_line line) as [[e a]|] eqn:El; [|apply IH].
  rewrite IH. destruct (String.eqb e ext) eqn:Ee.
  - apply String.eqb_eq in Ee. subst e. rewrite last_cons.
    destruct (last (omap (entry_for ext) lines)); [reflexivity|].
    apply lookup_insert_eq.
  - apply String.eqb_neq in Ee.
    destruct (last (omap (entry_for ext) lines)); [reflexivity|].
    apply lookup_insert_ne. exact Ee.
Qed.

(** X2.  The entry parse_extlist_data returns for an extension is the one
    given by the last line of the file that parses to that extension;
    lines that are blank, start with #, have fewer than three
    tab-separated columns or an empty first column give no entry and
    change nothing. *)
Theorem parse_extlist_data_last_line_wins (lines : list string) (ext : string) :
  parse_extlist_data (Some lines) !! ext = last (omap (entry_for ext) lines).
Proof.
  simpl. rewrite parse_lines_last, lookup_empty.
  destruct (last (omap (entry_for ext) lines)); reflexivity.
Qed.

Lemma trimmed_labels_share_key_witness :
  let rw := get_or_create_quality_points [KStr " Tone "; KStr "Tone"]
              (Sample.fresh [] []) in
  exists m, fst rw = Ok m
            /\ m !! " Tone "%string = Some 1
            /\ m !! " Tone "%string = m !! "Tone"%string.
Proof.
  intros rw. destruct rw as [r w'] eqn:E. destruct r as [m|e].
  - exists m. split; [reflexivity|]. split.
    + change (match fst (Ok m, w') with
              | Ok m => m !! " Tone "%string = Some 1
              | Raise _ => False
              end).
      rewrite <- E. vm_compute. reflexivity.
    + apply (trimmed_labels_share_key _ _ _ _ " Tone " "Tone" E).
      * left. reflexivity.
      * right. left. reflexivity.
      * reflexivity.
  - exfalso.
    change (match fst (@Raise (gmap string Z) e, w') with
            | Ok _ => True
            | Raise _ => False
            end).
    rewrite <- E. vm_compute. exact I.
Defined.

Lemma read_json_ok file_path f json_data w :
  find_file file_path (files w) = Some f -> f_data f = Some json_data ->
  read_json file_path w = (Ok json_data, w).
Proof.
  intros Hf Hd. unfold read_json, bind, get_world. rewrite Hf, Hd. reflexivity.
Qed.





(** X4.  Whenever get_or_create_agent returns a key, the store as this
    connection sees it maps the extension to that key (whether the row
    was found or has just been inserted, and whatever else happened at
    the store meanwhile); so a following undisturbed call returns the
    same key after one lookup and inserts nothing. *)
Theorem resolved_agent_is_found_again
  (d : AgentDetails) (w : World) (id : Z) (w1 : World) :
  get_or_create_agent d w = (Ok (Some id), w1) ->
  find_agent (extension d) (view w1) = Some id
  /\ (quiet_for 1 w1 ->
      get_or_create_agent d w1
      = (Ok (Some id), tick (SelectAgent (extension d)) w1)).
Proof.
  intros E.
  assert (PyStr.nonempty (full_name d) = true
          /\ PyStr.nonempty (extension d) = true) as [Hn He].
  { unfold get_or_create_agent in E.
    destruct (PyStr.nonempty (full_name d)), (PyStr.nonempty (extension d));
      simpl in E; try discriminate. auto. }
  assert (find_agent (extension d) (view w1) = Some id) as Hfound.
  { unfold get_or_create_agent in E. rewrite Hn, He in E. simpl in E.
    unfold try_catch in E. unfold bind at 1 in E.
    unfold select_agent in E. unfold bind at 1 in E.
    destruct (round_trip (SelectAgent (extension d)) w) as [[[]|e] wa];
      [|discriminate].
    unfold bind at 1, get_world in E. simpl in E.
    destruct (find_agent (extension d) (view wa)) as [id'|] eqn:Ef.
    { injection E as <- <-. exact Ef. }
    unfold bind at 1 in E. unfold insert_agent in E. unfold bind at 1 in E.
    destruct (round_trip (InsertAgent (extension d)) wa) as [[[]|e] wb];
      [|discriminate].
    unfold bind at 1, get_world in E.
    destruct (find_agent (extension d) (view wb)) as [id'|] eqn:Ef2;
      [discriminate|].
    simpl in E. injection E as <- <-.
    unfold view in Ef2. rewrite !find_agent_app in Ef2.
    destruct (find_agent (extension d) (committed wb)) eqn:Hc; [discriminate|].
    destruct (find_agent (extension d) (foreign wb)) eqn:Hfo; [discriminate|].
    unfold store_rows, view. simpl.
    destruct (autocommit wb); simpl;
      rewrite !find_agent_app, ?Hc, ?Hfo, ?Ef2; simpl;
      rewrite ?String.eqb_refl, ?Hfo, ?Ef2; reflexivity. }
  split; [exact Hfound|]. intros Hq.
  unfold get_or_create_agent. rewrite Hn, He. simpl.
  erewrite try_ok; [reflexivity|].
  erewrite bind_ok by (apply (select_agent_quiet _ 0), Hq).
  rewrite Hfound. reflexivity.
Qed.

Lemma resolved_agent_is_found_again_witness :
  let rw := get_or_create_agent (unrostered "1001")
              (Sample.fresh [] [OtherRunAgent "x" None "1002"]) in
  fst rw = Ok (Some 2)
  /\ find_agent "1001" (view (snd rw)) = Some 2
  /\ get_or_create_agent (unrostered "1001") (snd rw)
     = (Ok (Some 2), tick (SelectAgent "1001") (snd rw)).
Proof.
  intros rw.
  assert (fst rw = Ok (Some 2)) as Hr by (vm_compute; reflexivity).
  destruct (resolved_agent_is_found_again (unrostered "1001")
              (Sample.fresh [] [OtherRunAgent "x" None "1002"]) 2 (snd rw))
    as [Hf Hagain].
  - rewrite <- Hr. apply surjective_pairing.
  - split; [exact Hr|]. split; [exact Hf|]. apply Hagain.
    split; [reflexivity|]. vm_compute. constructor.
Defined.

Lemma sanitize_into_falsy l acc w :
  Forall (fun k => key_truthy k = false) l ->
  sanitize_into acc l w = (Ok acc, w).
Proof.
  induction 1 as [|k l Hk _ IH]; simpl; [reflexivity|].
  rewrite Hk. exact IH.
Qed.

Lemma key_strip_error k e : key_strip k = Raise e -> e = AttributeError.
Proof. destruct k; simpl; congruence. Qed.

Lemma sanitize_into_raises l acc w k :
  In k l -> key_truthy k = true -> key_strip k = Raise AttributeError ->
  sanitize_into acc l w = (Raise AttributeError, w).
Proof.
  revert acc. induction l as [|k0 l IH]; intros acc Hin Ht Hs; [destruct Hin|].
  simpl. destruct (key_truthy k0) eqn:Et0.
  - unfold bind, lift. destruct (key_strip k0) as [s0|e0] eqn:Es0.
    + destruct Hin as [->|Hin]; [congruence|]. apply IH; assumption.
    + apply key_strip_error in Es0. subst e0. reflexivity.
  - destruct Hin as [->|Hin]; [congruence|]. apply IH; assumption.
Qed.

(** X6.  The batched resolver sends nothing to the store when it has
    nothing to resolve: with no label, or only empty ones, it returns the
    empty mapping; with a non-empty label that is not a string (a number
    in the document) it raises AttributeError.  In both cases the world
    is as before. *)
Theorem resolver_sends_nothing_without_labels (qp_texts : list key) (w : World) :
  (Forall (fun k => key_truthy k = false) qp_texts ->
   get_or_create_quality_points qp_texts w = (Ok ∅, w))
  /\ ((exists k, In k qp_texts /\ key_truthy k = true
                 /\ key_strip k = Raise AttributeError) ->
      get_or_create_quality_points qp_texts w = (Raise AttributeError, w)).
Proof.
  split.
  - intros H. unfold get_or_create_quality_points.
    erewrite bind_ok by (apply sanitize_into_falsy, H). reflexivity.
  - intros (k & Hin & Ht & Hs). unfold get_or_create_quality_points.
    erewrite bind_raise by (eapply sanitize_into_raises; eassumption).
    reflexivity.
Qed.

Lemma scan_week_folders_split root_dir items l1 x l2 :
  scan_week_folders root_dir items = l1 ++ x :: l2 ->
  exists before item after,
    items = before ++ item :: after
    /\ scan_week_folders root_dir before = l1
    /\ is_week_folder root_dir item (fst x) (snd x).
Proof.
  revert l1. induction items as [|item items IH]; intros l1 H.
  - destruct l1; discriminate.
  - simpl in H.
    assert (forall l1',
              scan_week_folders root_dir items = l1' ++ x :: l2 ->
              exists before it after,
                item :: items = (item :: before) ++ it :: after
                /\ scan_week_folders root_dir before = l1'
                /\ is_week_folder root_dir it (fst x) (snd x)) as Hrest.
    { intros l1' H'. destruct (IH _ H') as (b & it & a & -> & Hb & Hw).
      exists b, it, a. auto. }
    destruct (entry_is_dir item) eqn:Ed.
    2:{ destruct (Hrest _ H) as (b & it & a & Hi & Hb & Hw).
        exists (item :: b), it, a. split; [exact Hi|]. split; [|exact Hw].
        simpl. rewrite Ed. exact Hb. }
    destruct (folder_date (entry_name item)) as [[d|]|] eqn:Ef.
    + destruct l1 as [|y l1].
      * injection H as <- _. exists [], item, items.
        split; [reflexivity|]. split; [reflexivity|].
        unfold is_week_folder. auto.
      * injection H as <- H. destruct (Hrest _ H) as (b & it & a & Hi & Hb & Hw).
        exists (item :: b), it, a. split; [exact Hi|]. split; [|exact Hw].
        simpl. rewrite Ed, Ef, Hb. reflexivity.
    + destruct (Hrest _ H) as (b & it & a & Hi & Hb & Hw).
      exists (item :: b), it, a. split; [exact Hi|]. split; [|exact Hw].
      simpl. rewrite Ed, Ef. exact Hb.
    + destruct (Hrest _ H) as (b & it & a & Hi & Hb & Hw).
      exists (item :: b), it, a. split; [exact Hi|]. split; [|exact Hw].
      simpl. rewrite Ed, Ef. exact Hb.
Qed.

(** X8.  Of several week folders that share the latest date,
    find_latest_week_folder returns the one os.listdir names first: every
    week folder listed before the returned one is strictly older. *)
Theorem latest_week_folder_first_listed
  (root_dir : string) (items : list DirEntry) (latest : string) :
  find_latest_week_folder root_dir (Some items) = Some latest ->
  exists before item after d,
    items = before ++ item :: after
    /\ is_week_folder root_dir item d latest
    /\ forall item' d' p',
         In item' before -> is_week_folder root_dir item' d' p' -> date_lt d' d.
Proof.
  unfold find_latest_week_folder.
  destruct (scan_week_folders root_dir items) as [|c cs] eqn:E; [discriminate|].
  destruct (sorted_desc (c :: cs)) as [|[d p] t] eqn:Es; [discriminate|].
  intros [= <-].
  destruct (sorted_desc_head _ _ _ Es) as (l1 & l2 & Hl & Hlt & _).
  rewrite <- E in Hl.
  destruct (scan_week_folders_split _ _ _ _ _ Hl) as (b & it & a & -> & Hb & Hw).
  exists b, it, a, d. split; [reflexivity|]. split; [exact Hw|].
  intros item' d' p' Hin Hw'. apply ltb_iff.
  apply (Hlt (d', p')). rewrite <- Hb. apply scan_week_folders_spec. eauto.
Qed.

Lemma latest_week_folder_first_listed_witness :
  let items := [ {| entry_name := "Week of 2024-06-02"; entry_is_dir := true |};
                 {| entry_name := "Week of 2024-06-09 (a)"; entry_is_dir := true |};
                 {| entry_name := "Week of 2024-06-09 (b)"; entry_is_dir := true |} ] in
  find_latest_week_folder "in" (Some items) = Some "in/Week of 2024-06-09 (a)"%string
  /\ exists before item after d,
       items = before ++ item :: after
       /\ is_week_folder "in" item d "in/Week of 2024-06-09 (a)"
       /\ forall item' d' p',
            In item' before -> is_week_folder "in" item' d' p' -> date_lt d' d.
Proof.
  intros items. split; [reflexivity|].
  apply (latest_week_folder_first_listed "in" items). reflexivity.
Defined.

Lemma search_spec pat s t :
  Regex.search pat s = Some t ->
  Regex.match_here pat t = true /\ exists pre, s = pre +:+ t.
Proof.
  induction s as [|c s IH].
  - unfold Regex.search. destruct (Regex.match_here pat "") eqn:E; [|discriminate].
    intros [= <-]. split; [exact E|]. exists ""%string. reflexivity.
  - change (Regex.search pat (String c s))
      with (if Regex.match_here pat (String c s) then Some (String c s)
            else Regex.search pat s).
    destruct (Regex.match_here pat (String c s)) eqn:E.
    + intros [= <-]. split; [exact E|]. exists ""%string. reflexivity.
    + intros H. destruct (IH H) as [Hm [pre ->]].
      split; [exact Hm|]. exists (String c pre). reflexivity.
Qed.

Lemma match_here_cons k pat s :
  Regex.match_here (k :: pat) s = true ->
  exists c s', s = String c s' /\ Regex.cls_ok k c = true
               /\ Regex.match_here pat s' = true.
Proof.
  destruct s as [|c s]; simpl; [discriminate|].
  intros H. apply andb_true_iff in H. destruct H. eauto.
Qed.

Ltac next_char Hm c Hc :=
  apply match_here_cons in Hm;
  let t := fresh "t" in
  destruct Hm as (c & t & -> & Hc & Hm).

(** X9.  When extract_extension_from_path finds an extension, it is
    exactly four decimal digits (so never empty), and the path holds
    "Week of ", a text of the shape dddd-dd-dd, a slash or backslash and
    then these four digits; what follows them plays no part. *)
Theorem extracted_extension_is_four_digits (file_path ext : string) :
  extract_extension_from_path file_path = Some ext ->
  String.length ext = 4%nat
  /\ all_digits ext = true
  /\ PyStr.nonempty ext = true
  /\ exists pre date sep post,
       file_path = pre +:+ "Week of " +:+ date +:+ String sep (ext +:+ post)
       /\ Regex.match_here Regex.date_pat date = true
       /\ String.length date = 10%nat
       /\ (sep = "/"%char \/ sep = "\"%char).
Proof.
  unfold extract_extension_from_path.
  destruct (Regex.search Regex.ext_pat file_path) as [t|] eqn:E; [|discriminate].
  intros [= <-]. apply search_spec in E. destruct E as [Hm [pre ->]].
  let p := eval vm_compute in Regex.ext_pat in
  change Regex.ext_pat with p in Hm.
  next_char Hm c1 H1.
  next_char Hm c2 H2.
  next_char Hm c3 H3.
  next_char Hm c4 H4.
  next_char Hm c5 H5.
  next_char Hm c6 H6.
  next_char Hm c7 H7.
  next_char Hm c8 H8.
  next_char Hm c9 H9.
  next_char Hm c10 H10.
  next_char Hm c11 H11.
  next_char Hm c12 H12.
  next_char Hm c13 H13.
  next_char Hm c14 H14.
  next_char Hm c15 H15.
  next_char Hm c16 H16.
  next_char Hm c17 H17.
  next_char Hm c18 H18.
  next_char Hm c19 H19.
  next_char Hm c20 H20.
  next_char Hm c21 H21.
  next_char Hm c22 H22.
  next_char Hm c23 H23.
  unfold Regex.cls_ok in *.
  apply Ascii.eqb_eq in H1, H2, H3, H4, H5, H6, H7, H8, H13, H16.
  subst c1 c2 c3 c4 c5 c6 c7 c8 c13 c16.
  match goal with
  | |- context [substring 19 4 ?x] =>
      replace (substring 19 4 x)
        with (String c20 (String c21 (String c22 (String c23 ""))))
        by (destruct t0; reflexivity)
  end.
  split; [reflexivity|]. split; [simpl; rewrite H20, H21, H22, H23; reflexivity|].
  split; [reflexivity|].
  exists pre,
    (String c9 (String c10 (String c11 (String c12 (String "-"
       (String c14 (String c15 (String "-" (String c17 (String c18 "")))))))))),
    c19.
  eexists. split; [reflexivity|]. split.
  - simpl. rewrite H9, H10, H11, H12, H14, H15, H17, H18. reflexivity.
  - split; [reflexivity|].
    apply orb_true_iff in H19. destruct H19 as [H|H];
      apply Ascii.eqb_eq in H; auto.
Qed.

(* The directory 10015 has five digits: the extension read is 1001. *)
Lemma extracted_extension_is_four_digits_witness :
  extract_extension_from_path "in/Week of 2024-06-09/10015/call1_analysis.json"
  = Some "1001"%string
  /\ String.length "1001" = 4%nat
  /\ all_digits "1001" = true
  /\ PyStr.nonempty "1001" = true
  /\ exists pre date sep post,
       "in/Week of 2024-06-09/10015/call1_analysis.json"%string
       = pre +:+ "Week of " +:+ date +:+ String sep ("1001" +:+ post)
       /\ Regex.match_here Regex.date_pat date = true
       /\ String.length date = 10%nat
       /\ (sep = "/"%char \/ sep = "\"%char).
Proof.
  split; [reflexivity|].
  apply (extracted_extension_is_four_digits
           "in/Week of 2024-06-09/10015/call1_analysis.json").
  reflexivity.
Defined.

Lemma discover_paths target fs p :
  In p (discover target fs) -> In p (map path_of fs).
Proof.
  intros H. apply discover_spec in H. destruct H as (f & Hf & _ & ->).
  apply List.in_map, Hf.
Qed.

Lemma discover_NoDup target fs :
  NoDup (map path_of fs) -> NoDup (discover target fs).
Proof.
  induction fs as [|f fs IH]; simpl; [constructor|].
  intros H. apply NoDup_cons in H. destruct H as [Hf H].
  destruct (below target (f_dir f) && is_candidate (f_name f)); [|auto].
  apply NoDup_cons. split; [|auto].
  intros Hin. apply Hf. apply list_elem_of_In. apply list_elem_of_In in Hin.
  eapply discover_paths, Hin.
Qed.

(** X11.  No document is taken up twice within a run: when the files
    have distinct paths and process_folder gets through its loop, the
    paths of its outcomes are exactly the discovered candidates, each
    once, in discovery order. *)
Theorem no_document_processed_twice
  (target_folder : string) (ext_map : gmap string AgentDetails)
  (w : World) (outcomes : list (string * Outcome)) (w' : World) :
  NoDup (map path_of (files w)) ->
  process_folder target_folder ext_map w = (Ok (Some outcomes), w') ->
  map fst outcomes = discover target_folder (files w)
  /\ NoDup (map fst outcomes).
Proof.
  intros Hnd E.
  assert (map fst outcomes = discover target_folder (files w)) as Hm.
  { rewrite process_folder_unfold in E.
    destruct (discover target_folder (files w)) as [|p l] eqn:Ed.
    { injection E as <- <-. reflexivity. }
    destruct (alive w); [|discriminate].
    simpl in E.
    destruct (run_loop ext_map (clock w) (p :: l) w) as [r1 w1] eqn:E1.
    apply run_loop_outcome in E1. simpl in E.
    destruct E1 as [(outs & -> & Hm & _)|(e & -> & _)]; [|discriminate].
    injection E as <- <-. exact Hm. }
  split; [exact Hm|]. rewrite Hm. apply discover_NoDup, Hnd.
Qed.

Lemma no_document_processed_twice_witness :
  let w := Sample.fresh Sample.three [] in
  exists outcomes,
    fst (process_folder Sample.week Sample.rivera w) = Ok (Some outcomes)
    /\ map fst outcomes = discover Sample.week (files w)
    /\ NoDup (map fst outcomes)
    /\ length outcomes = 3%nat.
Proof.
  intros w.
  destruct (process_folder Sample.week Sample.rivera w) as [r w'] eqn:E.
  assert (match r with Ok (Some outs) => length outs = 3%nat | _ => False end)
    as Hr.
  { replace r with (fst (process_folder Sample.week Sample.rivera w))
      by (rewrite E; reflexivity).
    vm_compute. reflexivity. }
  destruct r as [[outs|]|e]; try destruct Hr.
  exists outs. split; [reflexivity|].
  destruct (no_document_processed_twice Sample.week Sample.rivera w outs w')
    as [Hm Hn].
  - vm_compute. repeat (apply NoDup_cons; split; [|]);
      try apply NoDup_nil_2;
      rewrite ?elem_of_cons, ?elem_of_nil; intuition discriminate.
  - exact E.
  - auto.
Defined.

(** X13.  When the store cannot be reached, process_folder changes
    nothing: no file is renamed, no call is made, and every discovered
    document stays as it was for the next run. *)
Theorem unreachable_store_changes_nothing
  (target_folder : string) (ext_map : gmap string AgentDetails)
  (w : World) (r : Res (option (list (string * Outcome)))) (w' : World) :
  alive w = false ->
  process_folder target_folder ext_map w = (r, w') ->
  w' = w
  /\ (r = Ok None
      \/ (r = Ok (Some []) /\ discover target_folder (files w) = [])).
Proof.
  intros Ha E. rewrite process_folder_unfold, Ha in E.
  destruct (discover target_folder (files w)) as [|p l];
    injection E as <- <-; auto.
Qed.

Lemma unreachable_store_changes_nothing_witness :
  let w := set_alive false (Sample.fresh Sample.three []) in
  let rw := process_folder Sample.week Sample.rivera w in
  snd rw = w
  /\ (fst rw = Ok None
      \/ (fst rw = Ok (Some []) /\ discover Sample.week (files w) = [])).
Proof.
  intros w rw.
  apply (unreachable_store_changes_nothing Sample.week Sample.rivera w).
  - reflexivity.
  - apply surjective_pairing.
Defined.

(** X12.  main imports from the latest week folder only: whenever it
    reports outcomes, the source root has a latest week folder and every
    document with an outcome lies in that folder or below it; documents
    left in older week folders are never taken up.  Without a source
    root setting or without any week folder it does nothing. *)
Theorem main_processes_latest_week_only
  (source_root : string) (listing : option (list DirEntry))
  (extlist : option (list string)) (w : World) :
  (forall outcomes w',
     main (Some source_root) listing extlist w = (Ok (Some outcomes), w') ->
     exists latest,
       find_latest_week_folder source_root listing = Some latest
       /\ forall p o, In (p, o) outcomes ->
            exists f, In f (files w) /\ p = path_of f
                      /\ below latest (f_dir f) = true)
  /\ (find_latest_week_folder source_root listing = None ->
      main (Some source_root) listing extlist w = (Ok None, w))
  /\ main None listing extlist w = (Ok None, w).
Proof.
  split; [|split].
  - intros outcomes w' E. unfold main in E.
    destruct (find_latest_week_folder source_root listing) as [latest|];
      [|discriminate].
    exists latest. split; [reflexivity|].
    destruct (PyStr.nonempty latest); [|discriminate].
    intros p o Hin.
    assert (In p (discover latest (files w))) as Hd.
    { rewrite process_folder_unfold in E.
      destruct (discover latest (files w)) as [|q l] eqn:Ed.
      { injection E as <- <-. destruct Hin. }
      destruct (alive w); [|discriminate].
      simpl in E.
      destruct (run_loop (parse_extlist_data extlist) (clock w) (q :: l) w)
        as [r1 w1] eqn:E1.
      apply run_loop_outcome in E1. simpl in E.
      destruct E1 as [(outs & -> & Hm & _)|(e & -> & _)]; [|discriminate].
      injection E as <- <-. rewrite <- Hm.
      apply (List.in_map fst) in Hin. exact Hin. }
    apply discover_spec in Hd. destruct Hd as (f & Hf & Hs & ->).
    exists f. split; [exact Hf|]. split; [reflexivity|].
    unfold selected in Hs. apply andb_true_iff in Hs. tauto.
  - intros H. unfold main. rewrite H. reflexivity.
  - reflexivity.
Qed.

Lemma preserves_true {A} (m : M A) : preserves (fun _ => True) m.
Proof. intros w r w' _ _. destruct r; exact I. Qed.

Lemma commit_ends_transaction :
  hoare (fun _ => True) commit
        (fun w => last (trace w) = Some Commit /\ pending w = [])
        (fun _ => True).
Proof.
  intros w r w' E _. unfold commit, bind in E.
  destruct (round_trip Commit w) as [[[]|e] w1] eqn:E1;
    injection E as <- <-; [|exact I].
  apply round_trip_frame in E1. destruct E1 as (_ & _ & _ & Ht & _).
  simpl. rewrite Ht. split; [apply last_snoc|reflexivity].
Qed.

Lemma import_document_ends_committed json_data file_path agent_details ts :
  hoare (fun _ => True)
        (import_document json_data file_path agent_details ts)
        (fun w => last (trace w) = Some Commit /\ pending w = [])
        (fun _ => True).
Proof.
  apply import_document_hoare with (P := fun _ => True).
  - auto.
  - intros s. apply preserves_true.
  - apply preserves_true.
  - intros rows _. apply preserves_true.
  - apply preserves_true.
  - apply commit_ends_transaction.
Qed.

Lemma move_inv src dst w u w' :
  move src dst w = (Ok u, w') ->
  w' = set_files (move_file src dst (files w)) w.
Proof.
  unfold move, bind, get_world.
  destruct (find_file src (files w)); [|discriminate].
  intros [= _ <-]. reflexivity.
Qed.

(** X10.  A document is marked Stored only after its transaction was
    committed: when the loop body ends with Stored, the last call on the
    connection was the commit, no transaction is open, the rows committed
    before are still there, and the file, which existed, now answers to
    its Stored-... name. *)
Theorem stored_means_committed
  (ext_map : gmap string AgentDetails) (ts : Z) (file_path : string)
  (w w' : World) :
  process_file ext_map ts file_path w = (Ok Stored, w') ->
  last (trace w') = Some Commit
  /\ pending w' = []
  /\ (exists new, committed w' = committed w ++ new)
  /\ find_file file_path (files w) <> None
  /\ files w' = move_file file_path (marked PROCESSED_PREFIX file_path) (files w).
Proof.
  intros E.
  assert (exists new, committed w' = committed w ++ new) as Hgrow.
  { pose proof (rows_inv_process_file (fun _ => True) (committed w) ts
                  (fun _ _ => I) ext_map file_path w _ _ E) as H.
    destruct H as [(new & Hc & _) _]; [|eauto].
    split; [exists []; rewrite List.app_nil_r; auto|].
    apply List.Forall_forall. auto. }
  unfold process_file, try_catch in E.
  destruct (extract_extension_from_path file_path) as [ext|]; [|discriminate].
  match type of E with
  | (let (_, _) := ?body w in _) = _ =>
      destruct (body w) as [[o|e] w1] eqn:Eb
  end.
  2:{ apply on_failure_spec in E. destruct E as (_ & Hok & _).
      destruct (Hok _ eq_refl) as [[b Hb] _]. discriminate. }
  injection E as -> ->.
  unfold bind at 1 in Eb.
  destruct (read_json file_path w) as [[json_data|e] w0] eqn:E1; [|discriminate].
  apply read_json_spec in E1. destruct E1 as [-> Hfile].
  specialize (Hfile _ eq_refl).
  unfold bind at 1 in Eb.
  destruct (import_document json_data file_path
              (agent_details_for ext_map ext) ts w) as [[[]|e] w2] eqn:E2;
    [|discriminate].
  pose proof (import_document_ends_committed _ _ _ _ _ _ _ E2 I) as [Ht Hp].
  pose proof (import_document_atomic (committed w) (files w) _ _ _ _ _ _ _ E2
                (conj eq_refl eq_refl)) as [Hf _].
  unfold bind at 1 in Eb.
  destruct (move file_path (marked PROCESSED_PREFIX file_path) w2)
    as [[[]|e] w3] eqn:E3; [|discriminate].
  injection Eb as <-. apply move_inv in E3. subst w3. simpl.
  rewrite Hf. auto.
Qed.

Lemma stored_means_committed_witness :
  let w := Sample.fresh
             [Sample.file Sample.agent_dir "call1_analysis.json" Sample.call1] [] in
  let rw := process_file Sample.rivera 100 Sample.path1 w in
  fst rw = Ok Stored
  /\ last (trace (snd rw)) = Some Commit
  /\ pending (snd rw) = []
  /\ (exists new, committed (snd rw) = committed w ++ new)
  /\ find_file Sample.path1 (files w) <> None
  /\ files (snd rw)
     = move_file Sample.path1 (marked PROCESSED_PREFIX Sample.path1) (files w).
Proof.
  intros w rw.
  assert (fst rw = Ok Stored) as Hr by (vm_compute; reflexivity).
  split; [exact Hr|].
  apply (stored_means_committed Sample.rivera 100 Sample.path1 w (snd rw)).
  rewrite <- Hr. apply surjective_pairing.
Defined.

(* --------------------------------------------------------------------- *)
(*  The keys the batched resolver returns                                *)
(* --------------------------------------------------------------------- *)

(* what the connection sees only grows *)
Lemma round_trip_grows s w u w' :
  round_trip s w = (Ok u, w') ->
  forall row, In row (view w) -> In row (view w').
Proof.
  unfold round_trip. simpl. intros E row Hin.
  destruct (alive w); [|discriminate].
  destruct (schedule w) as [|i rest].
  - injection E as _ <-. exact Hin.
  - destruct i; simpl in E;
      repeat match type of E with
             | context [match ?x with _ => _ end] => destruct x
             end;
      try discriminate; injection E as _ <-; try exact Hin;
      unfold view in *; simpl;
      rewrite !List.in_app_iff in *; tauto.
Qed.

Lemma store_rows_grows rows w row :
  In row (view w) -> In row (view (store_rows rows w)).
Proof.
  unfold store_rows, view. destruct (autocommit w); simpl;
    rewrite !List.in_app_iff; tauto.
Qed.

Lemma insert_each_grows params w r w' :
  for_each insert_quality_point params w = (r, w') ->
  forall row, In row (view w) -> In row (view w').
Proof.
  revert w r w'. induction params as [|p params IH]; intros w r w' E row Hin.
  - injection E as _ <-. exact Hin.
  - simpl in E. unfold bind at 1 in E.
    unfold insert_quality_point at 1 in E. unfold bind at 1 in E.
    unfold fresh_id at 1, modify at 1 in E. unfold bind at 1 in E.
    match type of E with
    | (let (_, _) := for_each _ _ ?w1 in _) = _ =>
        destruct (for_each insert_quality_point params w1) as [[ys|e] w2] eqn:E2;
        apply IH with (row := row) in E2;
        [injection E as _ <-; exact E2| |injection E as _ <-; exact E2|]
    end; apply store_rows_grows; exact Hin.
Qed.

Lemma insert_quality_points_grows params w u w' :
  insert_quality_points params w = (Ok u, w') ->
  forall row, In row (view w) -> In row (view w').
Proof.
  unfold insert_quality_points. intros E row Hin. unfold bind at 1 in E.
  destruct (round_trip _ w) as [[[]|e] w1] eqn:E1; [|discriminate].
  pose proof (round_trip_grows _ _ _ _ E1 row Hin) as H1.
  unfold bind at 1, get_world in E.
  destruct (forallb _ params); [|discriminate].
  unfold bind at 1 in E.
  destruct (for_each insert_quality_point params w1) as [[ys|e] w2] eqn:E2;
    [|discriminate].
  injection E as _ <-. exact (insert_each_grows _ _ _ _ E2 row H1).
Qed.

Lemma select_quality_points_inv texts w rows w' :
  select_quality_points texts w = (Ok rows, w') ->
  rows = quality_points_in texts (view w')
  /\ forall row, In row (view w) -> In row (view w').
Proof.
  unfold select_quality_points. intros E. unfold bind at 1 in E.
  destruct (round_trip _ w) as [[[]|e] w1] eqn:E1; [|discriminate].
  injection E as <- <-. split; [reflexivity|].
  exact (round_trip_grows _ _ _ _ E1).
Qed.

Lemma quality_points_in_row texts rows t id :
  In (t, id) (quality_points_in texts rows) ->
  exists flag, In (RQualityPoint id t flag) rows.
Proof.
  induction rows as [|row rows IH]; [intros []|].
  destruct row; simpl; try (intros H; destruct (IH H) as [b Hb]; eauto).
  destruct (decide (quality_point_text ∈ texts)).
  - intros [[= <- <-]|H]; [eauto|]. destruct (IH H) as [b Hb]. eauto.
  - intros H. destruct (IH H) as [b Hb]. eauto.
Qed.

Lemma fill_map_lookup rows acc t id :
  fill_map rows acc !! t = Some id ->
  In (t, id) rows \/ acc !! t = Some id.
Proof.
  revert acc. induction rows as [|[t0 id0] rows IH]; intros acc H; simpl in H.
  - right. exact H.
  - destruct (IH _ H) as [Hin|Ha]; [left; right; exact Hin|].
    destruct (decide (t0 = t)) as [->|Hne].
    + rewrite lookup_insert_eq in Ha. injection Ha as ->. left. left. reflexivity.
    + rewrite lookup_insert_ne in Ha by exact Hne. right. exact Ha.
Qed.

(** X5.  Every key in the mapping the batched resolver returns is the
    key of a master row that the connection sees when the resolver
    returns, and the text of that row is the trimmed form of the label;
    the mapping has entries for supplied labels only. *)
Theorem resolver_keys_are_master_rows
  (qp_texts : list key) (w : World) (m : gmap string Z) (w' : World) :
  get_or_create_quality_points qp_texts w = (Ok m, w') ->
  forall label id,
    m !! label = Some id ->
    In (KStr label) qp_texts
    /\ exists flag, In (RQualityPoint id (PyStr.strip label) flag) (view w').
Proof.
  intros E label id Hl.
  unfold get_or_create_quality_points in E. unfold bind at 1 in E.
  destruct (sanitize_into [] qp_texts w) as [[san|e] w0]; [|discriminate].
  destruct san as [|t san].
  { injection E as <- <-. rewrite lookup_empty in Hl. discriminate. }
  unfold try_catch in E.
  match type of E with
  | (let (_, _) := ?body w0 in _) = _ =>
      destruct (body w0) as [[m'|e] w4] eqn:Eb
  end; [|discriminate].
  injection E as -> ->. unfold bind at 1 in Eb.
  destruct (select_quality_points (t :: san) w0) as [[rows1|e] w1] eqn:E1;
    [|discriminate].
  apply select_quality_points_inv in E1. destruct E1 as [Hr1 _].
  unfold bind at 1 in Eb.
  match type of Eb with
  | (let (_, _) := ?step w1 in _) = _ =>
      destruct (step w1) as [[qp_map|e] w3] eqn:Es
  end; [|discriminate].
  apply by_original_spec in Eb. destruct Eb as [-> Hm].
  rewrite (Hm m eq_refl), lookup_empty in Hl.
  destruct (decide (KStr label ∈ qp_texts)) as [Hin|]; [|discriminate].
  split; [apply list_elem_of_In, Hin|].
  destruct (qp_map !! PyStr.strip label) as [id'|] eqn:Eq; [|discriminate].
  injection Hl as ->.
  assert (forall rows wv,
            rows = quality_points_in (t :: san) (view wv) ->
            In (PyStr.strip label, id) rows ->
            (forall row, In row (view wv) -> In row (view w3)) ->
            exists flag, In (RQualityPoint id (PyStr.strip label) flag) (view w3))
    as Hrow.
  { intros rows wv -> Hi Hgrow. apply quality_points_in_row in Hi.
    destruct Hi as [b Hb]. eauto. }
  destruct (filter (fun text => fill_map rows1 ∅ !! text = None) (t :: san))
    as [|n ns].
  - injection Es as <- <-. apply fill_map_lookup in Eq.
    destruct Eq as [Hi|He]; [|rewrite lookup_empty in He; discriminate].
    apply (Hrow rows1 w1 Hr1 Hi). auto.
  - unfold bind at 1 in Es.
    destruct (insert_quality_points _ w1) as [[[]|e] w2] eqn:E2; [|discriminate].
    unfold bind at 1 in Es.
    destruct (select_quality_points (t :: san) w2) as [[rows2|e] w2'] eqn:E3;
      [|discriminate].
    injection Es as <- <-.
    apply select_quality_points_inv in E3. destruct E3 as [Hr2 Hg3].
    apply fill_map_lookup in Eq. destruct Eq as [Hi|Hold].
    + apply (Hrow rows2 w2' Hr2 Hi). auto.
    + apply fill_map_lookup in Hold.
      destruct Hold as [Hi|He]; [|rewrite lookup_empty in He; discriminate].
      apply (Hrow rows1 w1 Hr1 Hi). intros row Hv. apply Hg3.
      exact (insert_quality_points_grows _ _ _ _ E2 row Hv).
Qed.

Lemma resolver_keys_are_master_rows_witness :
  let rw := get_or_create_quality_points [KStr " Tone "; KStr "Pace"]
              (Sample.fresh [] [OtherRunQualityPoint "Tone" 0]) in
  exists m, fst rw = Ok m
    /\ m !! " Tone "%string = Some 1
    /\ In (KStr " Tone ") [KStr " Tone "; KStr "Pace"]
    /\ exists flag, In (RQualityPoint 1 (PyStr.strip " Tone ") flag) (view (snd rw)).
Proof.
  intros rw. destruct rw as [r w'] eqn:E. destruct r as [m|e].
  - assert (m !! " Tone "%string = Some 1) as Hl.
    { change (match fst (Ok m, w') with
              | Ok m => m !! " Tone "%string = Some 1
              | Raise _ => False
              end).
      rewrite <- E. vm_compute. reflexivity. }
    exists m. split; [reflexivity|]. split; [exact Hl|].
    exact (resolver_keys_are_master_rows _ _ _ _ E _ _ Hl).
  - exfalso.
    change (match fst (@Raise (gmap string Z) e, w') with
            | Ok _ => True
            | Raise _ => False
            end).
    rewrite <- E. vm_compute. exact I.
Defined.

Lemma collect_quality_points_non_object json_data w :
  is_object json_data = false ->
  collect_quality_points json_data w = (Raise AttributeError, w).
Proof. destruct json_data; try discriminate; reflexivity. Qed.

Lemma import_document_non_object json_data file_path d ts w r w' :
  is_object json_data = false ->
  import_document json_data file_path d ts w = (r, w') ->
  exists e, r = Raise e.
Proof.
  intros Hj E. unfold import_document in E. unfold bind at 1 in E.
  simpl in E. unfold bind at 1 in E.
  destruct (get_or_create_agent d (set_autocommit false w))
    as [[[id|]|e] w1].
  - destruct (id =? 0).
    + injection E as <- _. eauto.
    + unfold bind at 1 in E.
      rewrite (collect_quality_points_non_object _ _ Hj) in E.
      injection E as <- _. eauto.
  - injection E as <- _. eauto.
  - injection E as <- _. eauto.
Qed.

(** X14.  A readable document whose top level is not a JSON object (a
    list, a string, a number, null) is never marked Stored and nothing is
    committed for it, whatever the store does during its import. *)
Theorem non_object_document_never_stored
  (ext_map : gmap string AgentDetails) (ts : Z) (file_path : string)
  (f : File) (json_data : json) (w : World) (r : Res Outcome) (w' : World) :
  find_file file_path (files w) = Some f ->
  f_data f = Some json_data ->
  is_object json_data = false ->
  process_file ext_map ts file_path w = (r, w') ->
  r <> Ok Stored /\ committed w' = committed w.
Proof.
  intros Hf Hd Hj E. unfold process_file, try_catch in E.
  destruct (extract_extension_from_path file_path) as [ext|].
  2:{ injection E as <- <-. split; [discriminate|reflexivity]. }
  unfold bind at 1 in E. rewrite (read_json_ok _ _ _ _ Hf Hd) in E.
  unfold bind at 1 in E.
  destruct (import_document json_data file_path
              (agent_details_for ext_map ext) ts w) as [r2 w2] eqn:E2.
  destruct (import_document_non_object _ _ _ _ _ _ _ Hj E2) as [e ->].
  pose proof (import_document_atomic (committed w) (files w) _ _ _ _ _ _ _ E2
                (conj eq_refl eq_refl)) as (Hc & _ & _).
  apply on_failure_spec in E. destruct E as (Hc' & Hok & _).
  split; [|congruence].
  intros ->. destruct (Hok _ eq_refl) as [[b Hb] _]. discriminate.
Qed.

Lemma non_object_document_never_stored_witness :
  let w := Sample.fresh
             [Sample.file Sample.agent_dir "call1_analysis.json"
                          (JArr [Sample.call1])] [] in
  let rw := process_file Sample.rivera 100 Sample.path1 w in
  fst rw = Ok (BadData AttributeError true)
  /\ fst rw <> Ok Stored /\ committed (snd rw) = committed w.
Proof.
  intros w rw. split; [vm_compute; reflexivity|].
  eapply (non_object_document_never_stored Sample.rivera 100 Sample.path1).
  - reflexivity.
  - reflexivity.
  - reflexivity.
  - apply surjective_pairing.
Defined.

(* --------------------------------------------------------------------- *)
(*  The batched resolver left undisturbed                                *)
(* --------------------------------------------------------------------- *)

Lemma set_add_in {A} `{EqDecision A} (x y : A) (s : list A) :
  In y (set_add x s) <-> y = x \/ In y s.
Proof.
  unfold set_add. destruct (decide (x ∈ s)) as [Hin|Hin].
  - apply list_elem_of_In in Hin. split; [auto|]. intros [->|H]; assumption.
  - rewrite List.in_app_iff. simpl. split; [intros [H|[H|[]]]|intros [H|H]]; auto.
Qed.

Lemma sanitize_into_labels l acc w :
  Forall is_label l ->
  exists san,
    sanitize_into acc l w = (Ok san, w)
    /\ (forall t, In t acc -> In t san)
    /\ (forall s, In (KStr s) l -> In (PyStr.strip s) san).
Proof.
  intros Hl. revert acc. induction Hl as [|k l (s & -> & Hs) _ IH]; intros acc.
  - exists acc. split; [reflexivity|]. split; [auto|intros ? []].
  - destruct (IH (set_add (PyStr.strip s) acc)) as (san & E & Hacc & Hin).
    exists san. split.
    + simpl. rewrite Hs. erewrite bind_ok by reflexivity. exact E.
    + split.
      * intros t Ht. apply Hacc, set_add_in. auto.
      * intros s' [[= <-]|H]; [|auto]. apply Hacc, set_add_in. auto.
Qed.

Lemma by_original_ok qp_map l acc w :
  Forall is_label l -> exists m, by_original qp_map acc l w = (Ok m, w).
Proof.
  intros Hl. revert acc. induction Hl as [|k l (s & -> & Hs) _ IH]; intros acc.
  - exists acc. reflexivity.
  - simpl. erewrite bind_ok by reflexivity.
    destruct (qp_map !! PyStr.strip s); apply IH.
Qed.

Lemma select_quality_points_quiet texts n w :
  quiet_for (S n) w ->
  select_quality_points texts w
  = (Ok (quality_points_in texts (view w)), tick (SelectQualityPoints texts) w).
Proof.
  intros Hq. unfold select_quality_points.
  erewrite bind_ok by (apply (round_trip_quiet _ n), Hq). reflexivity.
Qed.

Lemma quality_points_in_complete texts rows t id flag :
  In (RQualityPoint id t flag) rows -> In t texts ->
  In (t, id) (quality_points_in texts rows).
Proof.
  intros Hr Ht. induction rows as [|row rows IH]; [destruct Hr|].
  destruct Hr as [->|Hr].
  - simpl. rewrite decide_True by (apply list_elem_of_In, Ht). left. reflexivity.
  - specialize (IH Hr). destruct row; simpl; auto.
    destruct (decide (quality_point_text ∈ texts)); [right|]; exact IH.
Qed.

Lemma find_quality_point_in t rows id :
  find_quality_point t rows = Some id ->
  exists flag, In (RQualityPoint id t flag) rows.
Proof.
  induction rows as [|row rows IH]; [discriminate|].
  destruct row; simpl; try (intros H; destruct (IH H) as [b Hb]; eauto).
  destruct (String.eqb quality_point_text t) eqn:E.
  - apply String.eqb_eq in E. subst. intros [= <-]. eauto.
  - intros H. destruct (IH H) as [b Hb]. eauto.
Qed.

Lemma fill_map_some rows acc t :
  is_Some (acc !! t) \/ (exists id, In (t, id) rows) ->
  is_Some (fill_map rows acc !! t).
Proof.
  revert acc. induction rows as [|[t0 id0] rows IH]; intros acc H; simpl.
  - destruct H as [H|[id []]]. exact H.
  - apply IH. destruct H as [H|[id [[= -> ->]|H]]].
    + left. destruct (decide (t0 = t)) as [->|Hne].
      * rewrite lookup_insert_eq. eauto.
      * rewrite lookup_insert_ne by exact Hne. exact H.
    + left. rewrite lookup_insert_eq. eauto.
    + right. eauto.
Qed.

Lemma unseen_text_not_in_store texts rows t :
  In t texts ->
  fill_map (quality_points_in texts rows) ∅ !! t = None ->
  find_quality_point t rows = None.
Proof.
  intros Ht Hn. destruct (find_quality_point t rows) as [id|] eqn:E; [|reflexivity].
  apply find_quality_point_in in E. destruct E as [b Hb].
  pose proof (quality_points_in_complete texts rows t id b Hb Ht) as Hin.
  assert (is_Some (fill_map (quality_points_in texts rows) ∅ !! t)) as [x Hx]
    by (apply fill_map_some; eauto).
  congruence.
Qed.

Lemma store_rows_in row rows w :
  In row rows -> In row (view (store_rows rows w)).
Proof.
  unfold store_rows, view. destruct (autocommit w); simpl;
    rewrite !List.in_app_iff; tauto.
Qed.

Lemma store_rows_link rows w :
  alive (store_rows rows w) = alive w
  /\ schedule (store_rows rows w) = schedule w.
Proof. unfold store_rows. destruct (autocommit w); auto. Qed.

Lemma insert_each_spec params w :
  exists ys w2,
    for_each insert_quality_point params w = (Ok ys, w2)
    /\ alive w2 = alive w /\ schedule w2 = schedule w
    /\ (forall row, In row (view w) -> In row (view w2))
    /\ (forall p, In p params ->
          exists id, In (RQualityPoint id (fst p) (snd p)) (view w2)).
Proof.
  revert w. induction params as [|p params IH]; intros w.
  - exists [], w. split; [reflexivity|]. repeat split; auto. intros ? [].
  - set (w1 := store_rows [RQualityPoint (next_id w) (fst p) (snd p)]
                 (set_next_id (next_id w + 1) w)).
    destruct (IH w1) as (ys & w2 & E & Ha & Hs & Hg & Hin).
    exists (tt :: ys), w2. split.
    + simpl. erewrite bind_ok by reflexivity. fold w1.
      erewrite bind_ok by exact E. reflexivity.
    + destruct (store_rows_link [RQualityPoint (next_id w) (fst p) (snd p)]
                  (set_next_id (next_id w + 1) w)) as [Ha1 Hs1].
      split; [rewrite Ha; exact Ha1|]. split; [rewrite Hs; exact Hs1|].
      split.
      * intros row Hr. apply Hg. unfold w1. apply store_rows_grows. exact Hr.
      * intros q [<-|Hq]; [|auto]. exists (next_id w). apply Hg.
        unfold w1. apply store_rows_in. left. reflexivity.
Qed.

Lemma insert_quality_points_quiet params n w :
  quiet_for (S n) w ->
  (forall p, In p params -> find_quality_point (fst p) (view w) = None) ->
  exists w2,
    insert_quality_points params w = (Ok tt, w2)
    /\ quiet_for n w2
    /\ (forall row, In row (view w) -> In row (view w2))
    /\ (forall p, In p params ->
          exists id, In (RQualityPoint id (fst p) (snd p)) (view w2)).
Proof.
  intros Hq Hnone.
  destruct (round_trip_quiet (InsertQualityPoints (map fst params)) n w Hq)
    as [E1 [Ha1 Hq1]].
  set (w1 := tick (InsertQualityPoints (map fst params)) w) in *.
  destruct (insert_each_spec params w1) as (ys & w2 & E & Ha & Hs & Hg & Hin).
  exists w2. split.
  - unfold insert_quality_points. erewrite bind_ok by exact E1.
    erewrite bind_ok by reflexivity.
    replace (forallb _ params) with true.
    + erewrite bind_ok by exact E. reflexivity.
    + symmetry. apply forallb_forall. intros p Hp.
      change (view w1) with (view w). rewrite (Hnone p Hp).
      reflexivity.
  - split; [|split; [exact Hg|exact Hin]].
    split; [rewrite Ha; exact Ha1|]. rewrite Hs. exact Hq1.
Qed.

Lemma filter_nil_none {A} (P : A -> Prop) `{forall x, Decision (P x)} (l : list A) x :
  filter P l = [] -> In x l -> ~ P x.
Proof.
  intros Hf Hin HP.
  assert (x ∈ filter P l) as H0
    by (apply list_elem_of_filter; split; [exact HP|apply list_elem_of_In, Hin]).
  rewrite Hf in H0. apply elem_of_nil in H0. exact H0.
Qed.

(** X15.  Left undisturbed by the store for its three calls, the batched
    resolver returns normally, and its mapping has a key for every label
    it was given, when the labels are non-empty strings. *)
Theorem undisturbed_resolver_resolves_every_label (qp_texts : list key) (w : World) :
  Forall is_label qp_texts ->
  quiet_for 3 w ->
  exists m w',
    get_or_create_quality_points qp_texts w = (Ok m, w')
    /\ forall label, In (KStr label) qp_texts -> is_Some (m !! label).
Proof.
  intros Hl Hq.
  destruct (sanitize_into_labels qp_texts [] w Hl) as (san & Esan & _ & Hsan).
  unfold get_or_create_quality_points. erewrite bind_ok by exact Esan.
  destruct san as [|t0 san'].
  { exists ∅, w. split; [reflexivity|]. intros label Hin. destruct (Hsan _ Hin). }
  cbv beta iota. set (san := t0 :: san') in *.
  assert (forall qp_map w3,
            (forall t, In t san -> is_Some (qp_map !! t)) ->
            exists m,
              by_original qp_map ∅ qp_texts w3 = (Ok m, w3)
              /\ forall label, In (KStr label) qp_texts -> is_Some (m !! label))
    as Hfinal.
  { intros qp_map w3 Hall.
    destruct (by_original_ok qp_map qp_texts ∅ w3 Hl) as [m Em].
    exists m. split; [exact Em|]. intros label Hin.
    apply by_original_spec in Em. destruct Em as [_ Hm].
    rewrite (Hm m eq_refl).
    rewrite decide_True by (apply list_elem_of_In, Hin).
    destruct (Hall _ (Hsan _ Hin)) as [id ->]. eauto. }
  destruct (round_trip_quiet (SelectQualityPoints san) 2 w Hq) as [_ Hq1].
  set (w1 := tick (SelectQualityPoints san) w) in *.
  set (rows1 := quality_points_in san (view w)).
  destruct (filter (fun text => fill_map rows1 ∅ !! text = None) san)
    as [|n ns] eqn:Enew.
  - destruct (Hfinal (fill_map rows1 ∅) w1) as (m & Em & Hm).
    { intros t Ht. pose proof (filter_nil_none _ _ _ Enew Ht) as Hne.
      destruct (fill_map rows1 ∅ !! t) eqn:E1; [eauto|].
      exfalso. apply Hne. exact E1. }
    exists m, w1. split; [|exact Hm].
    erewrite try_ok; [reflexivity|].
    erewrite bind_ok by (apply (select_quality_points_quiet _ 2), Hq).
    fold rows1 w1. cbv zeta. rewrite Enew.
    erewrite bind_ok by reflexivity. exact Em.
  - set (params := map (fun text => (text, bonus_flag text)) (n :: ns)).
    destruct (insert_quality_points_quiet params 1 w1 Hq1)
      as (w2 & E2 & Hq2 & Hg & Hins).
    { intros p Hp. apply List.in_map_iff in Hp. destruct Hp as (t & <- & Ht).
      simpl. rewrite <- Enew in Ht.
      apply list_elem_of_In, list_elem_of_filter in Ht. destruct Ht as [Hn Ht].
      apply list_elem_of_In in Ht.
      change (view w1) with (view w).
      exact (unseen_text_not_in_store san (view w) t Ht Hn). }
    set (w3 := tick (SelectQualityPoints san) w2).
    set (rows2 := quality_points_in san (view w2)).
    destruct (Hfinal (fill_map rows2 (fill_map rows1 ∅)) w3) as (m & Em & Hm).
    { intros t Ht. apply fill_map_some.
      destruct (fill_map rows1 ∅ !! t) as [id|] eqn:E1; [left; eauto|].
      right.
      assert (In t (n :: ns)) as Hnew.
      { rewrite <- Enew. apply list_elem_of_In, list_elem_of_filter.
        split; [exact E1|apply list_elem_of_In, Ht]. }
      destruct (Hins (t, bonus_flag t)) as [id Hid].
      { unfold params. apply List.in_map_iff. eauto. }
      exists id. unfold rows2.
      eapply quality_points_in_complete; [exact Hid|exact Ht]. }
    exists m, w3. split; [|exact Hm].
    erewrite try_ok; [reflexivity|].
    erewrite bind_ok by (apply (select_quality_points_quiet _ 2), Hq).
    fold rows1 w1. cbv zeta. rewrite Enew. fold params.
    erewrite bind_ok.
    2:{ erewrite bind_ok by exact E2.
        erewrite bind_ok by (apply (select_quality_points_quiet _ 0), Hq2).
        reflexivity. }
    fold rows2 w3. exact Em.
Qed.

Lemma undisturbed_resolver_resolves_every_label_witness :
  let w := Sample.fresh [] [] in
  exists m w',
    get_or_create_quality_points [KStr "Tone"; KStr " Pace "] w = (Ok m, w')
    /\ forall label, In (KStr label) [KStr "Tone"; KStr " Pace "] ->
                     is_Some (m !! label).
Proof.
  intros w.
  apply (undisturbed_resolver_resolves_every_label [KStr "Tone"; KStr " Pace "] w).
  - repeat constructor; eexists; split; reflexivity.
  - split; [reflexivity|constructor].
Defined.

Lemma run_loop_all_skipped ext_map ts l w :
  Forall (fun p => extract_extension_from_path p = None) l ->
  run_loop ext_map ts l w = (Ok (map (fun p => (p, Skipped)) l), w).
Proof.
  unfold run_loop. induction 1 as [|p l Hp _ IH]; [reflexivity|].
  simpl. erewrite bind_ok.
  2:{ erewrite bind_ok; [reflexivity|].
      unfold process_file, try_catch. rewrite Hp. reflexivity. }
  erewrite bind_ok by exact IH. reflexivity.
Qed.

(** X16.  Documents that lie outside an agent folder are passed over on
    every run: when no discovered path yields an extension, process_folder
    reports each of them Skipped, makes no call on the connection, commits
    nothing and renames nothing, so that the next run discovers the same
    documents again. *)
Theorem unlinked_documents_stay_pending
  (target_folder : string) (ext_map : gmap string AgentDetails)
  (w : World) (r : Res (option (list (string * Outcome)))) (w' : World) :
  alive w = true ->
  Forall (fun p => extract_extension_from_path p = None)
         (discover target_folder (files w)) ->
  process_folder target_folder ext_map w = (r, w') ->
  r = Ok (Some (map (fun p => (p, Skipped)) (discover target_folder (files w))))
  /\ trace w' = trace w
  /\ committed w' = committed w
  /\ files w' = files w
  /\ discover target_folder (files w') = discover target_folder (files w).
Proof.
  intros Ha Hall E. rewrite process_folder_unfold, Ha in E.
  destruct (discover target_folder (files w)) as [|p l] eqn:Ed.
  { injection E as <- <-. rewrite Ed. auto. }
  rewrite (run_loop_all_skipped _ _ _ _ Hall) in E. simpl in E.
  injection E as <- <-. simpl. rewrite Ed. auto.
Qed.

Lemma unlinked_documents_stay_pending_witness :
  let w := Sample.fresh Sample.stray [] in
  let rw := process_folder Sample.week Sample.rivera w in
  fst rw
  = Ok (Some (map (fun p => (p, Skipped)) (discover Sample.week (files w))))
  /\ trace (snd rw) = trace w
  /\ committed (snd rw) = committed w
  /\ files (snd rw) = files w
  /\ discover Sample.week (files (snd rw)) = discover Sample.week (files w).
Proof.
  intros w rw.
  apply (unlinked_documents_stay_pending Sample.week Sample.rivera w).
  - reflexivity.
  - vm_compute. repeat constructor.
  - apply surjective_pairing.
Defined.

(* --------------------------------------------------------------------- *)
(*  What a run leaves behind                                             *)
(* --------------------------------------------------------------------- *)

(** X17.  process_folder never raises and never leaves rows uncommitted:
    whatever happened during the run, it returns normally, no
    transaction is open afterwards, the rows committed before are still
    there, and a connection that was opened has been closed. *)
Theorem process_folder_leaves_no_open_transaction
  (target_folder : string) (ext_map : gmap string AgentDetails)
  (w : World) (r : Res (option (list (string * Outcome)))) (w' : World) :
  pending w = [] ->
  process_folder target_folder ext_map w = (r, w') ->
  (exists result, r = Ok result)
  /\ pending w' = []
  /\ (exists new, committed w' = committed w ++ new)
  /\ (discover target_folder (files w) <> [] -> alive w' = false).
Proof.
  intros Hp E.
  assert (rows_inv (fun _ => True) (committed w) w') as [Hc _].
  { apply (rows_inv_process_folder _ _ _ _ _ _ (fun _ _ => I) E).
    split; [|rewrite Hp; constructor].
    exists []. split; [symmetry; apply List.app_nil_r|constructor]. }
  destruct Hc as (new & Hc & _).
  rewrite process_folder_unfold in E.
  destruct (discover target_folder (files w)) as [|p l].
  { injection E as <- <-. repeat split; eauto. intros []. reflexivity. }
  destruct (alive w) eqn:Ha.
  - injection E as <- <-. repeat split; eauto.
  - injection E as <- <-. repeat split; eauto.
Qed.

Lemma process_folder_leaves_no_open_transaction_witness :
  let w := Sample.fresh Sample.three [Quiet; Quiet; ConnectionLost] in
  let rw := process_folder Sample.week Sample.rivera w in
  (exists result, fst rw = Ok result)
  /\ pending (snd rw) = []
  /\ (exists new, committed (snd rw) = committed w ++ new)
  /\ (discover Sample.week (files w) <> [] -> alive (snd rw) = false).
Proof.
  intros w rw.
  apply (process_folder_leaves_no_open_transaction Sample.week Sample.rivera w).
  - reflexivity.
  - apply surjective_pairing.
Defined.

(* --------------------------------------------------------------------- *)
(*  The rows of one document                                             *)
(* --------------------------------------------------------------------- *)

Lemma bind_inv {A B} (m : M A) (k : A -> M B) w b w' :
  bind m k w = (Ok b, w') ->
  exists a w1, m w = (Ok a, w1) /\ k a w1 = (Ok b, w').
Proof.
  unfold bind. destruct (m w) as [[a|e] w1]; [eauto|discriminate].
Qed.

Lemma lift_inv {A} (x : Res A) w r w' : lift x w = (r, w') -> r = x /\ w' = w.
Proof. unfold lift. intros E. injection E as <- <-. auto. Qed.

Lemma py_get_inv d k dflt w r w' :
  py_get d k dflt w = (r, w') -> r = Py.get d k dflt /\ w' = w.
Proof. apply lift_inv. Qed.

Lemma py_iter_inv v w r w' : py_iter v w = (r, w') -> r = Py.iter v /\ w' = w.
Proof. apply lift_inv. Qed.

(* a comprehension whose body touches nothing touches nothing *)
Lemma for_each_pure {A B} (f : A -> M B) (l : list A) :
  (forall x w r w', f x w = (r, w') -> w' = w) ->
  forall w r w', for_each f l w = (r, w') -> w' = w.
Proof.
  intros Hf. induction l as [|x l IH]; intros w r w' E; simpl in E.
  - injection E as _ <-. reflexivity.
  - unfold bind at 1 in E. destruct (f x w) as [[y|e] w1] eqn:E1;
      apply Hf in E1; subst w1.
    + unfold bind at 1 in E. destruct (for_each f l w) as [[ys|e] w2] eqn:E2;
        apply IH in E2; subst w2; injection E as _ <-; reflexivity.
    + injection E as _ <-. reflexivity.
Qed.

Lemma for_each_py_get d dflt l w r w' :
  for_each (fun k => py_get d k dflt) l w = (r, w') -> w' = w.
Proof.
  apply for_each_pure. intros x w0 r0 w0' E. apply py_get_inv in E. tauto.
Qed.

Lemma for_each_concat {A B} (P : B -> Prop) (f : A -> M (list B)) (l : list A) :
  (forall x w rows w', f x w = (Ok rows, w') -> Forall P rows) ->
  forall w rows w', for_each f l w = (Ok rows, w') -> Forall P (concat rows).
Proof.
  intros Hf. induction l as [|x l IH]; intros w rows w' E; simpl in E.
  - injection E as <- _. constructor.
  - apply bind_inv in E. destruct E as (y & w1 & E1 & E).
    apply bind_inv in E. destruct E as (ys & w2 & E2 & E).
    injection E as <- _. simpl. apply List.Forall_app. split; eauto.
Qed.

Lemma resolved_id_inv qp_map item w r w' :
  resolved_id qp_map item w = (r, w') ->
  w' = w /\ forall id, r = Ok (Some id) -> resolved_key qp_map id.
Proof.
  unfold resolved_id. intros E. unfold bind at 1 in E.
  destruct (py_get item "quality_point" (JStr "") w) as [[label|e] w1] eqn:E1;
    apply py_get_inv in E1; destruct E1 as [_ ->].
  2:{ injection E as <- <-. split; [reflexivity|discriminate]. }
  unfold bind at 1 in E.
  destruct (lift (Py.strip label) w) as [[s|e] w1] eqn:E1;
    apply lift_inv in E1; destruct E1 as [_ ->].
  2:{ injection E as <- <-. split; [reflexivity|discriminate]. }
  destruct (qp_map !! s) as [id|] eqn:Eq.
  - destruct (id =? 0) eqn:Ez; injection E as <- <-;
      (split; [reflexivity|]); intros id' H; [discriminate|].
    injection H as <-. split; [apply Z.eqb_neq, Ez|eauto].
  - injection E as <- <-. split; [reflexivity|discriminate].
Qed.

Lemma eval_param_inv analysis_id qp_map item w r w' :
  eval_param analysis_id qp_map item w = (r, w') ->
  w' = w
  /\ forall params, r = Ok params ->
       Forall (fun p => item_of analysis_id qp_map
                          (let '(a, q, f, e) := p in REvaluationItem a q f e))
              params.
Proof.
  unfold eval_param. intros E. unfold bind at 1 in E.
  destruct (resolved_id qp_map item w) as [[[id|]|e] w1] eqn:E1;
    apply resolved_id_inv in E1; destruct E1 as [-> Hid].
  - unfold bind at 1 in E.
    destruct (py_get item "finding" JNull w) as [[f|e] w1] eqn:E1;
      apply py_get_inv in E1; destruct E1 as [_ ->].
    2:{ injection E as <- <-. split; [reflexivity|discriminate]. }
    unfold bind at 1 in E.
    destruct (py_get item "explanation_snippets" JNull w) as [[x|e] w1] eqn:E1;
      apply py_get_inv in E1; destruct E1 as [_ ->].
    2:{ injection E as <- <-. split; [reflexivity|discriminate]. }
    injection E as <- <-. split; [reflexivity|]. intros params H.
    injection H as <-. constructor; [|constructor].
    split; [reflexivity|]. apply Hid. reflexivity.
  - injection E as <- <-. split; [reflexivity|]. intros params H.
    injection H as <-. constructor.
  - injection E as <- <-. split; [reflexivity|discriminate].
Qed.

Lemma round_trip_adds s w u w' :
  round_trip s w = (Ok u, w') -> autocommit w = false ->
  adds_to_transaction [] w w'.
Proof.
  unfold round_trip, adds_to_transaction. simpl. intros E Hac.
  rewrite List.app_nil_r.
  destruct (alive w); [|discriminate].
  destruct (schedule w) as [|i rest].
  - injection E as _ <-. simpl. auto.
  - destruct i; simpl in E;
      repeat match type of E with
             | context [match ?x with _ => _ end] => destruct x
             end;
      try discriminate; injection E as _ <-; simpl; auto.
Qed.

Lemma adds_refl w : autocommit w = false -> adds_to_transaction [] w w.
Proof. intros H. unfold adds_to_transaction. rewrite List.app_nil_r. auto. Qed.

Lemma adds_trans a b w w1 w2 :
  adds_to_transaction a w w1 -> adds_to_transaction b w1 w2 ->
  adds_to_transaction (a ++ b) w w2.
Proof.
  intros (Hp1 & Hc1 & _) (Hp2 & Hc2 & Ha2). unfold adds_to_transaction.
  rewrite Hp2, Hp1, Hc2, Hc1, List.app_assoc. auto.
Qed.

Lemma store_rows_adds rows w :
  autocommit w = false -> adds_to_transaction rows w (store_rows rows w).
Proof.
  intros H. unfold adds_to_transaction, store_rows. rewrite H. simpl. auto.
Qed.

Lemma insert_returning_adds table mk_row w id w' :
  insert_returning table mk_row w = (Ok id, w') -> autocommit w = false ->
  adds_to_transaction [mk_row id] w w'.
Proof.
  unfold insert_returning. intros E Hac.
  apply bind_inv in E. destruct E as ([] & w1 & E1 & E).
  apply round_trip_adds in E1; [|exact Hac].
  unfold bind, fresh_id, modify, ret in E. injection E as <- <-.
  destruct E1 as (Hp & Hc & Ha). unfold adds_to_transaction, store_rows.
  simpl. rewrite Ha. simpl. rewrite Hp, List.app_nil_r. auto.
Qed.

Lemma insert_many_adds {T} table (mk_row : T -> Row) params w u w' :
  insert_many table mk_row params w = (Ok u, w') -> autocommit w = false ->
  adds_to_transaction (map mk_row params) w w'.
Proof.
  unfold insert_many. intros E Hac.
  apply bind_inv in E. destruct E as ([] & w1 & E1 & E).
  apply round_trip_adds in E1; [|exact Hac].
  unfold modify in E. injection E as _ <-.
  apply (adds_trans [] _ _ _ _ E1). apply store_rows_adds. apply E1.
Qed.

Lemma process_individual_json_adds
  (json_data : json) (file_path : string) (agent_id : Z)
  (qp_map : gmap string Z) (ts : Z) (w w' : World) :
  autocommit w = false ->
  process_individual_json json_data file_path agent_id qp_map ts w = (Ok tt, w') ->
  exists analysis_id columns items,
    adds_to_transaction
      (RIndividual analysis_id agent_id
         (PyStr.replace (Path.basename file_path) "_analysis.json" ".wav")
         columns ts :: items) w w'
    /\ Forall (item_of analysis_id qp_map) items.
Proof.
  intros Hac E. unfold process_individual_json in E.
  apply bind_inv in E. destruct E as (summary & w1 & E1 & E).
  apply py_get_inv in E1. destruct E1 as [_ ->].
  apply bind_inv in E. destruct E as (remarks & w1 & E1 & E).
  apply py_get_inv in E1. destruct E1 as [_ ->].
  apply bind_inv in E. destruct E as (name_raw & w1 & E1 & E).
  apply py_get_inv in E1. destruct E1 as [_ ->].
  apply bind_inv in E. destruct E as (summary_cols & w1 & E1 & E).
  apply for_each_py_get in E1. subst w1.
  apply bind_inv in E. destruct E as (remark_cols & w1 & E1 & E).
  apply for_each_py_get in E1. subst w1.
  apply bind_inv in E. destruct E as (analysis_id & w1 & E1 & E).
  apply insert_returning_adds in E1; [|exact Hac].
  apply bind_inv in E. destruct E as (detailed & w2 & E2 & E).
  apply py_get_inv in E2. destruct E2 as [_ ->].
  apply bind_inv in E. destruct E as (items & w2 & E2 & E).
  apply py_iter_inv in E2. destruct E2 as [_ ->].
  apply bind_inv in E. destruct E as (rows & w2 & E2 & E).
  pose proof (for_each_pure _ _ (fun x w0 r0 w0' H =>
                proj1 (eval_param_inv _ _ _ _ _ _ H)) _ _ _ E2) as ->.
  apply (for_each_concat
           (fun p => item_of analysis_id qp_map
                       (let '(a, q, f, e) := p in REvaluationItem a q f e))) in E2.
  2:{ intros x w0 ps w0' H. apply eval_param_inv in H. apply H. reflexivity. }
  exists analysis_id, (name_raw :: summary_cols ++ remark_cols).
  destruct (concat rows) as [|p ps] eqn:Ec.
  - injection E as <-. exists []. split; [exact E1|constructor].
  - rewrite <- Ec in E, E2. apply insert_many_adds in E; [|apply E1].
    eexists. split; [exact (adds_trans [_] _ _ _ _ E1 E)|].
    apply List.Forall_forall. intros row Hin.
    apply List.in_map_iff in Hin. destruct Hin as ([[[a q] f] e] & <- & Hin).
    exact (proj1 (List.Forall_forall _ _) E2 _ Hin).
Qed.

(** X18.  The rows of an individual document hang together: when
    process_individual_json returns inside a transaction, it has added
    to the transaction exactly one IndividualCallAnalyses row, with the
    agent key, the .wav name of the file and the run's timestamp, and
    after it evaluation items only, each of which refers to that row's
    key and to a non-zero key that qp_map holds; nothing is committed. *)
Theorem individual_items_reference_analysis
  (json_data : json) (file_path : string) (agent_id : Z)
  (qp_map : gmap string Z) (ts : Z) (w w' : World) :
  autocommit w = false ->
  process_individual_json json_data file_path agent_id qp_map ts w = (Ok tt, w') ->
  exists analysis_id columns items,
    adds_to_transaction
      (RIndividual analysis_id agent_id
         (PyStr.replace (Path.basename file_path) "_analysis.json" ".wav")
         columns ts :: items) w w'
    /\ Forall (item_of analysis_id qp_map) items.
Proof. apply process_individual_json_adds. Qed.

Lemma individual_items_reference_analysis_witness :
  let w := set_autocommit false (Sample.fresh [] []) in
  let qp_map : gmap string Z := {[ "Tone"%string := 7 ]} in
  let rw := process_individual_json Sample.call1 Sample.path1 3 qp_map 100 w in
  fst rw = Ok tt
  /\ exists analysis_id columns items,
       adds_to_transaction
         (RIndividual analysis_id 3
            (PyStr.replace (Path.basename Sample.path1) "_analysis.json" ".wav")
            columns 100 :: items) w (snd rw)
       /\ Forall (item_of analysis_id qp_map) items.
Proof.
  intros w qp_map rw.
  assert (fst rw = Ok tt) as Hr by (vm_compute; reflexivity).
  split; [exact Hr|].
  apply (individual_items_reference_analysis Sample.call1 Sample.path1 3 qp_map 100 w).
  - reflexivity.
  - rewrite <- Hr. apply surjective_pairing.
Defined.

Lemma part_of_mono combined_id qp_map (s s' : list Row) row :
  (forall r, In r s -> In r s') ->
  part_of combined_id qp_map s row -> part_of combined_id qp_map s' row.
Proof.
  intros Hs. destruct row; simpl; auto. intros [a Ha]. eauto.
Qed.

Lemma part_of_app combined_id qp_map (a b : list Row) :
  Forall (part_of combined_id qp_map a) a ->
  Forall (part_of combined_id qp_map b) b ->
  Forall (part_of combined_id qp_map (a ++ b)) (a ++ b).
Proof.
  intros Ha Hb. apply List.Forall_app. split.
  - eapply List.Forall_impl; [|exact Ha]. intros row.
    apply part_of_mono. intros r Hr. apply List.in_or_app. auto.
  - eapply List.Forall_impl; [|exact Hb]. intros row.
    apply part_of_mono. intros r Hr. apply List.in_or_app. auto.
Qed.

Lemma qp_param_inv combined_id qp_map item w r w' :
  qp_param combined_id qp_map item w = (r, w') ->
  w' = w
  /\ forall params, r = Ok params ->
       Forall (fun p => forall siblings,
                 part_of combined_id qp_map siblings
                   (let '(c, q, positive, negative, neutral, trend) := p in
                    RQualityPointDetail c q positive negative neutral trend))
              params.
Proof.
  unfold qp_param. intros E. unfold bind at 1 in E.
  destruct (resolved_id qp_map item w) as [[[id|]|e] w1] eqn:E1;
    apply resolved_id_inv in E1; destruct E1 as [-> Hid].
  - repeat (unfold bind at 1 in E;
            match type of E with
            | (let (_, _) := py_get ?d ?k ?dflt w in _) = _ =>
                let E1 := fresh "E" in
                destruct (py_get d k dflt w) as [[?|?] ?] eqn:E1;
                apply py_get_inv in E1; destruct E1 as [_ ->];
                [|injection E as <- <-; split; [reflexivity|discriminate]]
            end).
    injection E as <- <-. split; [reflexivity|]. intros params H.
    injection H as <-. constructor; [|constructor]. intros siblings.
    split; [reflexivity|]. apply Hid. reflexivity.
  - injection E as <- <-. split; [reflexivity|]. intros params H.
    injection H as <-. constructor.
  - injection E as <- <-. split; [reflexivity|discriminate].
Qed.

Lemma coaching_focus_adds combined_id qp_map focus_item w u w' :
  coaching_focus combined_id focus_item w = (Ok u, w') ->
  autocommit w = false ->
  exists rows, adds_to_transaction rows w w'
               /\ Forall (part_of combined_id qp_map rows) rows.
Proof.
  unfold coaching_focus. intros E Hac.
  apply bind_inv in E. destruct E as (area_text & w1 & E1 & E).
  apply py_get_inv in E1. destruct E1 as [_ ->].
  destruct (Py.truthy area_text).
  2:{ injection E as _ <-. exists []. split; [apply adds_refl, Hac|constructor]. }
  apply bind_inv in E. destruct E as (focus_id & w1 & E1 & E).
  apply insert_returning_adds in E1; [|exact Hac].
  apply bind_inv in E. destruct E as (actions & w2 & E2 & E).
  apply py_get_inv in E2. destruct E2 as [_ ->].
  destruct (Py.truthy actions).
  - apply bind_inv in E. destruct E as (l & w2 & E2 & E).
    apply py_iter_inv in E2. destruct E2 as [_ ->].
    apply insert_many_adds in E; [|apply E1].
    eexists. split; [exact (adds_trans [_] _ _ _ _ E1 E)|].
    constructor; [reflexivity|].
    apply List.Forall_forall. intros row Hin.
    apply List.in_map_iff in Hin. destruct Hin as ([f a] & <- & Hin).
    apply List.in_map_iff in Hin. destruct Hin as (a' & Ha & _).
    injection Ha as <- <-. exists area_text. left. reflexivity.
  - injection E as _ <-. exists [RCoachingFocus focus_id combined_id area_text].
    split; [exact E1|]. constructor; [reflexivity|constructor].
Qed.

Lemma coaching_foci_add combined_id qp_map focus_items w us w' :
  for_each (coaching_focus combined_id) focus_items w = (Ok us, w') ->
  autocommit w = false ->
  exists rows, adds_to_transaction rows w w'
               /\ Forall (part_of combined_id qp_map rows) rows.
Proof.
  revert w us w'. induction focus_items as [|x l IH]; intros w us w' E Hac;
    simpl in E.
  - injection E as _ <-. exists []. split; [apply adds_refl, Hac|constructor].
  - apply bind_inv in E. destruct E as (u & w1 & E1 & E).
    apply bind_inv in E. destruct E as (us' & w2 & E2 & E).
    injection E as _ <-.
    apply (coaching_focus_adds _ qp_map) in E1; [|exact Hac].
    destruct E1 as (a & Ha & Pa).
    apply IH in E2; [|apply Ha]. destruct E2 as (b & Hb & Pb).
    exists (a ++ b). split; [exact (adds_trans _ _ _ _ _ Ha Hb)|].
    apply part_of_app; assumption.
Qed.

(* if texts: executemany(INSERT ..., [(combined_id, t) for t in texts]) *)
Lemma optional_texts_add combined_id qp_map table (mk : Z * json -> Row)
  (texts : json) w u w' :
  (forall t, part_of combined_id qp_map [] (mk (combined_id, t))) ->
  (if Py.truthy texts
   then l <- py_iter texts ;;
        insert_many table mk (map (fun t => (combined_id, t)) l)
   else ret tt) w = (Ok u, w') ->
  autocommit w = false ->
  exists rows, adds_to_transaction rows w w'
               /\ Forall (part_of combined_id qp_map rows) rows.
Proof.
  intros Hmk E Hac. destruct (Py.truthy texts).
  - apply bind_inv in E. destruct E as (l & w1 & E1 & E).
    apply py_iter_inv in E1. destruct E1 as [_ ->].
    apply insert_many_adds in E; [|exact Hac].
    eexists. split; [exact E|].
    apply List.Forall_forall. intros row Hin.
    apply List.in_map_iff in Hin. destruct Hin as (p & <- & Hin).
    apply List.in_map_iff in Hin. destruct Hin as (t & <- & _).
    eapply part_of_mono; [|apply Hmk]. intros r [].
  - injection E as _ <-. exists []. split; [apply adds_refl, Hac|constructor].
Qed.

(** X19.  The rows of a combined report hang together: when
    process_combined_json returns inside a transaction, it has added to
    the transaction exactly one CombinedAnalyses row, with the agent key
    and the run's timestamp, and after it only rows that hang off it:
    strengths, development areas, coaching focuses and quality-point
    details carry that row's key (the details also a non-zero key that
    qp_map holds), and every coaching action carries the key of a
    coaching focus written for this report.  Nothing is committed. *)
Theorem combined_rows_hang_off_analysis
  (json_data : json) (agent_id : Z) (qp_map : gmap string Z) (ts : Z)
  (w w' : World) :
  autocommit w = false ->
  process_combined_json json_data agent_id qp_map ts w = (Ok tt, w') ->
  exists combined_id columns rows,
    adds_to_transaction (RCombined combined_id agent_id columns ts :: rows) w w'
    /\ Forall (part_of combined_id qp_map rows) rows.
Proof.
  intros Hac E. unfold process_combined_json in E.
  apply bind_inv in E. destruct E as (header & w1 & E1 & E).
  apply py_get_inv in E1. destruct E1 as [_ ->].
  apply bind_inv in E. destruct E as (snapshot & w1 & E1 & E).
  apply py_get_inv in E1. destruct E1 as [_ ->].
  apply bind_inv in E. destruct E as (counts & w1 & E1 & E).
  apply py_get_inv in E1. destruct E1 as [_ ->].
  apply bind_inv in E. destruct E as (header_cols & w1 & E1 & E).
  apply for_each_py_get in E1. subst w1.
  apply bind_inv in E. destruct E as (total & w1 & E1 & E).
  apply py_get_inv in E1. destruct E1 as [_ ->].
  apply bind_inv in E. destruct E as (count_cols & w1 & E1 & E).
  apply for_each_py_get in E1. subst w1.
  apply bind_inv in E. destruct E as (combined_id & w1 & E1 & E).
  apply insert_returning_adds in E1; [|exact Hac].
  apply bind_inv in E. destruct E as (qual_summary & w2 & E2 & E).
  apply py_get_inv in E2. destruct E2 as [_ ->].
  apply bind_inv in E. destruct E as (strengths & w2 & E2 & E).
  apply py_get_inv in E2. destruct E2 as [_ ->].
  apply bind_inv in E. destruct E as ([] & w2 & E2 & E).
  apply (optional_texts_add combined_id qp_map) in E2;
    [|intros t; reflexivity|apply E1].
  destruct E2 as (r1 & A1 & P1).
  apply bind_inv in E. destruct E as (dev_areas & w3 & E3 & E).
  apply py_get_inv in E3. destruct E3 as [_ ->].
  apply bind_inv in E. destruct E as ([] & w3 & E3 & E).
  apply (optional_texts_add combined_id qp_map) in E3;
    [|intros t; reflexivity|apply A1].
  destruct E3 as (r2 & A2 & P2).
  apply bind_inv in E. destruct E as (focus & w4 & E4 & E).
  apply py_get_inv in E4. destruct E4 as [_ ->].
  apply bind_inv in E. destruct E as (focus_items & w4 & E4 & E).
  apply py_iter_inv in E4. destruct E4 as [_ ->].
  apply bind_inv in E. destruct E as (us & w4 & E4 & E).
  apply (coaching_foci_add combined_id qp_map) in E4; [|apply A2].
  destruct E4 as (r3 & A3 & P3).
  apply bind_inv in E. destruct E as (detailed & w5 & E5 & E).
  apply py_get_inv in E5. destruct E5 as [_ ->].
  apply bind_inv in E. destruct E as (items & w5 & E5 & E).
  apply py_iter_inv in E5. destruct E5 as [_ ->].
  apply bind_inv in E. destruct E as (rows & w5 & E5 & E).
  pose proof (for_each_pure _ _ (fun x w0 r0 w0' H =>
                proj1 (qp_param_inv _ _ _ _ _ _ H)) _ _ _ E5) as ->.
  apply (for_each_concat
           (fun p => forall siblings,
              part_of combined_id qp_map siblings
                (let '(c, q, positive, negative, neutral, trend) := p in
                 RQualityPointDetail c q positive negative neutral trend))) in E5.
  2:{ intros x w0 ps w0' H. apply qp_param_inv in H. apply H. reflexivity. }
  pose proof (adds_trans _ _ _ _ _ A1 (adds_trans _ _ _ _ _ A2 A3)) as A.
  pose proof (part_of_app _ _ _ _ P1 (part_of_app _ _ _ _ P2 P3)) as P.
  exists combined_id, (header_cols ++ total :: count_cols).
  destruct (concat rows) as [|p ps] eqn:Ec.
  - injection E as <-. eexists.
    split; [exact (adds_trans [_] _ _ _ _ E1 A)|exact P].
  - rewrite <- Ec in E, E5. apply insert_many_adds in E; [|apply A3].
    eexists. split; [exact (adds_trans [_] _ _ _ _ E1 (adds_trans _ _ _ _ _ A E))|].
    rewrite List.app_assoc. rewrite List.app_assoc in P.
    apply part_of_app; [rewrite <- !List.app_assoc; rewrite <- List.app_assoc in P; exact P|].
    apply List.Forall_forall. intros row Hin.
    apply List.in_map_iff in Hin.
    destruct Hin as ([[[[[c q] positive] negative] neutral] trend] & <- & Hin).
    exact (proj1 (List.Forall_forall _ _) E5 _ Hin _).
Qed.

Lemma combined_rows_hang_off_analysis_witness :
  let w := set_autocommit false (Sample.fresh [] []) in
  let qp_map : gmap string Z := {[ "Tone"%string := 7 ]} in
  let rw := process_combined_json Sample.combined 3 qp_map 100 w in
  fst rw = Ok tt
  /\ exists combined_id columns rows,
       adds_to_transaction (RCombined combined_id 3 columns 100 :: rows) w (snd rw)
       /\ Forall (part_of combined_id qp_map rows) rows.
Proof.
  intros w qp_map rw.
  assert (fst rw = Ok tt) as Hr by (vm_compute; reflexivity).
  split; [exact Hr|].
  apply (combined_rows_hang_off_analysis Sample.combined 3 qp_map 100 w).
  - reflexivity.
  - rewrite <- Hr. apply surjective_pairing.
Defined.

(* --------------------------------------------------------------------- *)
(*  What the next run finds                                              *)
(* --------------------------------------------------------------------- *)
















(* --------------------------------------------------------------------- *)
(*  The audio file name                                                  *)
(* --------------------------------------------------------------------- *)

Lemma startswith_nil_r (s : string) : PyStr.startswith s "" = true.
Proof. destruct s; reflexivity. Qed.

(* a match that begins in x and does not lie within x runs into y *)
Lemma startswith_split (q : string) :
  forall x y : string,
    PyStr.startswith (x +:+ y) q = true ->
    PyStr.startswith x q = true
    \/ exists q2, q = x +:+ q2 /\ q2 <> ""%string /\ PyStr.startswith y q2 = true.
Proof.
  induction q as [|a q IH]; intros x y H.
  - left. apply startswith_nil_r.
  - destruct x as [|b x].
    + right. exists (String a q). split; [reflexivity|]. split; [discriminate|].
      exact H.
    + change (PyStr.startswith (String b (x +:+ y)) (String a q) = true) in H.
      simpl in H. simpl. destruct (Ascii.eqb a b) eqn:Eab; [|discriminate].
      apply Ascii.eqb_eq in Eab. subst b.
      destruct (IH x y H) as [Hx|(q2 & -> & Hne & Hy)]; [left; exact Hx|].
      right. exists q2. split; [reflexivity|]. split; assumption.
Qed.

Lemma replace_from_cons0 c s old new :
  PyStr.replace_from 0 (String c s) old new
  = if PyStr.startswith (String c s) old
    then new +:+ PyStr.replace_from (String.length old - 1) s old new
    else String c (PyStr.replace_from 0 s old new).
Proof. reflexivity. Qed.

Lemma no_overlap (x : string) :
  x <> ""%string ->
  PyStr.startswith (x +:+ "_analysis.json") "_analysis.json" = true ->
  PyStr.startswith x "_analysis.json" = true.
Proof.
  intros Hx H. apply startswith_split in H.
  destruct H as [H|(q2 & Hq & Hne & Hs)]; [exact H|]. exfalso.
  destruct x as [|c x]; [contradiction|]. clear Hx.
  injection Hq as <- Hq.
  repeat (destruct x as [|? x];
          [change (""%string +:+ q2) with q2 in Hq; subst q2;
           first [congruence | vm_compute in Hs; discriminate]
          |first [discriminate Hq | injection Hq as <- Hq]]).
Qed.

Lemma replace_analysis_suffix (stem : string) :
  PyStr.contains stem "_analysis.json" = false ->
  PyStr.replace (stem +:+ "_analysis.json") "_analysis.json" ".wav"
  = stem +:+ ".wav".
Proof.
  unfold PyStr.replace. induction stem as [|c stem IH]; intros H.
  - reflexivity.
  - rewrite contains_cons in H.
    destruct (PyStr.startswith (String c stem) "_analysis.json") eqn:Es;
      [discriminate|].
    change (String c stem +:+ "_analysis.json")
      with (String c (stem +:+ "_analysis.json")).
    rewrite replace_from_cons0.
    destruct (PyStr.startswith (String c (stem +:+ "_analysis.json"))
                "_analysis.json") eqn:Ea.
    + apply (no_overlap (String c stem)) in Ea; [congruence|discriminate].
    + rewrite (IH H). reflexivity.
Qed.

(** X21.  The audio file name of an individual analysis: for a document
    named <stem>_analysis.json, where the stem does not itself contain
    _analysis.json, the IndividualCallAnalyses row that
    process_individual_json writes carries <stem>.wav as
    OriginalAudioFileName, whatever directory the document lies in. *)
Theorem audio_name_is_stem_wav
  (json_data : json) (file_path stem : string) (agent_id : Z)
  (qp_map : gmap string Z) (ts : Z) (w w' : World) :
  Path.basename file_path = stem +:+ "_analysis.json" ->
  PyStr.contains stem "_analysis.json" = false ->
  autocommit w = false ->
  process_individual_json json_data file_path agent_id qp_map ts w = (Ok tt, w') ->
  exists analysis_id columns items,
    adds_to_transaction
      (RIndividual analysis_id agent_id (stem +:+ ".wav") columns ts :: items) w w'.
Proof.
  intros Hb Hs Hac E.
  destruct (process_individual_json_adds _ _ _ _ _ _ _ Hac E)
    as (analysis_id & columns & items & Hadd & _).
  rewrite Hb, (replace_analysis_suffix _ Hs) in Hadd. eauto.
Qed.

Lemma audio_name_is_stem_wav_witness :
  let w := set_autocommit false (Sample.fresh [] []) in
  let rw := process_individual_json Sample.call1 Sample.path1 3 ∅ 100 w in
  fst rw = Ok tt
  /\ exists analysis_id columns items,
       adds_to_transaction
         (RIndividual analysis_id 3 ("call1" +:+ ".wav") columns 100 :: items)
         w (snd rw).
Proof.
  intros w rw.
  assert (fst rw = Ok tt) as Hr by (vm_compute; reflexivity).
  split; [exact Hr|].
  apply (audio_name_is_stem_wav Sample.call1 Sample.path1 "call1" 3 ∅ 100 w).
  - reflexivity.
  - reflexivity.
  - reflexivity.
  - rewrite <- Hr. apply surjective_pairing.
Defined.

(* --------------------------------------------------------------------- *)
(*  Sections that are present but are no objects                         *)
(* --------------------------------------------------------------------- *)

Lemma for_each_get_object fields keys w :
  exists cols,
    for_each (fun k => py_get (JObj fields) k JNull) keys w = (Ok cols, w).
Proof.
  induction keys as [|k keys [cols IH]]; [exists []; reflexivity|].
  eexists. simpl. unfold bind at 1. unfold py_get at 1, lift at 1. simpl.
  unfold bind at 1. rewrite IH. reflexivity.
Qed.

Lemma for_each_get_non_object v k keys w :
  is_object v = false ->
  for_each (fun k => py_get v k JNull) (k :: keys) w = (Raise AttributeError, w).
Proof. destruct v; try discriminate; reflexivity. Qed.

(** X22.  A section that is present but is not an object is not treated
    like a missing one: when call_summary or concluding_remarks of an
    individual document is null (or a list, a string, a number),
    process_individual_json raises AttributeError before it sends
    anything to the store, so the document ends as bad data; the default
    {} only stands in for a key that is absent. *)
Theorem non_object_section_raises_before_insert
  (fields : list (string * json)) (section : string) (v : json)
  (file_path : string) (agent_id : Z) (qp_map : gmap string Z) (ts : Z)
  (w : World) :
  section = "call_summary"%string \/ section = "concluding_remarks"%string ->
  Py.assoc section fields = Some v ->
  is_object v = false ->
  process_individual_json (JObj fields) file_path agent_id qp_map ts w
  = (Raise AttributeError, w).
Proof.
  intros Hsec Hv Hobj. unfold process_individual_json.
  unfold bind at 1. unfold py_get at 1, lift at 1. simpl Py.get. cbv iota beta.
  unfold bind at 1. unfold py_get at 1, lift at 1. simpl Py.get. cbv iota beta.
  destruct Hsec as [-> | ->]; rewrite Hv.
  - unfold bind at 1. destruct v; try discriminate; reflexivity.
  - destruct (match Py.assoc "call_summary" fields with
              | Some v0 => v0
              | None => JObj []
              end) as [| | | | |summary] eqn:Es;
      try (unfold bind at 1; reflexivity).
    unfold bind at 1. unfold py_get at 1, lift at 1. simpl Py.get. cbv iota beta.
    unfold bind at 1.
    destruct (for_each_get_object summary
                ["call_duration"; "client_name"; "client_facility_company";
                 "ticket_number"; "client_callback_number"; "ticket_status_type";
                 "call_subject_summary"]%string w) as [cols ->].
    unfold bind at 1. rewrite (for_each_get_non_object _ _ _ _ Hobj). reflexivity.
Qed.

Lemma non_object_section_raises_before_insert_witness :
  let w := set_autocommit false (Sample.fresh [] []) in
  process_individual_json
    (JObj [("call_summary", JNull); ("detailed_evaluation", JArr [])])
    Sample.path1 3 ∅ 100 w
  = (Raise AttributeError, w).
Proof.
  intros w.
  apply (non_object_section_raises_before_insert _ "call_summary" JNull).
  - left. reflexivity.
  - reflexivity.
  - reflexivity.
Defined.

(* --------------------------------------------------------------------- *)
(*  The labels handed to the resolver                                    *)
(* --------------------------------------------------------------------- *)

Lemma NoDup_set_add {A} `{EqDecision A} (x : A) (s : list A) :
  NoDup s -> NoDup (set_add x s).
Proof.
  unfold set_add. intros H. destruct (decide (x ∈ s)) as [|Hx]; [exact H|].
  apply NoDup_app. split; [exact H|]. split.
  - intros y Hy Hy'. apply elem_of_cons in Hy'.
    destruct Hy' as [->|Hy']; [contradiction|]. apply elem_of_nil in Hy'. exact Hy'.
  - apply NoDup_cons. split; [apply not_elem_of_nil|apply NoDup_nil_2].
Qed.

Lemma to_key_truthy label k :
  to_key label = Ok k -> Py.truthy label = true -> key_truthy k = true.
Proof.
  destruct label; simpl; intros [= <-]; simpl; auto.
  intros ->. reflexivity.
Qed.

Lemma collect_into_spec items :
  forall acc w out w',
    collect_into acc items w = (Ok out, w') ->
    w' = w
    /\ (NoDup acc -> NoDup out)
    /\ (Forall (fun k => key_truthy k = true) acc ->
        Forall (fun k => key_truthy k = true) out)
    /\ forall k,
         In k out
         <-> In k acc
             \/ exists item label,
                  In item items
                  /\ Py.get item "quality_point" JNull = Ok label
                  /\ Py.truthy label = true
                  /\ to_key label = Ok k.
Proof.
  induction items as [|item items IH]; intros acc w out w' E; simpl in E.
  - injection E as <- <-. repeat split; auto.
    intros [H|(? & ? & [] & _)]. exact H.
  - apply bind_inv in E. destruct E as (label & w1 & E1 & E).
    apply py_get_inv in E1. destruct E1 as [Hl ->].
    destruct (Py.truthy label) eqn:Et.
    + apply bind_inv in E. destruct E as (k0 & w1 & E1 & E).
      apply lift_inv in E1. destruct E1 as [Hk ->].
      apply IH in E. destruct E as (-> & Hnd & Htr & Hin).
      split; [reflexivity|]. split; [|split].
      * intros H. apply Hnd, NoDup_set_add, H.
      * intros H. apply Htr. apply List.Forall_forall. intros k Hk'.
        apply set_add_in in Hk'. destruct Hk' as [->|Hk'].
        -- eapply to_key_truthy; [symmetry; exact Hk|exact Et].
        -- exact (proj1 (List.Forall_forall _ _) H k Hk').
      * intros k. rewrite Hin, set_add_in. split.
        -- intros [[->|H]|(it & lb & Hit & Hg & Ht & Hk')]; [|auto|].
           ++ right. exists item, label. simpl. auto.
           ++ right. exists it, lb. simpl. auto.
        -- intros [H|(it & lb & [<-|Hit] & Hg & Ht & Hk')]; [auto| |].
           ++ left. left. rewrite <- Hl in Hg. injection Hg as <-.
              rewrite <- Hk in Hk'. injection Hk' as <-. reflexivity.
           ++ right. exists it, lb. auto.
    + apply IH in E. destruct E as (-> & Hnd & Htr & Hin).
      split; [reflexivity|]. split; [exact Hnd|]. split; [exact Htr|].
      intros k. rewrite Hin. split.
      * intros [H|(it & lb & Hit & Hg & Ht & Hk')]; [auto|].
        right. exists it, lb. simpl. auto.
      * intros [H|(it & lb & [<-|Hit] & Hg & Ht & Hk')]; [auto| |].
        -- rewrite <- Hl in Hg. injection Hg as <-. congruence.
        -- right. exists it, lb. auto.
Qed.

(** X23.  What the loop body hands to get_or_create_quality_points: when
    the two comprehensions return, the set holds exactly the truthy
    quality_point values of the items of detailed_evaluation and of
    detailed_quality_point_analysis, each once, so that the resolver's
    own filter on empty labels never has anything to drop; collecting
    them touches neither the store nor the tree. *)
Theorem collected_labels_are_the_truthy_ones
  (json_data : json) (w : World) (all_qps : list key) (w' : World) :
  collect_quality_points json_data w = (Ok all_qps, w') ->
  w' = w
  /\ NoDup all_qps
  /\ Forall (fun k => key_truthy k = true) all_qps
  /\ forall k,
       In k all_qps
       <-> labelled "detailed_evaluation" json_data k
           \/ labelled "detailed_quality_point_analysis" json_data k.
Proof.
  intros E. unfold collect_quality_points in E.
  apply bind_inv in E. destruct E as (d1 & w1 & E1 & E).
  apply py_get_inv in E1. destruct E1 as [Hd1 ->].
  apply bind_inv in E. destruct E as (l1 & w1 & E1 & E).
  apply py_iter_inv in E1. destruct E1 as [Hl1 ->].
  apply bind_inv in E. destruct E as (acc & w1 & E1 & E).
  apply collect_into_spec in E1. destruct E1 as (-> & Hnd1 & Htr1 & Hin1).
  apply bind_inv in E. destruct E as (d2 & w1 & E1 & E).
  apply py_get_inv in E1. destruct E1 as [Hd2 ->].
  apply bind_inv in E. destruct E as (l2 & w1 & E1 & E).
  apply py_iter_inv in E1. destruct E1 as [Hl2 ->].
  apply collect_into_spec in E. destruct E as (-> & Hnd2 & Htr2 & Hin2).
  split; [reflexivity|].
  split; [apply Hnd2, Hnd1, NoDup_nil_2|].
  split; [apply Htr2, Htr1; constructor|].
  intros k. rewrite Hin2, Hin1. unfold labelled. split.
  - intros [[[]|(it & lb & H)]|(it & lb & H)].
    + left. exists d1, l1, it, lb. auto.
    + right. exists d2, l2, it, lb. auto.
  - intros [(d & l & it & lb & Hd & Hl & H)|(d & l & it & lb & Hd & Hl & H)].
    + left. right. rewrite <- Hd1 in Hd. injection Hd as <-.
      rewrite <- Hl1 in Hl. injection Hl as <-. eauto.
    + right. rewrite <- Hd2 in Hd. injection Hd as <-.
      rewrite <- Hl2 in Hl. injection Hl as <-. eauto.
Qed.

Lemma collected_labels_are_the_truthy_ones_witness :
  let w := Sample.fresh [] [] in
  let rw := collect_quality_points Sample.call1 w in
  let all_qps := [KStr "Tone"; KStr "[Bonus] Upsell Attempt"] in
  fst rw = Ok all_qps
  /\ snd rw = w
  /\ NoDup all_qps
  /\ Forall (fun k => key_truthy k = true) all_qps
  /\ forall k,
       In k all_qps
       <-> labelled "detailed_evaluation" Sample.call1 k
           \/ labelled "detailed_quality_point_analysis" Sample.call1 k.
Proof.
  intros w rw all_qps.
  assert (fst rw = Ok all_qps) as Hr by (vm_compute; reflexivity).
  split; [exact Hr|].
  apply (collected_labels_are_the_truthy_ones Sample.call1 w).
  rewrite <- Hr. apply surjective_pairing.
Defined.
